(** * LK009 pulsar monitoring: the scheduler of [runLK009.py]

    A shallow embedding of [runLK009.py] (class [Pulsar] and [main]) and the
    properties of its admission loop, beam balancer, free/busy partition,
    maintenance placement and submission phase.

    Conventions of the embedding.
    - A [datetime] is the number of microseconds since MJD 0 (1858-11-17
      00:00:00 UTC), a [timedelta] a number of microseconds; both are [Z].
    - [Pulsar.duration] and the recording budget are floats holding seconds
      in the source.  They are carried here as exact whole numbers of
      microseconds, the resolution to which [timedelta] rounds them; only the
      order and the single updates of these numbers are relied on.  The beam
      loads are carried twice: as such exact numbers where the choice of the
      beams is concerned, and as the binary64 floats they are where their sums
      are ([float_loads]).
    - The scripts run under Python 3, which the first line of [runLK009.py]
      names: [file] and [raw_input], built-ins of Python 2, are not defined.
    - pyephem, lsl and lwa_mcs are external: the calls the script makes to them
      are the fields of the classes [Ephem] and [Facility]. *)

From Stdlib Require Import ZArith List Bool Lia String.
From Stdlib Require Import Sorting.Permutation Sorting.Sorted.
From Stdlib Require Import Floats.
Import ListNotations.
Open Scope Z_scope.

(** ** datetime and timedelta *)

Definition datetime := Z.
Definition timedelta := Z.

Definition seconds (n : Z) : timedelta := n * 1000000.
Definition minutes (n : Z) : timedelta := n * 60000000.
Definition hours (n : Z) : timedelta := n * 3600000000.
Definition days (n : Z) : timedelta := n * 86400000000.

(** [dt.microsecond], [dt.hour] *)
Definition microsecond (t : datetime) : Z := t mod 1000000.
Definition hour (t : datetime) : Z := (t mod 86400000000) / 3600000000.

(** [dt.replace(microsecond=0)] and [dt.replace(second=0, microsecond=0)] *)
Definition replace_microsecond0 (t : datetime) : datetime := t - t mod 1000000.
Definition replace_second0 (t : datetime) : datetime := t - t mod 60000000.

(** [lsl.common.mcs.datetime_to_mjdmpm]: the MJD day and the milliseconds past
    midnight. *)
Definition dt2mjd (t : datetime) : Z * Z :=
  (t / 86400000000, (t mod 86400000000) / 1000).

(** [timedelta(seconds=d/2.0)] for a duration [d] given in microseconds:
    [timedelta] rounds to the nearest microsecond, halves to even. *)
Definition half_seconds (d : Z) : timedelta :=
  let q := d / 2 in
  if Z.even d then q else if Z.even q then q else q + 1.

(** ** Exceptions *)

(** [ephem.NeverUp] and the built-in exceptions the scripts can end in. *)
Inductive exn := NeverUp | ValueError | NameError | RuntimeError.

Inductive result (A : Type) : Type :=
| Ok (a : A)
| Raise (e : exn).
Arguments Ok {A} a.
Arguments Raise {A} e.

Definition bind {A B} (c : result A) (k : A -> result B) : result B :=
  match c with
  | Ok a => k a
  | Raise e => Raise e
  end.

Notation "x <- c ;; k" := (bind c (fun x => k))
  (at level 61, c at next level, right associativity).

(** ** The catalog entry *)

(** The attributes [Pulsar.from_line] sets.  [oid] stands for the identity of
    the Python object (the position of its line in the catalog): [main]
    keeps the same objects in [bdys] and in [bdys_run]. *)
Record Pulsar := mkPulsar {
  oid : nat;
  name : string;
  _ra : string;
  _dec : string;
  duration : Z;
  cadence : Z;
  last_mjd : Z
}.

Definition set_last_mjd (p : Pulsar) (mjd : Z) : Pulsar :=
  mkPulsar (oid p) (name p) (_ra p) (_dec p) (duration p) (cadence p) mjd.

(** pyephem, as [Pulsar] uses it.  [next_transit start p] is
    [obs.next_transit(p)] with [obs.date] set to [start], converted by
    [mjd2dt]; [None] stands for [ephem.NeverUp].  [separation_le a b] is
    [ephem.separation(a, b) <= width] at the default width of 1.5 degrees. *)
Class Ephem := {
  next_transit : datetime -> Pulsar -> option datetime;
  separation_le : Pulsar -> Pulsar -> bool
}.

Section PulsarMethods.
Context {E : Ephem}.

(** [Pulsar._padding]: total session padding time in seconds *)
Definition _padding : Z := 10.

(** [Pulsar.within_beam], with the default [width_deg=1.5] *)
Definition within_beam (self other : Pulsar) : bool :=
  if separation_le self other then true else false.

(** [Pulsar.get_start_stop] *)
Definition get_start_stop (self : Pulsar) (start stop : datetime) (padding : bool)
  : result (datetime * datetime) :=
  match next_transit start self with
  | None => Raise NeverUp
  | Some bdy_transit =>
      (* Round to the nearest second *)
      let bdy_transit :=
        if microsecond bdy_transit >=? 5000000
        then bdy_transit + seconds 1 else bdy_transit in
      let bdy_transit := replace_microsecond0 bdy_transit in
      (* Compute the start and stop times to center on transit *)
      let bdy_start := bdy_transit - half_seconds (duration self) in
      let bdy_stop := bdy_transit + half_seconds (duration self) in
      if padding
      then Ok (bdy_start - half_seconds (seconds _padding),
               bdy_stop + half_seconds (seconds _padding))
      else Ok (bdy_start, bdy_stop)
  end.

(** [Pulsar.can_run]; [ephem.NeverUp], which it catches, is all that
    [get_start_stop] raises. *)
Definition can_run (self : Pulsar) (start stop : datetime) : bool :=
  match get_start_stop self start stop true with
  | Ok (bdy_start, bdy_stop) =>
      if (bdy_start >=? start) && (bdy_stop <=? stop) then true else false
  | Raise _ => false
  end.

(** [Pulsar.should_run] *)
Definition should_run (self : Pulsar) (start stop : datetime) : bool :=
  let obs_mjd_start := fst (dt2mjd start) in
  if (obs_mjd_start >=? last_mjd self + cadence self) && (cadence self >? 0)
  then true else false.

End PulsarMethods.

(** ** Sorting: [list.sort(key=...)] and [sorted], both stable *)

Section Sort.
Context {A : Type} (le : A -> A -> bool).

Fixpoint insert_sorted (x : A) (l : list A) : list A :=
  match l with
  | [] => [x]
  | y :: l' => if le x y then x :: y :: l' else y :: insert_sorted x l'
  end.

Definition sorted (l : list A) : list A := fold_right insert_sorted [] l.

End Sort.

Definition sort_key {A} (key : A -> Z) (l : list A) : list A :=
  sorted (fun x y => key x <=? key y) l.

(** ** The admission loop of [main] *)

(** A target of [bdys_run]: the catalog object with the attributes [main]
    adds to it, [final] at admission and [beams] at assignment ([[]] before). *)
Record Scheduled := mkScheduled {
  bdy : Pulsar;
  final : datetime * datetime;
  beams : list Z
}.

Record Admission := mkAdmission {
  bdys_run : list Scheduled;
  rec_secs_possible : Z;
  rec_secs_allocated : Z
}.

Section AdmissionLoop.
Context {E : Ephem}.

(** The test of lines 260-261 on [css] and [pss]. *)
Definition conflicts (css pss : datetime * datetime) : bool :=
  ((fst css >=? fst pss) && (fst css <=? snd pss))
  || ((snd css >=? fst pss) && (snd css <=? snd pss))
  || ((fst pss >=? fst css) && (fst pss <=? snd css))
  || ((snd pss >=? fst css) && (snd pss <=? snd css)).

(** [for prv in bdys_run: ... conflict = True; break] *)
Fixpoint find_conflict (start stop : datetime) (css : datetime * datetime)
  (run : list Scheduled) : result bool :=
  match run with
  | [] => Ok false
  | prv :: run' =>
      pss <- get_start_stop (bdy prv) start stop true ;;
      if conflicts css pss then Ok true
      else find_conflict start stop css run'
  end.

(** One turn of [for bdy in bdys]. *)
Definition admit_step (start stop : datetime) (st : Admission) (b : Pulsar)
  : result Admission :=
  (* Is there any space left at this point? *)
  if duration b >=? rec_secs_possible st then Ok st
  (* Can/should this target be running? *)
  else if negb (should_run b start stop) then Ok st
  else if negb (can_run b start stop) then Ok st
  else
    (* Is there a conflict with something previously added to the list? *)
    css <- get_start_stop b start stop true ;;
    conflict <- find_conflict start stop css (bdys_run st) ;;
    if (conflict : bool) then Ok st
    else
      (* Add it to the list *)
      fin <- get_start_stop b start stop false ;;
      Ok (mkAdmission (bdys_run st ++ [mkScheduled b fin []])
                      (rec_secs_possible st - duration b)
                      (rec_secs_allocated st + duration b)).

Fixpoint admit_loop (start stop : datetime) (st : Admission) (bdys : list Pulsar)
  : result Admission :=
  match bdys with
  | [] => Ok st
  | b :: bdys' =>
      st' <- admit_step start stop st b ;;
      admit_loop start stop st' bdys'
  end.

(** Lines 235-271: sort by "observability rank", then the loop. *)
Definition sort_bdys (start : datetime) (bdys : list Pulsar) : list Pulsar :=
  let mjd_start := fst (dt2mjd start) in
  sort_key (fun x => last_mjd x - mjd_start) bdys.

Definition admit_targets (start stop : datetime) (rec_secs : Z) (bdys : list Pulsar)
  : result Admission :=
  admit_loop start stop (mkAdmission [] rec_secs 0) (sort_bdys start bdys).

End AdmissionLoop.

(** ** Beam assignment (lines 272-280) *)

(** The dict [load]: beam identifier and cumulative duration, in insertion
    order. *)
Definition load_t := list (Z * Z).

Definition load_init : load_t := [(2, 0); (3, 0); (4, 0)].

(** [load[b] += d] *)
Fixpoint load_add (load : load_t) (b d : Z) : load_t :=
  match load with
  | [] => []
  | (k, v) :: load' =>
      if k =? b then (k, v + d) :: load' else (k, v) :: load_add load' b d
  end.

(** The order of Python on the tuples [(load[b], b)]. *)
Definition tuple_le (x y : Z * Z) : bool :=
  (fst x <? fst y) || ((fst x =? fst y) && (snd x <=? snd y)).

(** [[lbp[1] for lbp in sorted([(load[b],b) for b in load])]] *)
Definition ranked_beams (load : load_t) : list Z :=
  map snd (sorted tuple_le (map (fun kv => (snd kv, fst kv)) load)).

(** One turn of [for bdy in bdys_run] at line 276.  The second branch is the
    IndexError of a dict with fewer than two beams, which [load_init] excludes. *)
Definition assign_step (st : load_t * list Scheduled) (s : Scheduled)
  : load_t * list Scheduled :=
  let (load, done) := st in
  match ranked_beams load with
  | b0 :: b1 :: _ =>
      let s' := mkScheduled (bdy s) (final s) (sorted Z.leb [b0; b1]) in
      let load := load_add load b0 (duration (bdy s)) in
      let load := load_add load b1 (duration (bdy s)) in
      (load, done ++ [s'])
  | _ => (load, done ++ [s])
  end.

Definition assign_beams (run : list Scheduled) : load_t * list Scheduled :=
  fold_left assign_step run (load_init, []).

(** [bdys_run.sort(key=lambda x: x.final[0])] *)
Definition sort_run (run : list Scheduled) : list Scheduled :=
  sort_key (fun x => fst (final x)) run.

(** ** The beam loads as Python adds them up (lines 274-280) *)

(** [load] holds Python floats, binary64, and so does [bdy.duration], which
    [from_line] computes as [float(duration)*3600.0] from the hours of the
    catalog: [load[b] += bdy.duration] rounds.  Below the loop of line 276 is
    run on the loads as floats, with the additions and comparisons of
    binary64, for the durations of [bdys_run] in their order. *)
Definition duration_of_hours (h : float) : float := (h * 3600)%float.

Definition float_load_t := list (Z * float).

Definition float_load_init : float_load_t :=
  [(2, 0%float); (3, 0%float); (4, 0%float)].

(** [load[b]] and [load[b] += d] *)
Fixpoint float_load_get (load : float_load_t) (b : Z) : float :=
  match load with
  | [] => 0%float
  | (k, v) :: load' => if k =? b then v else float_load_get load' b
  end.

Fixpoint float_load_add (load : float_load_t) (b : Z) (d : float)
  : float_load_t :=
  match load with
  | [] => []
  | (k, v) :: load' =>
      if k =? b then (k, (v + d)%float) :: load'
      else (k, v) :: float_load_add load' b d
  end.

(** [<] of Python on the tuples [(load[b], b)]: the first items that are not
    [==] decide.  [sorted] puts [x] before [y] unless [y < x]. *)
Definition float_tuple_lt (x y : float * Z) : bool :=
  if (fst x =? fst y)%float then snd x <? snd y else (fst x <? fst y)%float.

Definition float_tuple_le (x y : float * Z) : bool :=
  negb (float_tuple_lt y x).

Definition float_ranked_beams (load : float_load_t) : list Z :=
  map snd (sorted float_tuple_le (map (fun kv => (snd kv, fst kv)) load)).

(** One turn of [for bdy in bdys_run], for its loads, and the loop. *)
Definition float_assign_step (load : float_load_t) (d : float)
  : float_load_t :=
  match float_ranked_beams load with
  | b0 :: b1 :: _ => float_load_add (float_load_add load b0 d) b1 d
  | _ => load
  end.

Definition float_loads (durations : list float) : float_load_t :=
  fold_left float_assign_step durations float_load_init.

(** ** Free and busy windows (lines 288-331) *)

Definition window := (datetime * datetime)%type.

(** The inner [for bdy in bdys_run] of the sampling loop. *)
Definition is_free (run : list Scheduled) (tFree : datetime) : bool :=
  forallb (fun b =>
    if tFree <? fst (final b) - minutes 20 then true
    else if tFree >? snd (final b) + minutes 20 then true
    else false) run.

(** [while tFree < block_stop], with the number of turns left as fuel. *)
Fixpoint free_time_loop (fuel : nat) (run : list Scheduled)
  (block_stop tFree : datetime) : list datetime :=
  match fuel with
  | O => []
  | S fuel' =>
      if tFree <? block_stop then
        (if is_free run tFree then [tFree] else [])
        ++ free_time_loop fuel' run block_stop (tFree + minutes 2)
      else []
  end.

Definition free_time_fuel (block_start block_stop : datetime) : nat :=
  Z.to_nat ((block_stop - block_start) / minutes 2 + 1).

Definition free_times (run : list Scheduled) (block_start block_stop : datetime)
  : list datetime :=
  free_time_loop (free_time_fuel block_start block_stop) run block_stop
                 (block_start + seconds 0).

(** The list of windows under construction is kept as the windows before the
    last one and the last one, [freeWindows[-1]], the only one updated. *)
Definition join_free (st : list window * window) (tFree : datetime)
  : list window * window :=
  let (before, cur) := st in
  if tFree - snd cur <=? seconds 120 then (before, (fst cur, tFree))
  else (before ++ [cur], (tFree, tFree)).

Definition free_windows (freeTime : list datetime) : list window :=
  match freeTime with
  | [] => []
  | t0 :: _ =>
      let (before, cur) := fold_left join_free freeTime ([], (t0, t0)) in
      filter (fun w => snd w - fst w >? 0) (before ++ [cur])
  end.

Definition join_busy (st : list window * window) (b : Scheduled)
  : list window * window :=
  let (before, cur) := st in
  let (tSDFStart, tSDFStop) := final b in
  if tSDFStart - snd cur <=? minutes 45
  then (before, (fst cur, Z.max (snd cur) tSDFStop))
  else (before ++ [cur], (tSDFStart, tSDFStop)).

Definition busy_windows (run : list Scheduled) : list window :=
  match run with
  | [] => []
  | b0 :: _ =>
      let (before, cur) := fold_left join_busy run ([], final b0) in
      before ++ [cur]
  end.

(** ** Maintenance placement (lines 435-513) *)

Inductive Command :=
| INIdp                          (* /home/op1/MCS/sch/INIdp.sh *)
| startTBN_split                 (* /home/op1/MCS/sch/startTBN_split.sh *)
| acquireHealthCheckAndProcess   (* /home/op1/MCS/exec/acquireHealthCheckAndProcess.py *)
| selectBestDRSU                 (* .../operatorScripts/selectBestDRSU.py --all *)
| postDRSUStatus                 (* .../operatorScripts/postDRSUStatus.py *)
| scanDRSUs.                     (* .../operatorScripts/scanDRSUs.sh *)

Definition Command_eqb (a b : Command) : bool :=
  match a, b with
  | INIdp, INIdp | startTBN_split, startTBN_split
  | acquireHealthCheckAndProcess, acquireHealthCheckAndProcess
  | selectBestDRSU, selectBestDRSU | postDRSUStatus, postDRSUStatus
  | scanDRSUs, scanDRSUs => true
  | _, _ => false
  end.

Record Placement := mkPlacement {
  atCommands : list (datetime * Command);
  tTBWLast : datetime;
  tDRSULast : datetime;
  tLWADBLast : datetime
}.

(** INIdp.sh calls at the start of each busy window *)
Definition ini_commands (busyWindows : list window) : list (datetime * Command) :=
  map (fun busyWindow =>
         let tINI := fst busyWindow - minutes 20 in
         (replace_second0 tINI, INIdp)) busyWindows.

(** [while tTBW <= (freeWindow[1] - timedelta(minutes=6))] *)
Fixpoint maintenance_loop (fuel : nat) (limit tTBW tDRSU tLWADB : datetime)
  (st : Placement) : Placement :=
  match fuel with
  | O => st
  | S fuel' =>
      if tTBW <=? limit then
        if tTBW >? tTBWLast st + hours 4 then
          let st := mkPlacement
                      (atCommands st ++ [(tTBW, acquireHealthCheckAndProcess)])
                      tTBW (tDRSULast st) (tLWADBLast st) in
          maintenance_loop fuel' limit (tTBW + minutes 15) (tDRSU + minutes 15)
                           (tLWADB + minutes 15) st
        else if tDRSU >? tDRSULast st + hours 6 then
          let cmds := atCommands st ++ [(tDRSU, selectBestDRSU)] in
          let tDRSU := tDRSU + minutes 2 in
          let cmds := cmds ++ [(tDRSU, postDRSUStatus)] in
          let st := mkPlacement cmds (tTBWLast st) tDRSU (tLWADBLast st) in
          maintenance_loop fuel' limit (tTBW + minutes 15) (tDRSU + minutes 15)
                           (tLWADB + minutes 15) st
        else if tLWADB >? tLWADBLast st + hours 4 then
          let st :=
            if hour tLWADB >=? 8 then
              mkPlacement (atCommands st ++ [(tLWADB, scanDRSUs)])
                          (tTBWLast st) (tDRSULast st) (tLWADB + hours 24)
            else st in
          maintenance_loop fuel' limit (tTBW + minutes 15) (tDRSU + minutes 15)
                           (tLWADB + minutes 15) st
        else
          maintenance_loop fuel' limit (tTBW + minutes 15) (tDRSU + minutes 15)
                           (tLWADB + minutes 15) st
      else st
  end.

Definition maintenance_fuel (limit tTBW : datetime) : nat :=
  Z.to_nat ((limit - tTBW) / minutes 15 + 1).

(** [max([...])], a ValueError on the empty list *)
Definition max_list (l : list Z) : result Z :=
  match l with
  | [] => Raise ValueError
  | x :: l' => Ok (fold_left Z.max l' x)
  end.

(** One turn of [for i,freeWindow in enumerate(freeWindows)]; [n] is
    [len(freeWindows)]. *)
Definition place_window (start : datetime) (run : list Scheduled) (n i : nat)
  (freeWindow : window) (st : Placement) : result Placement :=
  let length := snd freeWindow - fst freeWindow in
  if length >=? minutes 45 then
    (* Default TBN frequency, TBW health checks, and DRSU scans *)
    let st :=
      if (Nat.eqb i 0) || (Z.abs (fst freeWindow - start) >=? minutes 3)
      then mkPlacement (atCommands st ++ [(fst freeWindow, startTBN_split)])
                       (tTBWLast st) (tDRSULast st) (tLWADBLast st)
      else st in
    let tTBW := replace_second0 (fst freeWindow + minutes 4) in
    let tDRSU := replace_second0 (fst freeWindow + minutes 4) in
    let tLWADB := replace_second0 (fst freeWindow + minutes 4) in
    let limit := snd freeWindow - minutes 6 in
    Ok (maintenance_loop (maintenance_fuel limit tTBW) limit tTBW tDRSU tLWADB st)
  else if length >=? minutes 15 then
    (* TBW health checks and DRSU scans *)
    let tTBW := replace_second0 (fst freeWindow + minutes 4) in
    let tDRSU := replace_second0 (fst freeWindow + minutes 4) in
    if tTBW >? tTBWLast st + hours 4 then
      Ok (mkPlacement (atCommands st ++ [(tTBW, acquireHealthCheckAndProcess)])
                      tTBW (tDRSULast st) (tLWADBLast st))
    else if tDRSU >? tDRSULast st + hours 6 then
      let cmds := atCommands st ++ [(tDRSU, selectBestDRSU)] in
      let tDRSU := tDRSU + minutes 2 in
      let cmds := cmds ++ [(tDRSU, postDRSUStatus)] in
      Ok (mkPlacement cmds (tTBWLast st) tDRSU (tLWADBLast st))
    else Ok st
  else if length >=? minutes 6 then
    (* DRSU scans *)
    let tDRSU := replace_second0 (fst freeWindow + minutes 2) in
    if tDRSU >? tDRSULast st + hours 6 then
      let cmds := atCommands st ++ [(tDRSU, selectBestDRSU)] in
      let tDRSU := tDRSU + minutes 2 in
      let cmds := cmds ++ [(tDRSU, postDRSUStatus)] in
      Ok (mkPlacement cmds (tTBWLast st) tDRSU (tLWADBLast st))
    else Ok st
  else
    (* TBN start if it is the end of the session *)
    if Nat.eqb i (n - 1) then
      last_stop <- max_list (map (fun b => snd (final b)) run) ;;
      if fst freeWindow >? last_stop
      then Ok (mkPlacement (atCommands st ++ [(fst freeWindow, startTBN_split)])
                           (tTBWLast st) (tDRSULast st) (tLWADBLast st))
      else Ok st
    else Ok st.

Fixpoint place_windows (start : datetime) (run : list Scheduled) (n i : nat)
  (freeWindows : list window) (st : Placement) : result Placement :=
  match freeWindows with
  | [] => Ok st
  | freeWindow :: rest =>
      st' <- place_window start run n i freeWindow st ;;
      place_windows start run n (S i) rest st'
  end.

(** Lines 436-513: the list [atCommands]. *)
Definition place (orig_start start : datetime) (run : list Scheduled)
  (busyWindows freeWindows : list window) : result (list (datetime * Command)) :=
  let st := mkPlacement (ini_commands busyWindows)
                        (orig_start - hours 12) (orig_start - hours 12)
                        (orig_start - hours 12) in
  st' <- place_windows start run (List.length freeWindows) 0 freeWindows st ;;
  Ok (atCommands st').

(** ** The run: files, collaborators and [main] *)

(** The name of an SDF file: project LK009, date and time of [bdy_start],
    session id and beam. *)
Record SdfName := mkSdfName {
  sdf_start : datetime;
  sdf_session : Z;
  sdf_beam : Z
}.

(** A line of the timeline written to [runtime.log]. *)
Inductive LogInfo :=
| CommandInfo (cmd : Command) (id : Z)
| StartsInfo (who : string) (b0 b1 : Z)
| StopsInfo (who : string) (b0 b1 : Z).

Record LogEntry := mkLogEntry {
  log_start : datetime;
  log_stop : datetime;
  log_timeline : list (datetime * LogInfo)
}.

Record Catalog := mkCatalog {
  updated : datetime;
  entries : list Pulsar
}.

(** What the script reads and writes outside itself. *)
Record World := mkWorld {
  state_file : option Z;               (* [state]: the next session id *)
  catalog_file : Catalog;              (* LK009_Pulsars.txt *)
  catalog_old : option Catalog;        (* LK009_Pulsars.txt.old *)
  sdf_dirs : list Z;                   (* /home/op1/MCS/tp/<yymmdd>/ *)
  sdf_files : list (SdfName * string);
  at_queue : list (datetime * Command);
  runtime_log : list LogEntry
}.

(** lsl and lwa_mcs, and the clock.  [info_le] is the order of Python on the
    formatted timeline strings. *)
Class Facility := {
  get_available_space : Z;
  render : Scheduled -> nat -> Z -> Z -> string;
  schedule_sdfs : list SdfName -> bool;
  schedule_at_command : datetime -> Command -> Z;
  utcnow : datetime;
  info_le : LogInfo -> LogInfo -> bool
}.

Record Args := mkArgs {
  arg_start : datetime;    (* start_date start_time *)
  arg_stop : datetime;     (* stop_date stop_time *)
  dry_run : bool
}.

(** A computation on the world ends by returning, by [sys.exit] or by an
    uncaught exception; the world it leaves is kept in each case. *)
Inductive outcome (A : Type) : Type :=
| Ret (a : A)
| Exit (status : Z)
| Exc (e : exn).
Arguments Ret {A} a.
Arguments Exit {A} status.
Arguments Exc {A} e.

Definition M (A : Type) : Type := World -> outcome A * World.

Definition ret {A} (a : A) : M A := fun w => (Ret a, w).

Definition mbind {A B} (c : M A) (k : A -> M B) : M B :=
  fun w =>
    match c w with
    | (Ret a, w') => k a w'
    | (Exit s, w') => (Exit s, w')
    | (Exc e, w') => (Exc e, w')
    end.

Notation "x <~ c ;; k" := (mbind c (fun x => k))
  (at level 61, c at next level, right associativity).
Notation "c ;;; k" := (mbind c (fun _ => k))
  (at level 61, right associativity).

Definition lift {A} (r : result A) : M A :=
  fun w => match r with Ok a => (Ret a, w) | Raise e => (Exc e, w) end.

Definition sys_exit {A} (status : Z) : M A := fun w => (Exit status, w).

Definition when (c : bool) (m : M unit) : M unit := if c then m else ret tt.

Definition read_catalog : M (list Pulsar) :=
  fun w => (Ret (entries (catalog_file w)), w).

Definition read_state : M Z :=
  fun w => (Ret (match state_file w with Some n => n | None => 1 end), w).

Definition write_state (session_id : Z) : M unit :=
  fun w => (Ret tt, mkWorld (Some session_id) (catalog_file w) (catalog_old w)
                            (sdf_dirs w) (sdf_files w) (at_queue w) (runtime_log w)).

Definition make_sdf_dir (d : Z) : M unit :=
  fun w => (Ret tt,
            if existsb (Z.eqb d) (sdf_dirs w) then w
            else mkWorld (state_file w) (catalog_file w) (catalog_old w)
                         (sdf_dirs w ++ [d]) (sdf_files w) (at_queue w)
                         (runtime_log w)).

Definition write_sdf (filename : SdfName) (sdf : string) : M unit :=
  fun w => (Ret tt, mkWorld (state_file w) (catalog_file w) (catalog_old w)
                            (sdf_dirs w) (sdf_files w ++ [(filename, sdf)])
                            (at_queue w) (runtime_log w)).

Definition backup_catalog : M unit :=
  fun w => (Ret tt, mkWorld (state_file w) (catalog_file w) (Some (catalog_file w))
                            (sdf_dirs w) (sdf_files w) (at_queue w) (runtime_log w)).

(** [fh = open(_CATALOG_FILENAME, 'w')] and the header with its date: the
    file is cut to the header and holds no entry. *)
Definition open_catalog (now : datetime) : M unit :=
  fun w => (Ret tt, mkWorld (state_file w) (mkCatalog now []) (catalog_old w)
                            (sdf_dirs w) (sdf_files w) (at_queue w) (runtime_log w)).

(** [Pulsar.to_file] (lines 73-80).  Its first statement tests
    [isinstance(fh, file)]; [file] is a built-in of Python 2 only, and the
    scripts run under Python 3, which their first lines name, so looking the
    name up raises NameError before anything is written. *)
Definition to_file (b : Pulsar) : M unit := fun w => (Exc NameError, w).

(** [for bdy in bdys: bdy.to_file(fh)] *)
Fixpoint to_file_each (bdys : list Pulsar) : M unit :=
  match bdys with
  | [] => ret tt
  | b :: bdys' => to_file b ;;; to_file_each bdys'
  end.

(** The catalog written anew: the header, then [to_file] on every entry.  The
    exception that leaves the loop leaves the file as it is by then. *)
Definition write_catalog (c : Catalog) : M unit :=
  open_catalog (updated c) ;;; to_file_each (entries c).

Definition append_log (e : LogEntry) : M unit :=
  fun w => (Ret tt, mkWorld (state_file w) (catalog_file w) (catalog_old w)
                            (sdf_dirs w) (sdf_files w) (at_queue w)
                            (runtime_log w ++ [e])).

Section Main.
Context {E : Ephem} {F : Facility}.

Definition at_command (cmd : datetime * Command) : M Z :=
  fun w => (Ret (schedule_at_command (fst cmd) (snd cmd)),
            mkWorld (state_file w) (catalog_file w) (catalog_old w)
                    (sdf_dirs w) (sdf_files w) (at_queue w ++ [cmd])
                    (runtime_log w)).

(** Lines 351-384, for one target: render and write one SDF per beam. *)
Fixpoint build_beams (args : Args) (s : Scheduled) (b : nat) (bs : list Z)
  (acc : Z * list Z * list SdfName) : M (Z * list Z * list SdfName) :=
  match bs with
  | [] => ret acc
  | beam :: bs' =>
      let '(session_id, fileids, filenames) := acc in
      let sdf := render s b beam session_id in
      acc' <~ (if negb (dry_run args) then
                 let filename := mkSdfName (fst (final s)) session_id beam in
                 write_sdf filename sdf ;;;
                 ret (fileids ++ [session_id], filenames ++ [filename])
               else ret (fileids, filenames)) ;;
      build_beams args s (S b) bs' (session_id + 1, fst acc', snd acc')
  end.

Fixpoint build_observations (args : Args) (run : list Scheduled)
  (acc : Z * list Z * list SdfName) : M (Z * list Z * list SdfName) :=
  match run with
  | [] => ret acc
  | s :: run' =>
      acc' <~ build_beams args s 0 (beams s) acc ;;
      build_observations args run' acc'
  end.

(** Lines 407-412, for one observed target: its own [last_mjd], and that of
    the opportunistic targets within its beam. *)
Definition mark_observed (start stop : datetime) (bdys : list Pulsar)
  (s : Scheduled) : result (list Pulsar) :=
  ss <- get_start_stop (bdy s) start stop true ;;
  let mjd := fst (dt2mjd (fst ss)) in
  let bdys :=
    map (fun o => if Nat.eqb (oid o) (oid (bdy s)) then set_last_mjd o mjd else o)
        bdys in
  Ok (map (fun opt =>
             if (cadence opt <=? 0) && within_beam (bdy s) opt
             then set_last_mjd opt mjd else opt) bdys).

Fixpoint mark_all (start stop : datetime) (bdys : list Pulsar)
  (run : list Scheduled) : result (list Pulsar) :=
  match run with
  | [] => Ok bdys
  | s :: run' =>
      bdys' <- mark_observed start stop bdys s ;;
      mark_all start stop bdys' run'
  end.

(** Lines 399-433: what follows a successful submission. *)
Definition post_submission (start stop : datetime) (session_id : Z)
  (bdys : list Pulsar) (run : list Scheduled) : M unit :=
  (* Write out new session id *)
  write_state session_id ;;;
  (* Update list to get it ready to write back out *)
  bdys' <~ lift (mark_all start stop bdys run) ;;
  (* Backup the catalog and write out the new version *)
  backup_catalog ;;;
  write_catalog (mkCatalog utcnow bdys').

(** Lines 515-522 *)
Fixpoint implement (args : Args) (cmds : list (datetime * Command))
  : M (list Z) :=
  match cmds with
  | [] => ret []
  | cmd :: cmds' =>
      atID <~ (if negb (dry_run args) then at_command cmd else ret (-1)) ;;
      atIDs <~ implement args cmds' ;;
      ret (atID :: atIDs)
  end.

(** Lines 526-537: the timeline, sorted on time, then text. *)
Definition timeline_le (x y : datetime * LogInfo) : bool :=
  (fst x <? fst y) || ((fst x =? fst y) && info_le (snd x) (snd y)).

Definition report (cmds : list (datetime * Command)) (atIDs : list Z)
  (run : list Scheduled) : list (datetime * LogInfo) :=
  let rpt := map (fun ci => (fst (fst ci), CommandInfo (snd (fst ci)) (snd ci)))
                 (combine cmds atIDs) in
  let rpt := rpt ++ flat_map (fun s =>
               [(fst (final s),
                 StartsInfo (name (bdy s)) (nth 0 (beams s) 0) (nth 1 (beams s) 0));
                (snd (final s),
                 StopsInfo (name (bdy s)) (nth 0 (beams s) 0) (nth 1 (beams s) 0))])
               run in
  sorted timeline_le rpt.

(** What lines 189-384 of [main] hand to the submission. *)
Record Plan := mkPlan {
  plan_start : datetime;               (* [start], 25 minutes after [orig_start] *)
  plan_bdys : list Pulsar;             (* [bdys], sorted *)
  plan_run : list Scheduled;           (* [bdys_run], with beams *)
  plan_free : list window;             (* [freeWindows] *)
  plan_busy : list window;             (* [busyWindows] *)
  plan_session_id : Z;                 (* [session_id] after the SDFs *)
  plan_filenames : list SdfName        (* [filenames] *)
}.

(** Lines 189-384: schedule, then render and write the SDFs. *)
Definition plan_and_build (args : Args) : M Plan :=
  (* Get the start and stop times for the window that we are scheduling *)
  let start := arg_start args in
  let stop := arg_stop args in
  (* Get how much recording we can actually do given the available space *)
  let rec_secs_possible := get_available_space in
  (* Adjust the start/stop times to allow for an INI *)
  let start := start + minutes 25 in
  (* Load in the target list, sort by "observability rank" *)
  bdys <~ read_catalog ;;
  let bdys := sort_bdys start bdys in
  (* Come up a list of objects to observe *)
  adm <~ lift (admit_loop start stop (mkAdmission [] rec_secs_possible 0) bdys) ;;
  (* Assign each observation set to beams *)
  let run := snd (assign_beams (sort_run (bdys_run adm))) in
  (* Identify free periods for maintenance scheduling, and busy times *)
  let freeWindows := free_windows (free_times run start stop) in
  let busyWindows := busy_windows run in
  (* Load in the next session ID *)
  session_id <~ read_state ;;
  (* Make sure we have a place to put the SDFs *)
  when (negb (dry_run args)) (make_sdf_dir (fst (dt2mjd start))) ;;;
  (* Build the observations *)
  built <~ build_observations args run (session_id, [], []) ;;
  let '(session_id, fileids, filenames) := built in
  ret (mkPlan start bdys run freeWindows busyWindows session_id filenames).

(** Lines 386-545: submit the SDFs, commit the new state and catalog,
    schedule the other commands and log. *)
Definition submit_and_commit (args : Args) (p : Plan) : M unit :=
  let orig_start := arg_start args in
  let orig_stop := arg_stop args in
  let start := plan_start p in
  let stop := arg_stop args in
  (* Submit the SDFs *)
  when (negb (dry_run args) && negb (Nat.eqb (List.length (plan_filenames p)) 0))
       (let success := schedule_sdfs (plan_filenames p) in
        if negb success then sys_exit 1 else ret tt) ;;;
  when (negb (dry_run args))
       (post_submission start stop (plan_session_id p) (plan_bdys p) (plan_run p)) ;;;
  (* Build up the commands *)
  cmds <~ lift (place orig_start start (plan_run p) (plan_busy p) (plan_free p)) ;;
  (* Implement the commands *)
  atIDs <~ implement args cmds ;;
  when (negb (dry_run args))
       (append_log (mkLogEntry orig_start orig_stop
                               (report cmds atIDs (plan_run p)))).

Definition main (args : Args) : M unit :=
  p <~ plan_and_build args ;;
  submit_and_commit args p.

End Main.

(** ** Notions the properties are stated with *)

(** An interval with 5 seconds added on each side: what [get_start_stop]
    adds for [padding=True], half of [_padding] per side. *)
Definition padded (w : window) : window := (fst w - seconds 5, snd w + seconds 5).

(** Two closed intervals share an instant. *)
Definition overlap (a b : window) : Prop :=
  exists t, (fst a <= t <= snd a) /\ (fst b <= t <= snd b).

(** Neither closed interval reaches the other. *)
Definition apart (a b : window) : Prop := snd a < fst b \/ snd b < fst a.

(** Every target of [run] carries in [final] what [get_start_stop] returns
    for it without padding in the window [start], [stop]. *)
Definition consistent {E : Ephem} (start stop : datetime) (run : list Scheduled)
  : Prop :=
  Forall (fun s => get_start_stop (bdy s) start stop false = Ok (final s)) run.

(** The candidate [b] gets past the budget, cadence and visibility tests of
    the loop in the state [st]. *)
Definition passes_steps_1_3 {E : Ephem} (start stop : datetime) (st : Admission)
  (b : Pulsar) : Prop :=
  duration b < rec_secs_possible st
  /\ should_run b start stop = true
  /\ can_run b start stop = true.

(** The loop leaves the state as it was: the candidate is not admitted. *)
Definition rejected {E : Ephem} (start stop : datetime) (st : Admission)
  (b : Pulsar) : Prop :=
  admit_step start stop st b = Ok st.

(** The conflict rule read on the unpadded intervals, and on the padded ones. *)
Definition conflict_rule_unpadded {E : Ephem} (start stop : datetime)
  (st : Admission) (b : Pulsar) : Prop :=
  forall fin, get_start_stop b start stop false = Ok fin ->
    (rejected start stop st b
     <-> exists prv, In prv (bdys_run st) /\ overlap fin (final prv)).

Definition conflict_rule_padded {E : Ephem} (start stop : datetime)
  (st : Admission) (b : Pulsar) : Prop :=
  forall css, get_start_stop b start stop true = Ok css ->
    (rejected start stop st b
     <-> exists prv, In prv (bdys_run st) /\ overlap css (padded (final prv))).

(** [load[b]], and the strict order of the balancer on the beams: lower load
    first, lower identifier first at equal load. *)
Fixpoint load_get (load : load_t) (b : Z) : Z :=
  match load with
  | [] => 0
  | (k, v) :: load' => if k =? b then v else load_get load' b
  end.

Definition ranks_before (load : load_t) (b b' : Z) : Prop :=
  load_get load b < load_get load b'
  \/ (load_get load b = load_get load b' /\ b < b').

(** [b0] and [b1], in ascending order, are the two beams of 2, 3, 4 that rank
    before the third. *)
Definition two_least_loaded (load : load_t) (b0 b1 : Z) : Prop :=
  b0 < b1 /\ In b0 [2; 3; 4] /\ In b1 [2; 3; 4]
  /\ forall b2, In b2 [2; 3; 4] -> b2 <> b0 -> b2 <> b1 ->
       ranks_before load b0 b2 /\ ranks_before load b1 b2.

Definition max_load (load : load_t) : Z :=
  match map snd load with
  | [] => 0
  | v :: vs => fold_left Z.max vs v
  end.

Definition min_load (load : load_t) : Z :=
  match map snd load with
  | [] => 0
  | v :: vs => fold_left Z.min vs v
  end.

(** The exact value of a float, in units of 2^-64 seconds: [None] for the
    infinities, NaN and what is finer than the unit.  A float is plain when it
    has such a value and is not negative. *)
Definition unit_exp : Z := 64.

Definition exact (x : float) : option Z :=
  match Prim2SF x with
  | S754_zero _ => Some 0
  | S754_finite s m e =>
      if 0 <=? e + unit_exp
      then Some ((if s then -1 else 1) * Zpos m * 2 ^ (e + unit_exp))
      else None
  | _ => None
  end.

Definition value (x : float) : Z :=
  match exact x with Some v => v | None => 0 end.

Definition plain (x : float) : bool :=
  match exact x with Some v => 0 <=? v | None => false end.

Definition exact_loads (load : float_load_t) : load_t :=
  map (fun kv => (fst kv, value (snd kv))) load.

(** The largest of the durations, as exact values; 0 for none. *)
Definition largest_value (durations : list float) : Z :=
  fold_left (fun m d => Z.max m (value d)) durations 0.

(** The sum [l + d] of binary64 is the exact sum: nothing is rounded away. *)
Definition adds_exactly (l d : float) : bool :=
  plain (l + d)%float && (value (l + d)%float =? value l + value d).

(** No duration is negative, infinite or NaN, and none of the additions the
    loop makes from [load] on is rounded. *)
Fixpoint no_rounding_from (load : float_load_t) (durations : list float)
  : bool :=
  match durations with
  | [] => true
  | d :: durations' =>
      plain d
      && match float_ranked_beams load with
         | b0 :: b1 :: _ =>
             adds_exactly (float_load_get load b0) d
             && adds_exactly (float_load_get load b1) d
         | _ => true
         end
      && no_rounding_from (float_assign_step load d) durations'
  end.

Definition no_rounding (durations : list float) : bool :=
  no_rounding_from float_load_init durations.

(** The records of [atCommands] that carry the TBW health check, the first of
    the three maintenance kinds the loop tries. *)
Definition health_checks (cmds : list (datetime * Command))
  : list (datetime * Command) :=
  filter (fun c => Command_eqb (snd c) acquireHealthCheckAndProcess) cmds.

(** The records of [cmds] whose time lies in the window, its ends included. *)
Definition within (w : window) (cmds : list (datetime * Command))
  : list (datetime * Command) :=
  filter (fun c => (fst w <=? fst c) && (fst c <=? snd w)) cmds.

(** An instant of a window, half-open as windows are. *)
Definition inside (w : window) (t : datetime) : Prop := fst w <= t < snd w.

(** No instant lies in both a free window and a busy window. *)
Definition free_busy_disjoint (run : list Scheduled) (start stop : datetime)
  : Prop :=
  forall fw bw t,
    In fw (free_windows (free_times run start stop)) ->
    In bw (busy_windows run) ->
    ~ (inside fw t /\ inside bw t).

(** The finalized interval of a target with the guard of 20 minutes of the
    free-time sampling on each side. *)
Definition guarded (s : Scheduled) : window :=
  (fst (final s) - minutes 20, snd (final s) + minutes 20).

(** An instant of a busy window lies in the finalized interval of a target,
    or in a gap of at most 45 minutes between the stop of one target and the
    start of another. *)
Definition covered (run : list Scheduled) (t : datetime) : Prop :=
  (exists x, In x run /\ fst (final x) <= t <= snd (final x))
  \/ (exists x y, In x run /\ In y run
                  /\ snd (final x) <= t <= fst (final y)
                  /\ fst (final y) - snd (final x) <= minutes 45).

(** What the busy merge keeps true of the windows closed so far and of the
    one being grown. *)
Definition busy_invariant (run : list Scheduled) (st : list window * window)
  : Prop :=
  Forall (fun w => forall t, fst w <= t <= snd w -> covered run t) (fst st)
  /\ (forall t, fst (snd st) <= t <= snd (snd st) -> covered run t)
  /\ exists x, In x run /\ snd (snd st) = snd (final x).

(** What a run must leave as it found it when the submission fails: the
    session-id state, the catalog and its backup, the queue of at-commands
    and the log. *)
Definition untouched (w w1 : World) : Prop :=
  state_file w1 = state_file w
  /\ catalog_file w1 = catalog_file w
  /\ catalog_old w1 = catalog_old w
  /\ at_queue w1 = at_queue w
  /\ runtime_log w1 = runtime_log w.

(** A computation that leaves all of that untouched, however it ends. *)
Definition frames {A} (m : M A) : Prop := forall w, untouched w (snd (m w)).

(** ** Concrete collaborators, for the examples *)

(** An ephemeris that reads the transit of each catalog object off a table;
    an object missing from the table is never up. *)
Fixpoint table_lookup (tbl : list (nat * datetime)) (k : nat) : option datetime :=
  match tbl with
  | [] => None
  | (k', t) :: tbl' => if Nat.eqb k' k then Some t else table_lookup tbl' k
  end.

Definition table_ephem (tbl : list (nat * datetime)) : Ephem :=
  {| next_transit := fun _ p => table_lookup tbl (oid p);
     separation_le := fun _ _ => false |}.

(** A facility with [space] microseconds of recording left, whose submission
    answers [ok]. *)
Definition test_facility (space : Z) (ok : bool) : Facility :=
  {| get_available_space := space;
     render := fun _ _ _ _ => EmptyString;
     schedule_sdfs := fun _ => ok;
     schedule_at_command := fun _ _ => 7;
     utcnow := 0;
     info_le := fun _ _ => true |}.

(** MJD 60000, 00:00:00 UTC *)
Definition day0 : datetime := days 60000.

Definition psr (k : nat) (d c m : Z) : Pulsar :=
  mkPulsar k EmptyString EmptyString EmptyString d c m.

(** Two one-hour targets, both due, in a window of ten hours from [day0]
    with ten hours of recording left.  In [near_ephem] the second transits
    one hour and five seconds after the first, so that five seconds separate
    the two observations; in [gap_ephem] 45 minutes separate them. *)
Definition psr_A : Pulsar := psr 0 (hours 1) 1 59990.
Definition psr_B : Pulsar := psr 1 (hours 1) 1 59991.
Definition near_ephem : Ephem :=
  table_ephem [(0%nat, day0 + hours 2); (1%nat, day0 + hours 3 + seconds 5)].
Definition gap_ephem : Ephem :=
  table_ephem [(0%nat, day0 + hours 2); (1%nat, day0 + hours 3 + minutes 45)].
Definition win_start : datetime := day0 + minutes 25.
Definition win_stop : datetime := day0 + hours 10.

(** The state of the loop once [psr_A] is admitted. *)
Definition after_A : Admission :=
  mkAdmission [mkScheduled psr_A (day0 + minutes 90, day0 + minutes 150) []]
              (hours 9) (hours 1).

(** What the loop admits of [psr_A] and [psr_B] under [gap_ephem]. *)
Definition sched_A : Scheduled :=
  mkScheduled psr_A (day0 + minutes 90, day0 + minutes 150) [].
Definition sched_B : Scheduled :=
  mkScheduled psr_B (day0 + minutes 195, day0 + minutes 255) [].

(** An opportunistic target, and one observed the day before the window. *)
Definition psr_C : Pulsar := psr 2 (hours 1) 0 59990.
Definition psr_D : Pulsar := psr 3 (hours 1) 2 59999.

(** The two targets under [gap_ephem] once the beams are assigned, and the
    free window that falls between their guards. *)
Definition gap_run : list Scheduled :=
  [mkScheduled psr_A (day0 + minutes 90, day0 + minutes 150) [2; 3];
   mkScheduled psr_B (day0 + minutes 195, day0 + minutes 255) [2; 4]].
Definition gap_free : window := (day0 + minutes 171, day0 + minutes 173).
Definition gap_busy : window := (day0 + minutes 90, day0 + minutes 255).

(** The run on the two-target catalog, with nothing on disk yet. *)
Definition args0 : Args := mkArgs day0 win_stop false.
Definition world0 : World :=
  mkWorld None (mkCatalog 0 [psr_A; psr_B]) None [] [] [] [].

(** ** Notions for the properties of the rest of the run *)

(** [l1] is [l2] with some elements left out, the order kept. *)
Inductive subseq {A : Type} : list A -> list A -> Prop :=
| subseq_nil : subseq [] []
| subseq_skip x l1 l2 : subseq l1 l2 -> subseq l1 (x :: l2)
| subseq_take x l1 l2 : subseq l1 l2 -> subseq (x :: l1) (x :: l2).

(** A target whose transit has 900 ms past the second. *)
Definition late_ephem : Ephem :=
  table_ephem [(0%nat, day0 + hours 2 + 900000)].

(** Two windows in order with more than [gap] between them, and a window
    that holds the finalized interval of a target. *)
Definition separated (gap : timedelta) (w w' : window) : Prop :=
  snd w + gap < fst w'.

Definition holds (w : window) (s : Scheduled) : Prop :=
  fst w <= fst (final s) /\ snd (final s) <= snd w.

(** Some window of the busy merge, closed or still grown, holds the target. *)
Definition held_by (st : list window * window) (s : Scheduled) : Prop :=
  exists w, In w (fst st ++ [snd st]) /\ holds w s.

(** The records of [atCommands] for one command, and a list of records in
    order of time with more than [gap] between one and the next. *)
Definition commands_of (k : Command) (cmds : list (datetime * Command))
  : list (datetime * Command) :=
  filter (fun c => Command_eqb (snd c) k) cmds.

Definition spaced (gap : timedelta) (cmds : list (datetime * Command)) : Prop :=
  StronglySorted (fun a b => fst a + gap < fst b) cmds.

(** What the placement keeps true of the commands it has emitted and of the
    three times it remembers. *)
Record cooldowns (st : Placement) : Prop := mkCooldowns {
  health_spaced :
    spaced (hours 4) (commands_of acquireHealthCheckAndProcess (atCommands st));
  health_last :
    Forall (fun c => fst c <= tTBWLast st)
           (commands_of acquireHealthCheckAndProcess (atCommands st));
  select_spaced :
    spaced (hours 6 + minutes 2) (commands_of selectBestDRSU (atCommands st));
  select_last :
    Forall (fun c => fst c + minutes 2 <= tDRSULast st)
           (commands_of selectBestDRSU (atCommands st));
  select_post :
    map (fun c => fst c + minutes 2) (commands_of selectBestDRSU (atCommands st))
    = map fst (commands_of postDRSUStatus (atCommands st));
  scan_spaced :
    spaced (hours 28) (commands_of scanDRSUs (atCommands st));
  scan_last :
    Forall (fun c => fst c + hours 24 <= tLWADBLast st)
           (commands_of scanDRSUs (atCommands st));
  scan_hour :
    Forall (fun c => 8 <= hour (fst c)) (commands_of scanDRSUs (atCommands st))
}.

(** A computation that leaves the whole world as it found it and never
    exits. *)
Definition quiet {A} (m : M A) : Prop :=
  forall w, snd (m w) = w /\ forall status, fst (m w) <> Exit status.

(** A dry run on the two-target catalog. *)
Definition args_dry : Args := mkArgs day0 win_stop true.

(** The day [mark_observed] writes for a target: the MJD of its padded
    start. *)
Definition observed_mjd {E : Ephem} (start stop : datetime) (s : Scheduled)
  (mjd : Z) : Prop :=
  exists css, get_start_stop (bdy s) start stop true = Ok css
              /\ mjd = fst (dt2mjd (fst css)).

(** Two catalog entries that differ at most in the last-observed day. *)
Definition same_entry (o o' : Pulsar) : Prop :=
  oid o' = oid o /\ name o' = name o /\ _ra o' = _ra o /\ _dec o' = _dec o
  /\ duration o' = duration o /\ cadence o' = cadence o.

(** What the update of lines 407-412 does to one entry, given the targets
    observed. *)
Definition marked {E : Ephem} (start stop : datetime) (run : list Scheduled)
  (o o' : Pulsar) : Prop :=
  same_entry o o'
  /\ (last_mjd o' = last_mjd o
      \/ exists s, In s run /\ observed_mjd start stop s (last_mjd o'))
  /\ (0 < cadence o ->
      (forall s, In s run -> oid (bdy s) <> oid o) ->
      last_mjd o' = last_mjd o)
  /\ (0 < cadence o ->
      (exists s, In s run /\ oid (bdy s) = oid o) ->
      exists s, In s run /\ oid (bdy s) = oid o
                /\ observed_mjd start stop s (last_mjd o')).

(** [n] consecutive session ids from [sid] on. *)
Fixpoint ids_from (sid : Z) (n : nat) : list Z :=
  match n with
  | O => []
  | S n' => sid :: ids_from (sid + 1) n'
  end.

(** The commands of a placement state are the INI commands of the busy
    windows followed by commands that are no INI, and whose TBN starts are at
    the start of one of the free windows. *)
Definition placed_after_ini (busyWindows freeWindows : list window)
  (cmds : list (datetime * Command)) : Prop :=
  exists rest,
    cmds = ini_commands busyWindows ++ rest
    /\ Forall (fun c => snd c <> INIdp
                        /\ (snd c = startTBN_split ->
                            exists w, In w freeWindows /\ fst c = fst w))
              rest.

(** ** The catalog scripts: removePulsar.py, addPulsar.py, resetLastRun.py *)

(** The scripts read the catalog as [runLK009.py] does and write it with the
    same header and the same [to_file], under the same Python 3; [now] is the
    date of the header. *)

(** [raw_input(...)], a built-in of Python 2 only: under Python 3 looking the
    name up raises NameError, before the prompt is formatted and whatever is
    made of the answer. *)
Definition raw_input {A : Type} : M A := fun w => (Exc NameError, w).

Definition raise {A : Type} (e : exn) : M A := fun w => (Exc e, w).

(** The backup list, if it exists *)
Definition read_backup : M (list Pulsar) :=
  fun w => (Ret (match catalog_old w with
                 | Some c => entries c
                 | None => []
                 end), w).

(** [yn.lower() in ('y', 'yea', 'yes')] *)
Definition lower_char (c : Ascii.ascii) : Ascii.ascii :=
  let n := Ascii.nat_of_ascii c in
  if (65 <=? n)%nat && (n <=? 90)%nat then Ascii.ascii_of_nat (n + 32) else c.

Fixpoint lower (s : string) : string :=
  match s with
  | EmptyString => EmptyString
  | String c s' => String (lower_char c) (lower s')
  end.

Definition says_yes (yn : string) : bool :=
  existsb (String.eqb (lower yn)) ["y"%string; "yea"%string; "yes"%string].

(** [for i,bdy in enumerate(bdys): if bdy.name == name: idx = i; break]: the
    index found and the entry at it, [None] for [idx is None]. *)
Fixpoint find_name (nm : string) (bdys : list Pulsar) : option (nat * Pulsar) :=
  match bdys with
  | [] => None
  | b :: bdys' =>
      if String.eqb (name b) nm then Some (O, b)
      else match find_name nm bdys' with
           | Some (i, b') => Some (S i, b')
           | None => None
           end
  end.

(** [del bdys[idx]] and [bdys[idx].last_mjd = mjd], for an index in range *)
Fixpoint delete_at {A : Type} (idx : nat) (l : list A) : list A :=
  match l, idx with
  | [], _ => []
  | _ :: l', O => l'
  | x :: l', S i => x :: delete_at i l'
  end.

Fixpoint set_last_mjd_at (idx : nat) (mjd : Z) (l : list Pulsar) : list Pulsar :=
  match l, idx with
  | [], _ => []
  | x :: l', O => set_last_mjd x mjd :: l'
  | x :: l', S i => x :: set_last_mjd_at i mjd l'
  end.

(** [removePulsar.main]: [nm] is [args.name], [force] is [args.force]. *)
Definition remove_main (nm : string) (force : bool) (now : datetime) : M unit :=
  (* Load in the target list *)
  bdys <~ read_catalog ;;
  (* Find the entry to remove *)
  match find_name nm bdys with
  | None => raise RuntimeError
  | Some (idx, _) =>
      (* Prompt *)
      yn <~ (if force then ret "y"%string else raw_input) ;;
      when (says_yes yn)
           ((* Remove *)
            let bdys := delete_at idx bdys in
            (* Backup the catalog and write out the new version *)
            backup_catalog ;;;
            write_catalog (mkCatalog now bdys))
  end.

(** The options of addPulsar.py; [add_duration] is the duration that
    [from_line] makes of the hours of [--duration]. *)
Record AddArgs := mkAddArgs {
  add_name : option string;
  add_ra : option string;
  add_dec : option string;
  add_duration : option Z;
  add_cadence : option Z;
  add_force : bool
}.

(** [if not args.x: args.x = raw_input(...)]: an option that was not given,
    or whose value is empty or zero, is asked for. *)
Definition or_prompt {A : Type} (falsy : A -> bool) (o : option A) : M A :=
  match o with
  | Some a => if falsy a then raw_input else ret a
  | None => raw_input
  end.

Definition empty_string (s : string) : bool := String.eqb s EmptyString.

(** [addPulsar.main]: [new_oid] is the identity of the new object, [ra_key]
    the angle that ephem makes of [_ra], on which the catalog is sorted.  The
    options given are taken to be well formed, so that [ephem.hours],
    [ephem.degrees] and [from_line] accept them. *)
Definition add_main (ra_key : Pulsar -> Z) (new_oid : nat) (args : AddArgs)
  (now : datetime) : M unit :=
  (* Load in the target list *)
  bdys <~ read_catalog ;;
  (* Prompts *)
  nm <~ or_prompt empty_string (add_name args) ;;
  ra <~ or_prompt empty_string (add_ra args) ;;
  dec <~ or_prompt empty_string (add_dec args) ;;
  dur <~ or_prompt (Z.eqb 0) (add_duration args) ;;
  cad <~ or_prompt (Z.eqb 0) (add_cadence args) ;;
  let new_bdy := mkPulsar new_oid nm ra dec dur cad 0 in
  (* Make sure it isn't already in there *)
  match find_name (name new_bdy) bdys with
  | Some _ => raise RuntimeError
  | None =>
      (* One more prompt *)
      yn <~ (if add_force args then ret "y"%string else raw_input) ;;
      when (says_yes yn)
           ((* Insert *)
            let bdys := sort_key ra_key (bdys ++ [new_bdy]) in
            (* Write out the new version *)
            write_catalog (mkCatalog now bdys))
  end.

(** [resetLastRun.main]: [nm] is [args.name], [mjd] is [args.mjd]. *)
Definition reset_main (nm : string) (mjd : option Z) (now : datetime) : M unit :=
  (* Load in the target list *)
  bdys <~ read_catalog ;;
  (* Load in the backup list, if it exists *)
  old_bdys <~ read_backup ;;
  (* Find the entry to reset in both catalogs *)
  match find_name nm bdys with
  | None => raise RuntimeError
  | Some (idx, cur) =>
      (* Prompt *)
      new_mjd <~ match mjd, find_name nm old_bdys with
                 | None, Some (_, old) =>
                     if last_mjd old <? last_mjd cur then ret (last_mjd old)
                     else raw_input
                 | _, _ => raw_input
                 end ;;
      yn <~ raw_input ;;
      when (says_yes yn)
           ((* Update, and write out the new version *)
            write_catalog (mkCatalog now (set_last_mjd_at idx new_mjd bdys)))
  end.

(** Some option of addPulsar.py is left out, or is empty or zero, so that
    the script asks for it; and all five are given, with these values. *)
Definition asks (args : AddArgs) : bool :=
  match add_name args, add_ra args, add_dec args, add_duration args,
        add_cadence args with
  | Some nm, Some ra, Some dec, Some dur, Some cad =>
      empty_string nm || empty_string ra || empty_string dec
      || (0 =? dur) || (0 =? cad)
  | _, _, _, _, _ => true
  end.

Definition given (args : AddArgs) (nm ra dec : string) (dur cad : Z) : Prop :=
  add_name args = Some nm /\ add_ra args = Some ra /\ add_dec args = Some dec
  /\ add_duration args = Some dur /\ add_cadence args = Some cad
  /\ asks args = false.

(** The world with the catalog cut to its header, and with the catalog as it
    was for backup when [backup] is set. *)
Definition cut_catalog (now : datetime) (backup : bool) (w : World) : World :=
  mkWorld (state_file w) (mkCatalog now [])
          (if backup then Some (catalog_file w) else catalog_old w)
          (sdf_dirs w) (sdf_files w) (at_queue w) (runtime_log w).

(** A catalog of three named entries, for the scripts. *)
Definition named (k : nat) (nm : string) (m : Z) : Pulsar :=
  mkPulsar k nm EmptyString EmptyString (hours 1) 1 m.
Definition world_named : World :=
  mkWorld None
          (mkCatalog 0 [named 0 "B0329+54" 60000; named 1 "B0823+26" 60001;
                        named 2 "B0329+54" 60002])
          (Some (mkCatalog 0 [named 0 "B0329+54" 59990]))
          [] [] [] [].

(** * Properties *)

(** ** Booleans and arithmetic *)

Ltac zbool :=
  repeat rewrite ?Z.geb_leb, ?Z.gtb_ltb in *;
  repeat match goal with
  | H : context [?a <=? ?b] |- _ => destruct (Z.leb_spec a b)
  | H : context [?a <? ?b] |- _ => destruct (Z.ltb_spec a b)
  | H : context [?a =? ?b] |- _ => destruct (Z.eqb_spec a b)
  | |- context [?a <=? ?b] => destruct (Z.leb_spec a b)
  | |- context [?a <? ?b] => destruct (Z.ltb_spec a b)
  | |- context [?a =? ?b] => destruct (Z.eqb_spec a b)
  end;
  simpl in *.

Lemma half_seconds_padding : half_seconds (seconds _padding) = seconds 5.
Proof. reflexivity. Qed.

Lemma half_seconds_nonneg d : 0 <= d -> 0 <= half_seconds d.
Proof.
  intros Hd. unfold half_seconds.
  assert (0 <= d / 2) by (apply Z.div_pos; lia).
  destruct (Z.even d); [assumption|].
  destruct (Z.even (d / 2)); lia.
Qed.

Lemma conflicts_false_apart c p :
  conflicts (padded c) (padded p) = false -> apart c p.
Proof.
  destruct c as [c0 c1], p as [p0 p1].
  unfold conflicts, padded, apart, seconds; simpl.
  intros H; zbool; try discriminate; lia.
Qed.

Lemma conflicts_overlap c p :
  fst c <= snd c -> fst p <= snd p ->
  (conflicts c p = true <-> overlap c p).
Proof.
  destruct c as [c0 c1], p as [p0 p1]; unfold conflicts, overlap; simpl.
  intros Hc Hp; split.
  - intros H.
    destruct (Z_le_gt_dec p0 c0) as [Hle|Hgt].
    + exists c0. zbool; try discriminate; lia.
    + exists p0. zbool; try discriminate; lia.
  - intros [t Ht]. zbool; try reflexivity; lia.
Qed.

(** ** Lists: ordered pairs and the stable sort *)

Section Lists.
Context {A : Type}.

Lemma FOP_snoc (R : A -> A -> Prop) l x :
  ForallOrdPairs R l -> Forall (fun a => R a x) l ->
  ForallOrdPairs R (l ++ [x]).
Proof.
  induction 1 as [|a l Ha Hl IH]; intros Hx; simpl.
  - constructor; constructor.
  - inversion Hx; subst. constructor.
    + apply Forall_app; split; [assumption | constructor; [assumption | constructor]].
    + apply IH; assumption.
Qed.

Lemma FOP_nth (R : A -> A -> Prop) l :
  ForallOrdPairs R l ->
  forall i j a b, (i < j)%nat ->
    nth_error l i = Some a -> nth_error l j = Some b -> R a b.
Proof.
  induction 1 as [|x l Hx Hl IH]; intros i j a b Hij Hi Hj.
  - destruct i; discriminate.
  - destruct j as [|j]; [lia|].
    destruct i as [|i]; simpl in *.
    + inversion Hi; subst.
      rewrite Forall_forall in Hx. apply Hx. eapply nth_error_In; eassumption.
    + eapply IH; [|eassumption|eassumption]. lia.
Qed.

Lemma insert_sorted_perm (le : A -> A -> bool) x l :
  Permutation (x :: l) (insert_sorted le x l).
Proof.
  induction l as [|y l IH]; simpl.
  - apply Permutation_refl.
  - destruct (le x y).
    + apply Permutation_refl.
    + eapply Permutation_trans; [apply perm_swap|].
      apply perm_skip; assumption.
Qed.

Lemma sorted_perm (le : A -> A -> bool) l : Permutation l (sorted le l).
Proof.
  induction l as [|x l IH]; simpl.
  - constructor.
  - eapply Permutation_trans; [apply perm_skip; eassumption|].
    apply insert_sorted_perm.
Qed.

Lemma insert_sorted_key (key : A -> Z) x l :
  StronglySorted (fun a b => key a <= key b) l ->
  StronglySorted (fun a b => key a <= key b)
                 (insert_sorted (fun a b => key a <=? key b) x l).
Proof.
  induction 1 as [|y l Hl IH Hy]; simpl.
  - constructor; constructor.
  - destruct (Z.leb_spec (key x) (key y)) as [Hxy|Hxy].
    + constructor; [constructor; assumption|].
      constructor; [assumption|].
      rewrite Forall_forall in *. intros z Hz. specialize (Hy z Hz). lia.
    + constructor; [assumption|].
      rewrite Forall_forall in *. intros z Hz.
      apply (Permutation_in z (Permutation_sym (insert_sorted_perm _ x l))) in Hz.
      destruct Hz as [->|Hz]; [lia | apply Hy; assumption].
Qed.

Lemma sort_key_sorted (key : A -> Z) l :
  StronglySorted (fun a b => key a <= key b) (sort_key key l).
Proof.
  unfold sort_key. induction l as [|x l IH]; simpl.
  - constructor.
  - apply insert_sorted_key; assumption.
Qed.

End Lists.

(** ** The admission loop *)

Section AdmissionProofs.
Context {E : Ephem}.
Variables start stop : datetime.

Lemma get_start_stop_padded p fin :
  get_start_stop p start stop false = Ok fin ->
  get_start_stop p start stop true = Ok (padded fin).
Proof.
  unfold get_start_stop. rewrite half_seconds_padding.
  destruct (next_transit start p); [|discriminate].
  intros H; inversion H; subst; clear H.
  reflexivity.
Qed.

Lemma get_start_stop_unpadded p css :
  get_start_stop p start stop true = Ok css ->
  exists fin, get_start_stop p start stop false = Ok fin /\ css = padded fin.
Proof.
  unfold get_start_stop. rewrite half_seconds_padding.
  destruct (next_transit start p); [|discriminate].
  intros H; inversion H; subst; clear H.
  eexists; split; reflexivity.
Qed.

Lemma get_start_stop_ordered p fin :
  0 <= duration p ->
  get_start_stop p start stop false = Ok fin -> fst fin <= snd fin.
Proof.
  intros Hd. unfold get_start_stop. destruct (next_transit start p); [|discriminate].
  intros H; inversion H; subst; clear H; simpl.
  pose proof (half_seconds_nonneg _ Hd). lia.
Qed.

Lemma can_run_ok p :
  can_run p start stop = true ->
  exists css, get_start_stop p start stop true = Ok css
              /\ start <= fst css /\ snd css <= stop.
Proof.
  unfold can_run. destruct (get_start_stop p start stop true) as [[a b]|e];
    try discriminate.
  intros H. exists (a, b); split; [reflexivity|]. simpl. zbool; try discriminate; lia.
Qed.

Lemma find_conflict_spec css run :
  consistent start stop run ->
  find_conflict start stop css run
  = Ok (existsb (fun prv => conflicts css (padded (final prv))) run).
Proof.
  induction 1 as [|prv run Hprv Hrun IH]; simpl.
  - reflexivity.
  - rewrite (get_start_stop_padded _ _ Hprv); simpl.
    destruct (conflicts css (padded (final prv))); simpl; [reflexivity | exact IH].
Qed.

(** What one turn of the loop does, in a state whose targets are consistent:
    it leaves the state as it is, for one of four reasons, or it appends the
    candidate. *)
Lemma admit_step_cases st b :
  consistent start stop (bdys_run st) ->
  (admit_step start stop st b = Ok st
   /\ (rec_secs_possible st <= duration b
       \/ should_run b start stop = false
       \/ can_run b start stop = false
       \/ exists fin, get_start_stop b start stop false = Ok fin
            /\ existsb (fun prv => conflicts (padded fin) (padded (final prv)))
                       (bdys_run st) = true))
  \/ (exists fin,
        get_start_stop b start stop false = Ok fin
        /\ duration b < rec_secs_possible st
        /\ should_run b start stop = true
        /\ can_run b start stop = true
        /\ existsb (fun prv => conflicts (padded fin) (padded (final prv)))
                   (bdys_run st) = false
        /\ admit_step start stop st b
           = Ok (mkAdmission (bdys_run st ++ [mkScheduled b fin []])
                             (rec_secs_possible st - duration b)
                             (rec_secs_allocated st + duration b))).
Proof.
  intros Hst. unfold admit_step.
  rewrite Z.geb_leb.
  destruct (Z.leb_spec (rec_secs_possible st) (duration b)) as [Hd|Hd].
  { left; split; [reflexivity | left; assumption]. }
  destruct (should_run b start stop) eqn:Hs; simpl.
  2:{ left; split; [reflexivity | right; left; reflexivity]. }
  destruct (can_run b start stop) eqn:Hc; simpl.
  2:{ left; split; [reflexivity | right; right; left; reflexivity]. }
  destruct (can_run_ok _ Hc) as [css [Hcss _]].
  destruct (get_start_stop_unpadded _ _ Hcss) as [fin [Hfin ->]].
  rewrite Hcss; simpl.
  rewrite (find_conflict_spec _ _ Hst); simpl.
  destruct (existsb _ (bdys_run st)) eqn:Hex.
  - left; split; [reflexivity|]. right; right; right.
    exists fin; split; assumption.
  - right. exists fin. rewrite Hfin; simpl. repeat split; assumption.
Qed.

Lemma admit_step_consistent st b st' :
  consistent start stop (bdys_run st) ->
  admit_step start stop st b = Ok st' ->
  consistent start stop (bdys_run st').
Proof.
  intros Hst Hstep.
  destruct (admit_step_cases st b Hst) as [[Heq _]|[fin [Hfin [_ [_ [_ [_ Heq]]]]]]];
    rewrite Heq in Hstep; inversion Hstep; subst; simpl; [assumption|].
  apply Forall_app; split; [assumption|].
  constructor; [exact Hfin | constructor].
Qed.

(** The loop never raises from a consistent state, and it keeps every
    property of the state that an admission keeps. *)
Lemma admit_loop_invariant (P : Admission -> Prop) bdys :
  (forall st b fin,
      In b bdys -> consistent start stop (bdys_run st) -> P st ->
      get_start_stop b start stop false = Ok fin ->
      duration b < rec_secs_possible st ->
      should_run b start stop = true ->
      can_run b start stop = true ->
      existsb (fun prv => conflicts (padded fin) (padded (final prv)))
              (bdys_run st) = false ->
      P (mkAdmission (bdys_run st ++ [mkScheduled b fin []])
                     (rec_secs_possible st - duration b)
                     (rec_secs_allocated st + duration b))) ->
  forall st, consistent start stop (bdys_run st) -> P st ->
  exists st', admit_loop start stop st bdys = Ok st'
              /\ consistent start stop (bdys_run st') /\ P st'.
Proof.
  induction bdys as [|b bdys IH]; intros Hkeep st Hst HP; simpl.
  - exists st; repeat split; assumption.
  - destruct (admit_step_cases st b Hst)
      as [[Heq _]|[fin [Hfin [Hd [Hs [Hc [Hex Heq]]]]]]]; rewrite Heq; simpl.
    + apply IH; [|assumption|assumption].
      intros; eapply Hkeep; try eassumption. right; assumption.
    + apply IH.
      * intros; eapply Hkeep; try eassumption. right; assumption.
      * eapply admit_step_consistent; eassumption.
      * eapply Hkeep; try eassumption. left; reflexivity.
Qed.

Lemma consistent_nil : consistent start stop [].
Proof. constructor. Qed.

End AdmissionProofs.

(** ** Claims on the admission loop *)

Section AdmissionClaims.
Context {E : Ephem}.
Variables start stop : datetime.

Lemma admit_total rec_secs bdys :
  exists adm, admit_targets start stop rec_secs bdys = Ok adm
              /\ consistent start stop (bdys_run adm).
Proof.
  unfold admit_targets.
  destruct (admit_loop_invariant start stop (fun _ => True)
              (sort_bdys start bdys) (fun _ _ _ _ _ _ _ _ _ _ _ => I)
              (mkAdmission [] rec_secs 0) (consistent_nil start stop) I)
    as [adm [H1 [H2 _]]].
  exists adm; split; assumption.
Qed.

(** What the loop admits comes from the list it is given. *)
Lemma admit_loop_from st bdys st' :
  consistent start stop (bdys_run st) ->
  admit_loop start stop st bdys = Ok st' ->
  consistent start stop (bdys_run st')
  /\ forall s, In s (bdys_run st') -> In s (bdys_run st) \/ In (bdy s) bdys.
Proof.
  intros Hst Hloop.
  destruct (admit_loop_invariant start stop
              (fun x => forall s, In s (bdys_run x) ->
                                  In s (bdys_run st) \/ In (bdy s) bdys) bdys)
    with (st := st) as [st1 [H1 [H2 H3]]].
  - intros x b fin Hb _ HP _ _ _ _ _ s Hs; simpl in Hs.
    apply in_app_or in Hs. destruct Hs as [Hs|[<-|[]]]; [apply HP; assumption|].
    right; exact Hb.
  - assumption.
  - intros s Hs; left; assumption.
  - rewrite H1 in Hloop; inversion Hloop; subst. split; assumption.
Qed.

(** C1: whatever the catalog, the window and the budget, the admission loop
    returns, and the finalized (unpadded) intervals of two distinct admitted
    targets do not overlap, boundaries included: the stop of one is strictly
    before the start of the other. *)
Theorem admitted_finals_do_not_overlap rec_secs bdys :
  exists adm,
    admit_targets start stop rec_secs bdys = Ok adm
    /\ forall i j a b,
         i <> j ->
         nth_error (bdys_run adm) i = Some a ->
         nth_error (bdys_run adm) j = Some b ->
         snd (final a) < fst (final b) \/ snd (final b) < fst (final a).
Proof.
  unfold admit_targets.
  destruct (admit_loop_invariant start stop
              (fun st => ForallOrdPairs
                           (fun a b => apart (final a) (final b)) (bdys_run st))
              (sort_bdys start bdys)) with (st := mkAdmission [] rec_secs 0)
    as [adm [Hadm [_ Hpairs]]].
  - intros st b fin _ _ HP _ _ _ _ Hex; simpl.
    apply FOP_snoc; [exact HP|].
    rewrite Forall_forall; intros prv Hprv; simpl.
    assert (Hc : conflicts (padded fin) (padded (final prv)) = false).
    { destruct (conflicts (padded fin) (padded (final prv))) eqn:Hc; [|reflexivity].
      rewrite <- Hex. symmetry. apply existsb_exists. exists prv; split; assumption. }
    apply conflicts_false_apart in Hc. unfold apart in *; lia.
  - apply consistent_nil.
  - simpl; constructor.
  - exists adm; split; [exact Hadm|].
    intros i j a b Hij Ha Hb.
    destruct (Nat.lt_total i j) as [Hlt|[Heq|Hgt]]; [| contradiction |].
    + exact (FOP_nth _ _ Hpairs i j a b Hlt Ha Hb).
    + pose proof (FOP_nth _ _ Hpairs j i b a Hgt Hb Ha) as H.
      unfold apart in H; lia.
Qed.

Lemma rejected_or_grown st b st' :
  rejected start stop st b ->
  admit_step start stop st b
  = Ok (mkAdmission (bdys_run st ++ [st']) (rec_secs_possible st - duration b)
                    (rec_secs_allocated st + duration b)) ->
  False.
Proof.
  unfold rejected; intros H1 H2. rewrite H1 in H2. inversion H2 as [H3].
  apply (f_equal bdys_run) in H3; simpl in H3.
  apply (f_equal (@List.length _)) in H3. rewrite length_app in H3; simpl in H3. lia.
Qed.

Lemma padded_rule_holds st b :
  consistent start stop (bdys_run st) ->
  0 <= duration b ->
  (forall prv, In prv (bdys_run st) -> 0 <= duration (bdy prv)) ->
  passes_steps_1_3 start stop st b ->
  conflict_rule_padded start stop st b.
Proof.
  intros Hst Hb Hrun [Hd [Hs Hc]] css Hcss.
  destruct (get_start_stop_unpadded _ _ _ _ Hcss) as [fin [Hfin ->]].
  pose proof (get_start_stop_ordered _ _ _ _ Hb Hfin) as Hord.
  assert (Hiff : forall prv, In prv (bdys_run st) ->
            (conflicts (padded fin) (padded (final prv)) = true
             <-> overlap (padded fin) (padded (final prv)))).
  { intros prv Hprv. apply conflicts_overlap.
    - unfold padded, seconds; simpl; lia.
    - pose proof (proj1 (Forall_forall _ _) Hst prv Hprv) as Hp; simpl in Hp.
      pose proof (get_start_stop_ordered _ _ _ _ (Hrun prv Hprv) Hp).
      unfold padded, seconds; simpl; lia. }
  destruct (admit_step_cases start stop st b Hst)
    as [[Heq Hwhy]|[fin' [Hfin' [_ [_ [_ [Hex Heq]]]]]]].
  - split; [intros _ | intros _; exact Heq].
    destruct Hwhy as [H|[H|[H|[fin' [Hfin' Hex]]]]]; try lia; try congruence.
    rewrite Hfin in Hfin'; inversion Hfin'; subst fin'.
    apply existsb_exists in Hex. destruct Hex as [prv [Hprv Hcf]].
    exists prv; split; [assumption | apply Hiff; assumption].
  - rewrite Hfin in Hfin'; inversion Hfin'; subst fin'.
    split.
    + intros Hrej. exfalso. eapply rejected_or_grown; eassumption.
    + intros [prv [Hprv Hov]]. apply Hiff in Hov; [|assumption].
      assert (existsb (fun prv => conflicts (padded fin) (padded (final prv)))
                      (bdys_run st) = true)
        by (apply existsb_exists; exists prv; split; assumption).
      congruence.
Qed.

(** C2, as the code has it: in a state the loop reaches from the empty one,
    with durations that are not negative, a candidate that passes steps 1-3
    is rejected if and only if its padded interval overlaps, boundaries
    included, the padded interval of an admitted target; the padding is
    5 seconds on each side of the finalized interval. *)
Theorem conflict_test_is_on_padded_intervals rec_secs seen st b :
  admit_loop start stop (mkAdmission [] rec_secs 0) seen = Ok st ->
  Forall (fun p => 0 <= duration p) (b :: seen) ->
  passes_steps_1_3 start stop st b ->
  conflict_rule_padded start stop st b.
Proof.
  intros Hloop Hdur Hpass.
  destruct (admit_loop_from (mkAdmission [] rec_secs 0) seen st
              (consistent_nil start stop) Hloop) as [Hst Hfrom].
  inversion Hdur as [|? ? Hb Hseen]; subst.
  apply padded_rule_holds; try assumption.
  intros prv Hprv. destruct (Hfrom prv Hprv) as [[]|Hin].
  rewrite Forall_forall in Hseen. apply Hseen; assumption.
Qed.

End AdmissionClaims.

Section BudgetAndCadence.
Context {E : Ephem}.
Variables start stop : datetime.

Lemma admit_step_result st b st' :
  admit_step start stop st b = Ok st' ->
  st' = st
  \/ (duration b < rec_secs_possible st
      /\ should_run b start stop = true
      /\ exists fin,
           st' = mkAdmission (bdys_run st ++ [mkScheduled b fin []])
                             (rec_secs_possible st - duration b)
                             (rec_secs_allocated st + duration b)).
Proof.
  unfold admit_step. rewrite Z.geb_leb.
  destruct (Z.leb_spec (rec_secs_possible st) (duration b)) as [Hd|Hd].
  { intros H; inversion H; left; reflexivity. }
  destruct (should_run b start stop); simpl.
  2:{ intros H; inversion H; left; reflexivity. }
  destruct (can_run b start stop); simpl.
  2:{ intros H; inversion H; left; reflexivity. }
  destruct (get_start_stop b start stop true) as [css|]; simpl; [|discriminate].
  destruct (find_conflict start stop css (bdys_run st)) as [[|]|]; simpl;
    [| |discriminate].
  { intros H; inversion H; left; reflexivity. }
  destruct (get_start_stop b start stop false) as [fin|]; simpl; [|discriminate].
  intros H; inversion H; right. repeat split; try assumption.
  exists fin; reflexivity.
Qed.

(** C3: a candidate whose duration is greater than or equal to the remaining
    budget is rejected, one equal to it included; an admission takes exactly
    the duration of the admitted target off the budget; and with durations
    that are not negative the budget never grows over the run. *)
Theorem budget_is_strict_and_decreasing :
  (forall st b,
      rec_secs_possible st <= duration b -> admit_step start stop st b = Ok st)
  /\ (forall st b st',
        admit_step start stop st b = Ok st' ->
        st' = st
        \/ (List.length (bdys_run st') = S (List.length (bdys_run st))
            /\ rec_secs_possible st' = rec_secs_possible st - duration b))
  /\ (forall bdys st st',
        Forall (fun p => 0 <= duration p) bdys ->
        admit_loop start stop st bdys = Ok st' ->
        rec_secs_possible st' <= rec_secs_possible st).
Proof.
  split; [|split].
  - intros st b Hd. unfold admit_step. rewrite Z.geb_leb.
    destruct (Z.leb_spec (rec_secs_possible st) (duration b)); [reflexivity | lia].
  - intros st b st' H.
    destruct (admit_step_result _ _ _ H) as [->|[_ [_ [fin ->]]]];
      [left; reflexivity | right]; simpl.
    rewrite length_app; simpl. split; [lia | reflexivity].
  - induction bdys as [|b bdys IH]; intros st st' Hdur Hloop; simpl in Hloop.
    + inversion Hloop; subst; lia.
    + inversion Hdur as [|? ? Hb Hrest]; subst.
      destruct (admit_step start stop st b) as [st1|] eqn:Hstep; simpl in Hloop;
        [|discriminate].
      specialize (IH st1 st' Hrest Hloop).
      destruct (admit_step_result _ _ _ Hstep) as [->|[_ [_ [fin ->]]]];
        simpl in *; lia.
Qed.

Lemma should_run_iff b :
  should_run b start stop = true
  <-> 0 < cadence b /\ last_mjd b + cadence b <= fst (dt2mjd start).
Proof.
  unfold should_run. split.
  - intros H. zbool; try discriminate; lia.
  - intros [H1 H2]. zbool; try reflexivity; lia.
Qed.

Lemma admit_loop_due bdys : forall st st',
  admit_loop start stop st bdys = Ok st' ->
  forall s, In s (bdys_run st') ->
    In s (bdys_run st)
    \/ (In (bdy s) bdys /\ should_run (bdy s) start stop = true).
Proof.
  induction bdys as [|b bdys IH]; intros st st' Hloop s Hs; simpl in Hloop.
  - inversion Hloop; subst; left; assumption.
  - destruct (admit_step start stop st b) as [st1|] eqn:Hstep; simpl in Hloop;
      [|discriminate].
    destruct (IH st1 st' Hloop s Hs) as [H|[H1 H2]].
    + destruct (admit_step_result _ _ _ Hstep) as [->|[_ [Hrun [fin ->]]]].
      * left; assumption.
      * simpl in H. apply in_app_or in H. destruct H as [H|[<-|[]]].
        -- left; assumption.
        -- right; simpl. split; [left; reflexivity | assumption].
    + right; split; [right|]; assumption.
Qed.

(** C4: a target is cadence-due exactly when its cadence is strictly positive
    and the MJD of the window start is at least its last-observed MJD plus its
    cadence; the loop returns, and it admits no target whose cadence is zero
    or negative and none whose last-observed MJD plus cadence lies after the
    MJD of the window start. *)
Theorem only_cadence_due_targets_are_admitted rec_secs bdys :
  (forall b, should_run b start stop = true
             <-> 0 < cadence b /\ last_mjd b + cadence b <= fst (dt2mjd start))
  /\ exists adm,
       admit_targets start stop rec_secs bdys = Ok adm
       /\ forall s, In s (bdys_run adm) ->
            In (bdy s) bdys
            /\ ~ cadence (bdy s) <= 0
            /\ ~ last_mjd (bdy s) + cadence (bdy s) > fst (dt2mjd start).
Proof.
  split; [exact should_run_iff|].
  destruct (admit_total start stop rec_secs bdys) as [adm [Hadm _]].
  exists adm; split; [exact Hadm|].
  intros s Hs. unfold admit_targets in Hadm.
  destruct (admit_loop_due _ _ _ Hadm s Hs) as [[]|[Hin Hdue]].
  apply should_run_iff in Hdue.
  split; [|lia].
  unfold sort_bdys, sort_key in Hin.
  eapply Permutation_in; [apply Permutation_sym, sorted_perm | exact Hin].
Qed.

End BudgetAndCadence.

(** ** The admission claims on the two-target catalog *)

Lemma admitted_finals_do_not_overlap_witness :
  snd (final sched_A) < fst (final sched_B)
  \/ snd (final sched_B) < fst (final sched_A).
Proof.
  destruct (@admitted_finals_do_not_overlap gap_ephem win_start win_stop
              (hours 10) [psr_A; psr_B]) as [adm [Hadm Hpairs]].
  vm_compute in Hadm. inversion Hadm as [Heq]. clear Hadm.
  apply (Hpairs 0%nat 1%nat sched_A sched_B).
  - discriminate.
  - rewrite <- Heq. reflexivity.
  - rewrite <- Heq. reflexivity.
Defined.

(** C2 as it is written fails: with [psr_A] admitted, [psr_B] passes steps
    1-3 and its unpadded interval starts five seconds after that of [psr_A]
    stops, yet it is rejected. *)
Lemma conflict_rule_unpadded_fails :
  @admit_loop near_ephem win_start win_stop (mkAdmission [] (hours 10) 0) [psr_A]
  = Ok after_A
  /\ @passes_steps_1_3 near_ephem win_start win_stop after_A psr_B
  /\ ~ @conflict_rule_unpadded near_ephem win_start win_stop after_A psr_B.
Proof.
  split; [vm_compute; reflexivity|].
  split; [repeat split; vm_compute; reflexivity|].
  intros Hrule.
  destruct (Hrule (day0 + minutes 150 + seconds 5, day0 + minutes 210 + seconds 5))
    as [Hrej _]; [vm_compute; reflexivity|].
  destruct Hrej as [prv [Hprv [t [Ht1 Ht2]]]]; [vm_compute; reflexivity|].
  destruct Hprv as [<-|[]].
  simpl in Ht1, Ht2.
  unfold day0, days, minutes, seconds in Ht1, Ht2. lia.
Qed.

Lemma conflict_test_is_on_padded_intervals_witness :
  @conflict_rule_padded near_ephem win_start win_stop after_A psr_B.
Proof.
  apply (@conflict_test_is_on_padded_intervals near_ephem win_start win_stop
           (hours 10) [psr_A] after_A psr_B).
  - vm_compute; reflexivity.
  - repeat constructor; vm_compute; discriminate.
  - repeat split; vm_compute; reflexivity.
Defined.

Lemma budget_is_strict_and_decreasing_witness :
  @admit_step near_ephem win_start win_stop after_A (psr 4 (hours 9) 1 59990)
  = Ok after_A
  /\ forall st',
       @admit_loop near_ephem win_start win_stop after_A [psr_D; psr_B; psr_C]
       = Ok st' ->
       rec_secs_possible st' <= hours 9.
Proof.
  destruct (@budget_is_strict_and_decreasing near_ephem win_start win_stop)
    as [Hstrict [_ Hmono]].
  split.
  - apply Hstrict. vm_compute; discriminate.
  - intros st' Hloop.
    apply (Hmono [psr_D; psr_B; psr_C] after_A st'); [|exact Hloop].
    repeat constructor; vm_compute; discriminate.
Defined.

Lemma only_cadence_due_targets_are_admitted_witness :
  exists adm,
    @admit_targets gap_ephem win_start win_stop (hours 10) [psr_C; psr_A; psr_D; psr_B]
    = Ok adm
    /\ forall s, In s (bdys_run adm) -> bdy s <> psr_C /\ bdy s <> psr_D.
Proof.
  destruct (@only_cadence_due_targets_are_admitted gap_ephem win_start win_stop
              (hours 10) [psr_C; psr_A; psr_D; psr_B]) as [_ [adm [Hadm Hdue]]].
  exists adm; split; [exact Hadm|].
  intros s Hs. destruct (Hdue s Hs) as [_ [Hcad Hlast]].
  split; intros Heq; rewrite Heq in *.
  - apply Hcad. vm_compute; discriminate.
  - apply Hlast. vm_compute; reflexivity.
Defined.

(** ** The beam balancer *)

Section Balancer.

Lemma assign_beams_snoc run s :
  assign_beams (run ++ [s]) = assign_step (assign_beams run) s.
Proof. unfold assign_beams. rewrite fold_left_app. reflexivity. Qed.

(** One turn on the three beams: the two chosen beams, the pair stored, and
    the new loads. *)
Lemma assign_step_three a b c done s :
  exists b0 b1 a' b' c',
    assign_step ([(2, a); (3, b); (4, c)], done) s
    = ([(2, a'); (3, b'); (4, c')],
       done ++ [mkScheduled (bdy s) (final s) [b0; b1]])
    /\ two_least_loaded [(2, a); (3, b); (4, c)] b0 b1
    /\ a' = a + (if (2 =? b0) || (2 =? b1) then duration (bdy s) else 0)
    /\ b' = b + (if (3 =? b0) || (3 =? b1) then duration (bdy s) else 0)
    /\ c' = c + (if (4 =? b0) || (4 =? b1) then duration (bdy s) else 0).
Proof.
  unfold assign_step, ranked_beams, sorted, tuple_le, two_least_loaded,
    ranks_before; simpl.
  destruct (Z.ltb_spec b c); destruct (Z.eqb_spec b c); simpl;
    destruct (Z.ltb_spec a b); destruct (Z.eqb_spec a b); simpl;
    destruct (Z.ltb_spec a c); destruct (Z.eqb_spec a c); simpl;
    try lia;
    do 5 eexists; (split; [reflexivity|]);
    (split; [|simpl; repeat split; lia]);
    (split; [lia|]); (split; [simpl; tauto|]); (split; [simpl; tauto|]);
    intros b2 [<-|[<-|[<-|[]]]] Hne0 Hne1; simpl; try lia.
Qed.

Lemma assign_beams_shape run :
  exists a b c done,
    assign_beams run = ([(2, a); (3, b); (4, c)], done)
    /\ List.length done = List.length run.
Proof.
  induction run as [|s run IH] using rev_ind.
  - exists 0, 0, 0, []; split; reflexivity.
  - destruct IH as [a [b [c [done [Heq Hlen]]]]].
    rewrite assign_beams_snoc, Heq.
    destruct (assign_step_three a b c done s)
      as [b0 [b1 [a' [b' [c' [Hstep _]]]]]].
    rewrite Hstep. exists a', b', c'. eexists; split; [reflexivity|].
    rewrite !length_app; simpl. lia.
Qed.

End Balancer.

(** ** The beam loads in binary64 *)

Section Binary64.

(** A mantissa of [n] binary digits lies between 2^(n-1) and 2^n; that of a
    binary64 has at most 53 digits, and exactly 53 above the least exponent. *)
Lemma digits2_pos_bounds m :
  2 ^ (Zpos (digits2_pos m) - 1) <= Zpos m < 2 ^ Zpos (digits2_pos m).
Proof.
  induction m as [m IH|m IH|]; cbn [digits2_pos].
  - rewrite Pos2Z.inj_succ.
    replace (Z.succ (Z.pos (digits2_pos m)) - 1)
      with (Z.succ (Z.pos (digits2_pos m) - 1)) by lia.
    rewrite !Z.pow_succ_r by lia. lia.
  - rewrite Pos2Z.inj_succ.
    replace (Z.succ (Z.pos (digits2_pos m)) - 1)
      with (Z.succ (Z.pos (digits2_pos m) - 1)) by lia.
    rewrite !Z.pow_succ_r by lia. lia.
  - simpl. lia.
Qed.

Lemma valid_digits m e :
  bounded prec emax m e = true ->
  Zpos (digits2_pos m) <= 53
  /\ (-1074 < e -> Zpos (digits2_pos m) = 53)
  /\ -1074 <= e.
Proof.
  unfold bounded, canonical_mantissa, fexp, SpecFloat.emin, prec, emax.
  intros H. apply andb_prop in H. destruct H as [H _]. apply Z.eqb_eq in H. lia.
Qed.

(** On two positive binary64 the comparison of the exponents, then of the
    mantissas, is the comparison of the exact values. *)
Lemma finite_compare m1 e1 m2 e2 :
  bounded prec emax m1 e1 = true -> bounded prec emax m2 e2 = true ->
  0 <= e1 + unit_exp -> 0 <= e2 + unit_exp ->
  match (e1 ?= e2) with
  | Lt => Lt | Gt => Gt | Eq => Pos.compare_cont Eq m1 m2
  end
  = (Zpos m1 * 2 ^ (e1 + unit_exp) ?= Zpos m2 * 2 ^ (e2 + unit_exp)).
Proof.
  intros H1 H2 K1 K2.
  destruct (valid_digits _ _ H1) as [D1 [N1 L1]].
  destruct (valid_digits _ _ H2) as [D2 [N2 L2]].
  pose proof (digits2_pos_bounds m1) as B1.
  pose proof (digits2_pos_bounds m2) as B2.
  assert (P53 : forall m, Zpos (digits2_pos m) <= 53 -> Zpos m < 2 ^ 53).
  { intros m Hm. pose proof (digits2_pos_bounds m) as [_ B].
    eapply Z.lt_le_trans; [exact B|]. apply Z.pow_le_mono_r; lia. }
  assert (Hshift : forall ea eb ma mb,
             ea < eb -> 0 <= ea + unit_exp ->
             Zpos ma < 2 ^ 53 -> 2 ^ 52 <= Zpos mb ->
             Zpos ma * 2 ^ (ea + unit_exp) < Zpos mb * 2 ^ (eb + unit_exp)).
  { intros ea eb ma mb Hlt Ha Hma Hmb.
    replace (eb + unit_exp) with ((eb - ea - 1) + 1 + (ea + unit_exp)) by lia.
    rewrite (Z.pow_add_r 2 (eb - ea - 1 + 1) (ea + unit_exp)) by lia.
    rewrite (Z.pow_add_r 2 (eb - ea - 1) 1) by lia.
    assert (0 < 2 ^ (ea + unit_exp)) by (apply Z.pow_pos_nonneg; lia).
    assert (Hone : 2 ^ 0 <= 2 ^ (eb - ea - 1)) by (apply Z.pow_le_mono_r; lia).
    change (2 ^ 0) with 1 in Hone.
    change (2 ^ 1) with 2. change (2 ^ 53) with (2 * 2 ^ 52) in Hma.
    assert (HX : 0 < 2 ^ 52) by reflexivity.
    set (X := 2 ^ 52) in *. set (Q := 2 ^ (eb - ea - 1)) in *.
    set (P := 2 ^ (ea + unit_exp)) in *.
    assert (Hq : X <= Z.pos mb * Q) by nia.
    assert (Hm : Z.pos ma < Z.pos mb * Q * 2) by lia.
    clearbody X Q P. nia. }
  destruct (Z.compare_spec e1 e2) as [Heq|Hlt|Hgt].
  - subst e2. rewrite Pos.compare_cont_spec.
    assert (0 < 2 ^ (e1 + unit_exp)) by (apply Z.pow_pos_nonneg; lia).
    destruct (Pos.compare_spec m1 m2) as [E|L|G]; cbn [Pos.switch_Eq]; symmetry.
    + rewrite E. apply Z.compare_refl.
    + apply Z.compare_lt_iff. apply Pos2Z.pos_lt_pos in L. nia.
    + apply Z.compare_gt_iff. apply Pos2Z.pos_lt_pos in G. nia.
  - symmetry. apply Z.compare_lt_iff. apply Hshift; try lia.
    + apply P53; lia.
    + rewrite N2 in B2 by lia. change (53 - 1) with 52 in B2. lia.
  - symmetry. apply Z.compare_gt_iff. apply Hshift; try lia.
    + apply P53; lia.
    + rewrite N1 in B1 by lia. change (53 - 1) with 52 in B1. lia.
Qed.

(** [<] and [==] of binary64 on plain floats are those of their values. *)
Lemma plain_compare x y :
  plain x = true -> plain y = true ->
  (x <? y)%float = (value x <? value y)
  /\ (x =? y)%float = (value x =? value y).
Proof.
  rewrite ltb_spec, eqb_spec. unfold SFltb, SFeqb, plain, value, exact.
  pose proof (Prim2SF_valid x) as Vx. pose proof (Prim2SF_valid y) as Vy.
  destruct (Prim2SF x) as [sx|sx| |sx mx ex]; try discriminate;
    destruct (Prim2SF y) as [sy|sy| |sy my ey]; try discriminate;
    cbn [SFcompare valid_binary] in *.
  - intros _ _. split; reflexivity.
  - destruct (Z.leb_spec 0 (ey + unit_exp)); [|discriminate].
    assert (0 < 2 ^ (ey + unit_exp)) by (apply Z.pow_pos_nonneg; lia).
    destruct sy; intros _ Hy; apply Z.leb_le in Hy; [nia|].
    split; [symmetry; apply Z.ltb_lt; nia | symmetry; apply Z.eqb_neq; nia].
  - destruct (Z.leb_spec 0 (ex + unit_exp)); [|discriminate].
    assert (0 < 2 ^ (ex + unit_exp)) by (apply Z.pow_pos_nonneg; lia).
    destruct sx; intros Hx _; apply Z.leb_le in Hx; [nia|].
    split; [symmetry; apply Z.ltb_ge; nia | symmetry; apply Z.eqb_neq; nia].
  - destruct (Z.leb_spec 0 (ex + unit_exp)); [|discriminate].
    destruct (Z.leb_spec 0 (ey + unit_exp)); [|discriminate].
    assert (0 < 2 ^ (ex + unit_exp)) by (apply Z.pow_pos_nonneg; lia).
    assert (0 < 2 ^ (ey + unit_exp)) by (apply Z.pow_pos_nonneg; lia).
    destruct sx; intros Hx Hy; apply Z.leb_le in Hx; [nia|].
    destruct sy; apply Z.leb_le in Hy; [nia|].
    rewrite (finite_compare mx ex my ey Vx Vy) by assumption.
    rewrite !Z.mul_1_l.
    destruct (Z.compare_spec (Z.pos mx * 2 ^ (ex + unit_exp))
                             (Z.pos my * 2 ^ (ey + unit_exp))) as [E|L|G];
      split; symmetry;
      first [ apply Z.ltb_lt; lia | apply Z.ltb_ge; lia
            | apply Z.eqb_eq; lia | apply Z.eqb_neq; lia ].
Qed.

Lemma plain_nonneg x : plain x = true -> 0 <= value x.
Proof.
  unfold plain, value. destruct (exact x); [apply Z.leb_le | discriminate].
Qed.

Lemma adds_exactly_spec l d :
  adds_exactly l d = true ->
  plain (l + d)%float = true /\ value (l + d)%float = value l + value d.
Proof.
  unfold adds_exactly. intros H. apply andb_prop in H. destruct H as [H1 H2].
  split; [exact H1 | apply Z.eqb_eq; exact H2].
Qed.

(** One turn of the loop whose two additions are exact keeps the loads plain
    and within the largest duration of each other. *)
Lemma float_step_balanced a b c d D :
  plain a = true -> plain b = true -> plain c = true ->
  Z.max (Z.max (value a) (value b)) (value c)
  - Z.min (Z.min (value a) (value b)) (value c) <= D ->
  no_rounding_from [(2, a); (3, b); (4, c)] [d] = true ->
  exists a' b' c',
    float_assign_step [(2, a); (3, b); (4, c)] d = [(2, a'); (3, b'); (4, c')]
    /\ plain a' = true /\ plain b' = true /\ plain c' = true
    /\ Z.max (Z.max (value a') (value b')) (value c')
       - Z.min (Z.min (value a') (value b')) (value c') <= Z.max D (value d).
Proof.
  intros Ha Hb Hc HD. cbn [no_rounding_from]. rewrite andb_true_r.
  intros Hrun. apply andb_prop in Hrun. destruct Hrun as [Hd Hrun].
  pose proof (plain_nonneg d Hd) as Hvd.
  destruct (plain_compare a b Ha Hb) as [Lab Eab].
  destruct (plain_compare b a Hb Ha) as [Lba Eba].
  destruct (plain_compare a c Ha Hc) as [Lac Eac].
  destruct (plain_compare c a Hc Ha) as [Lca Eca].
  destruct (plain_compare b c Hb Hc) as [Lbc Ebc].
  destruct (plain_compare c b Hc Hb) as [Lcb Ecb].
  revert Hrun.
  unfold float_assign_step, float_ranked_beams, sorted, float_tuple_le,
    float_tuple_lt.
  repeat (cbn [map fold_right insert_sorted fst snd negb];
          rewrite ?Lab, ?Eab, ?Lba, ?Eba, ?Lac, ?Eac, ?Lca, ?Eca, ?Lbc, ?Ebc,
            ?Lcb, ?Ecb;
          match goal with
          | |- context [Z.eqb ?x ?y] => destruct (Z.eqb_spec x y); try lia
          | |- context [Z.ltb ?x ?y] => destruct (Z.ltb_spec x y); try lia
          end).
  all: cbv beta iota zeta delta [map snd fst float_load_get float_load_add
                                   Z.eqb Pos.eqb].
  all: intros Hrun; apply andb_prop in Hrun; destruct Hrun as [Hfst Hsnd].
  all: apply adds_exactly_spec in Hfst; destruct Hfst as [P0 V0].
  all: apply adds_exactly_spec in Hsnd; destruct Hsnd as [P1 V1].
  all: do 3 eexists; (split; [reflexivity|]).
  all: repeat (split; [assumption|]).
  all: rewrite ?V0, ?V1; lia.
Qed.


Lemma float_loads_balanced durations : forall a b c D,
  plain a = true -> plain b = true -> plain c = true ->
  Z.max (Z.max (value a) (value b)) (value c)
  - Z.min (Z.min (value a) (value b)) (value c) <= D ->
  no_rounding_from [(2, a); (3, b); (4, c)] durations = true ->
  max_load (exact_loads
              (fold_left float_assign_step durations [(2, a); (3, b); (4, c)]))
  - min_load (exact_loads
                (fold_left float_assign_step durations
                           [(2, a); (3, b); (4, c)]))
  <= fold_left (fun m d => Z.max m (value d)) durations D.
Proof.
  induction durations as [|d durations IH]; intros a b c D Ha Hb Hc HD Hrun.
  - exact HD.
  - cbn [no_rounding_from] in Hrun.
    apply andb_prop in Hrun. destruct Hrun as [Hstep Hrest].
    destruct (float_step_balanced a b c d D Ha Hb Hc HD)
      as [a' [b' [c' [Hnext [Ha' [Hb' [Hc' HD']]]]]]].
    { cbn [no_rounding_from]. rewrite Hstep. reflexivity. }
    cbn [fold_left]. rewrite Hnext in *. apply IH; assumption.
Qed.

(** C6: after the balancer has processed any prefix of the list of admitted
    targets, the most loaded of the three beams exceeds the least loaded by at
    most the largest duration among the targets processed so far, provided no
    addition to a beam load has been rounded and no duration is negative,
    infinite or NaN.  The loads are those of binary64, as the script adds
    them; the bound is on their exact values. *)
Theorem beam_loads_stay_balanced (durations : list float) (k : nat) :
  no_rounding (firstn k durations) = true ->
  max_load (exact_loads (float_loads (firstn k durations)))
  - min_load (exact_loads (float_loads (firstn k durations)))
  <= largest_value (firstn k durations).
Proof.
  intros Hrun. unfold float_loads, float_load_init, largest_value.
  apply float_loads_balanced;
    [vm_compute; reflexivity | vm_compute; reflexivity | vm_compute; reflexivity
    | vm_compute; discriminate | exact Hrun].
Qed.

End Binary64.


Section Assignment.

Lemma assign_fold_snd run : forall st,
  exists tail,
    snd (fold_left assign_step run st) = snd st ++ tail
    /\ List.length tail = List.length run.
Proof.
  induction run as [|s run IH]; intros st; cbn [fold_left].
  - exists []; split; [rewrite app_nil_r; reflexivity | reflexivity].
  - destruct (IH (assign_step st s)) as [tail [Heq Hlen]].
    rewrite Heq.
    assert (Hone : exists x, snd (assign_step st s) = snd st ++ [x]).
    { destruct st as [load done]. unfold assign_step.
      destruct (ranked_beams load) as [|b0 [|b1 ranked]]; simpl;
        eexists; reflexivity. }
    destruct Hone as [x Hx]. rewrite Hx, <- app_assoc.
    exists (x :: tail); split; [reflexivity | simpl; rewrite Hlen; reflexivity].
Qed.

Lemma assign_beams_at before s after :
  nth_error (snd (assign_beams (before ++ s :: after))) (List.length before)
  = nth_error (snd (assign_beams (before ++ [s]))) (List.length before).
Proof.
  replace (before ++ s :: after) with ((before ++ [s]) ++ after)
    by (rewrite <- app_assoc; reflexivity).
  unfold assign_beams at 1. rewrite fold_left_app.
  fold (assign_beams (before ++ [s])).
  destruct (assign_fold_snd after (assign_beams (before ++ [s]))) as [tail [Heq _]].
  rewrite Heq.
  destruct (assign_beams_shape (before ++ [s])) as [a [b [c [done [Hsh Hlen]]]]].
  rewrite Hsh; simpl. rewrite nth_error_app1; [reflexivity|].
  rewrite Hlen, length_app; simpl; lia.
Qed.

Lemma assign_beams_pairs run :
  Forall (fun s' => exists b0 b1, beams s' = [b0; b1] /\ b0 <> b1)
         (snd (assign_beams run)).
Proof.
  induction run as [|s run IH] using rev_ind.
  - constructor.
  - destruct (assign_beams_shape run) as [a [b [c [done [Heq _]]]]].
    rewrite assign_beams_snoc. rewrite Heq in *; simpl in IH.
    destruct (assign_step_three a b c done s)
      as [b0 [b1 [a' [b' [c' [Hstep [[Hlt _] _]]]]]]].
    rewrite Hstep; simpl. apply Forall_app; split; [assumption|].
    constructor; [|constructor]. exists b0, b1; simpl; split; [reflexivity | lia].
Qed.

(** C7: the targets are taken in ascending order of finalized start; each one
    is given exactly the two beams that rank lowest by cumulative load at that
    point, ties going to the lower identifier, stored in ascending order, and
    its duration is added to the load of both and of no other beam; every
    target ends with exactly two distinct beams. *)
Theorem two_least_loaded_beams_are_assigned (admitted : list Scheduled) :
  Permutation admitted (sort_run admitted)
  /\ StronglySorted (fun a b => fst (final a) <= fst (final b))
                    (sort_run admitted)
  /\ (forall before s after,
        sort_run admitted = before ++ s :: after ->
        exists b0 b1,
          two_least_loaded (fst (assign_beams before)) b0 b1
          /\ nth_error (snd (assign_beams (sort_run admitted)))
                       (List.length before)
             = Some (mkScheduled (bdy s) (final s) [b0; b1])
          /\ forall b,
               load_get (fst (assign_beams (before ++ [s]))) b
               = load_get (fst (assign_beams before)) b
                 + (if (b =? b0) || (b =? b1) then duration (bdy s) else 0))
  /\ Forall (fun s' => exists b0 b1, beams s' = [b0; b1] /\ b0 <> b1)
            (snd (assign_beams (sort_run admitted)))
  /\ List.length (snd (assign_beams (sort_run admitted)))
     = List.length admitted.
Proof.
  split; [apply sorted_perm|].
  split; [apply sort_key_sorted|].
  split; [|split; [apply assign_beams_pairs|]].
  - intros before s after Hrun. rewrite Hrun, assign_beams_at.
    rewrite assign_beams_snoc.
    destruct (assign_beams_shape before) as [a [b [c [done [Heq Hlen]]]]].
    rewrite Heq.
    destruct (assign_step_three a b c done s)
      as [b0 [b1 [a' [b' [c' [Hstep [Htwo [Ha [Hb Hc]]]]]]]]].
    rewrite Hstep. cbn [fst snd]. exists b0, b1.
    split; [exact Htwo|].
    split; [rewrite <- Hlen, nth_error_app2, Nat.sub_diag by lia; reflexivity|].
    intros x. subst a' b' c'.
    destruct Htwo as [Hlt [H0 [H1 _]]].
    cbn [load_get].
    destruct H0 as [<-|[<-|[<-|[]]]]; destruct H1 as [<-|[<-|[<-|[]]]];
      try lia;
      repeat match goal with
             | |- context [?u =? ?v] => destruct (Z.eqb_spec u v)
             end; simpl; lia.
  - destruct (assign_beams_shape (sort_run admitted))
      as [a [b [c [done [Heq Hlen]]]]].
    rewrite Heq; simpl. rewrite Hlen.
    symmetry. apply Permutation_length, sorted_perm.
Qed.

End Assignment.

(** ** The balancer on the two-target catalog *)

Lemma beam_loads_stay_balanced_witness :
  max_load (exact_loads
              (float_loads
                 (firstn 3 [duration_of_hours 1; duration_of_hours 2;
                            duration_of_hours 0.5])))
  - min_load (exact_loads
                (float_loads
                   (firstn 3 [duration_of_hours 1; duration_of_hours 2;
                              duration_of_hours 0.5])))
  <= largest_value (firstn 3 [duration_of_hours 1; duration_of_hours 2;
                              duration_of_hours 0.5]).
Proof.
  apply (beam_loads_stay_balanced
           [duration_of_hours 1; duration_of_hours 2; duration_of_hours 0.5] 3).
  vm_compute. reflexivity.
Defined.

Set Warnings "-inexact-float".

(** With the catalog durations of 1.1 and 2.2 hours the second sum on beam 2
    is rounded up, and beam 2 exceeds beam 3 by more than the 2.2 hours of the
    larger target, in exact value and as binary64 subtracts and compares. *)
Lemma beam_balance_fails_in_binary64 :
  let durations := [duration_of_hours 1.1; duration_of_hours 2.2] in
  let load := float_loads durations in
  forallb plain durations = true
  /\ forallb (fun kv => plain (snd kv)) load = true
  /\ largest_value durations
     < max_load (exact_loads load) - min_load (exact_loads load)
  /\ (duration_of_hours 2.2
      <? float_load_get load 2 - float_load_get load 3)%float = true
  /\ no_rounding durations = false.
Proof. vm_compute. repeat split. Qed.

Lemma two_least_loaded_beams_are_assigned_witness :
  exists b0 b1,
    two_least_loaded (fst (assign_beams [sched_A])) b0 b1
    /\ nth_error (snd (assign_beams (sort_run [sched_B; sched_A]))) 1
       = Some (mkScheduled psr_B (final sched_B) [b0; b1]).
Proof.
  destruct (two_least_loaded_beams_are_assigned [sched_B; sched_A])
    as [_ [_ [Hstep _]]].
  destruct (Hstep [sched_A] sched_B []) as [b0 [b1 [Htwo [Hnth _]]]].
  - vm_compute; reflexivity.
  - exists b0, b1; split; [exact Htwo | exact Hnth].
Defined.


(** ** Maintenance placement *)

Section PlacementProofs.

Lemma replace_second0_bounds t :
  t - minutes 1 < replace_second0 t <= t.
Proof.
  unfold replace_second0, minutes.
  pose proof (Z.mod_pos_bound t 60000000 ltac:(lia)). lia.
Qed.

(** The fuel of the maintenance loop is enough: the loop stops on its own
    test, whatever fuel is added. *)
Lemma maintenance_loop_fuel fuel : forall limit tTBW tDRSU tLWADB st extra,
  (limit - tTBW) / minutes 15 + 1 <= Z.of_nat fuel ->
  maintenance_loop (fuel + extra) limit tTBW tDRSU tLWADB st
  = maintenance_loop fuel limit tTBW tDRSU tLWADB st.
Proof.
  induction fuel as [|fuel IH]; intros limit tTBW tDRSU tLWADB st extra Hfuel.
  - assert (Hlt : limit < tTBW).
    { destruct (Z_lt_le_dec limit tTBW) as [H|H]; [exact H|].
      assert (0 <= (limit - tTBW) / minutes 15)
        by (apply Z.div_pos; unfold minutes; lia).
      lia. }
    simpl. destruct extra as [|extra]; simpl; [reflexivity|].
    destruct (Z.leb_spec tTBW limit); [lia | reflexivity].
  - assert (Hnext : (limit - (tTBW + minutes 15)) / minutes 15 + 1
                    <= Z.of_nat fuel).
    { replace (limit - (tTBW + minutes 15))
        with ((limit - tTBW) + (-1) * minutes 15) by lia.
      rewrite Z.div_add by (unfold minutes; lia). lia. }
    cbn [Nat.add maintenance_loop].
    destruct (tTBW <=? limit); [|reflexivity].
    destruct (tTBW >? tTBWLast st + hours 4); [apply IH; exact Hnext|].
    destruct (tDRSU >? tDRSULast st + hours 6); [apply IH; exact Hnext|].
    destruct (tLWADB >? tLWADBLast st + hours 4); apply IH; exact Hnext.
Qed.

Lemma maintenance_fuel_enough limit tTBW tDRSU tLWADB st extra :
  maintenance_loop (maintenance_fuel limit tTBW + extra) limit tTBW tDRSU
                   tLWADB st
  = maintenance_loop (maintenance_fuel limit tTBW) limit tTBW tDRSU tLWADB st.
Proof. apply maintenance_loop_fuel. unfold maintenance_fuel. lia. Qed.

Lemma place_window_not_last start run n i (w : window) st :
  i <> (n - 1)%nat ->
  exists st', place_window start run n i w st = Ok st'.
Proof.
  intros Hi. unfold place_window. cbv zeta.
  destruct (snd w - fst w >=? minutes 45); [eexists; reflexivity|].
  destruct (snd w - fst w >=? minutes 15).
  { destruct (_ >? tTBWLast st + hours 4); [eexists; reflexivity|].
    destruct (_ >? tDRSULast st + hours 6); eexists; reflexivity. }
  destruct (snd w - fst w >=? minutes 6).
  { destruct (_ >? tDRSULast st + hours 6); eexists; reflexivity. }
  destruct (Nat.eqb_spec i (n - 1)); [contradiction | eexists; reflexivity].
Qed.

Lemma place_window_short_last start n (w : window) st :
  snd w - fst w < minutes 6 ->
  place_window start [] n (n - 1) w st = Raise ValueError.
Proof.
  intros Hw. unfold place_window. cbv zeta. rewrite !Z.geb_leb.
  do 3 match goal with
       | |- context [if minutes ?k <=? ?x then _ else _] =>
           destruct (Z.leb_spec (minutes k) x); [unfold minutes in *; lia|]
       end.
  rewrite Nat.eqb_refl. reflexivity.
Qed.

Lemma place_windows_short_last start n earlier : forall i fw st,
  (i + List.length earlier = n - 1)%nat ->
  snd fw - fst fw < minutes 6 ->
  place_windows start [] n i (earlier ++ [fw]) st = Raise ValueError.
Proof.
  induction earlier as [|w earlier IH]; intros i fw st Hi Hfw; simpl in *.
  - replace i with (n - 1)%nat by lia.
    rewrite place_window_short_last by assumption. reflexivity.
  - destruct (place_window_not_last start [] n i w st) as [st' Hst']; [lia|].
    rewrite Hst'; simpl. apply IH; [lia | assumption].
Qed.

Lemma free_times_short start stop :
  minutes 2 < stop - start <= minutes 6 ->
  free_windows (free_times [] start stop) = [(start, start + minutes 2)]
  \/ free_windows (free_times [] start stop) = [(start, start + minutes 4)].
Proof.
  intros Hlen. unfold free_times, free_time_fuel.
  assert (Hq : (stop - start) / minutes 2 = 1 \/ (stop - start) / minutes 2 = 2
               \/ (stop - start) / minutes 2 = 3).
  { change (minutes 2) with 120000000. unfold minutes in Hlen.
    pose proof (Z.div_mod (stop - start) 120000000 ltac:(lia)).
    pose proof (Z.mod_pos_bound (stop - start) 120000000 ltac:(lia)). lia. }
  destruct Hq as [Hq|[Hq|Hq]]; rewrite Hq;
    match goal with
    | |- context [Z.to_nat ?z] =>
        let n := eval compute in (Z.to_nat z) in change (Z.to_nat z) with n
    end;
    unfold seconds, minutes in *;
    repeat (cbn [free_time_loop is_free forallb app free_windows fold_left
                 join_free filter fst snd];
            rewrite ?Z.gtb_ltb; unfold seconds, minutes in *;
            match goal with
            | |- context [if ?a <? ?b then _ else _] =>
                destruct (Z.ltb_spec a b); try lia
            | |- context [if ?a <=? ?b then _ else _] =>
                destruct (Z.leb_spec a b); try lia
            end);
    first [ left; f_equal; f_equal; lia | right; f_equal; f_equal; lia ].
Qed.

(** C10: with no admitted target, a last free window shorter than 6 minutes
    makes the placement raise ValueError, the maximum of an empty list; this
    is reached whenever nothing is admitted and the window left after the
    25-minute offset is longer than 2 and at most 6 minutes. *)
Theorem short_last_window_without_targets_raises
  (orig_start start stop : datetime) (busyWindows : list window) :
  (forall earlier fw,
      snd fw - fst fw < minutes 6 ->
      place orig_start start [] busyWindows (earlier ++ [fw])
      = Raise ValueError)
  /\ (minutes 2 < stop - start <= minutes 6 ->
      place orig_start start [] (busy_windows [])
            (free_windows (free_times [] start stop))
      = Raise ValueError).
Proof.
  assert (Hlast : forall busy earlier fw,
             snd fw - fst fw < minutes 6 ->
             place orig_start start [] busy (earlier ++ [fw])
             = Raise ValueError).
  { intros busy earlier fw Hfw. unfold place.
    rewrite place_windows_short_last; [reflexivity | | assumption].
    rewrite length_app; simpl; lia. }
  split; [apply Hlast|].
  intros Hlen. destruct (free_times_short start stop Hlen) as [-> | ->].
  - apply (Hlast _ []). simpl. unfold minutes; lia.
  - apply (Hlast _ []). simpl. unfold minutes; lia.
Qed.

Lemma place_windows_app start run n l1 : forall i l2 st,
  place_windows start run n i (l1 ++ l2) st
  = (st1 <- place_windows start run n i l1 st ;;
     place_windows start run n (i + List.length l1) l2 st1).
Proof.
  induction l1 as [|w l1 IH]; intros i l2 st; cbn [app place_windows List.length].
  - rewrite Nat.add_0_r. reflexivity.
  - destruct (place_window start run n i w st) as [st'|e]; cbn [bind];
      [|reflexivity].
    rewrite IH. replace (S i + List.length l1)%nat
      with (i + S (List.length l1))%nat by lia.
    reflexivity.
Qed.

Lemma place_windows_not_last start run n ws : forall i st,
  (i + List.length ws <= n - 1)%nat ->
  exists st', place_windows start run n i ws st = Ok st'.
Proof.
  induction ws as [|w ws IH]; intros i st Hi; cbn [place_windows].
  - exists st. reflexivity.
  - cbn [List.length] in Hi.
    destruct (place_window_not_last start run n i w st) as [st1 Hst1]; [lia|].
    rewrite Hst1. cbn [bind]. apply IH. lia.
Qed.

Lemma health_checks_app l1 l2 :
  health_checks (l1 ++ l2) = health_checks l1 ++ health_checks l2.
Proof. unfold health_checks. apply filter_app. Qed.

(** The health checks the loop adds lie between its first time and its limit,
    and the last one it remembers is the one it remembered or one it added. *)
Lemma maintenance_loop_health fuel : forall limit tTBW tDRSU tLWADB st lo,
  lo <= tTBW ->
  exists new,
    atCommands (maintenance_loop fuel limit tTBW tDRSU tLWADB st)
    = atCommands st ++ new
    /\ Forall (fun c => lo <= fst c <= limit) (health_checks new)
    /\ (tTBWLast (maintenance_loop fuel limit tTBW tDRSU tLWADB st)
        = tTBWLast st
        \/ In (tTBWLast (maintenance_loop fuel limit tTBW tDRSU tLWADB st),
               acquireHealthCheckAndProcess) new).
Proof.
  assert (Hstop : forall st : Placement,
             exists new,
               atCommands st = atCommands st ++ new
               /\ Forall (fun c : datetime * Command => True) new
               /\ new = []).
  { intros st. exists []. rewrite app_nil_r. repeat split. constructor. }
  induction fuel as [|fuel IH]; intros limit tTBW tDRSU tLWADB st lo Hlo;
    cbn [maintenance_loop].
  - exists []. rewrite app_nil_r. split; [reflexivity|].
    split; [constructor | left; reflexivity].
  - destruct (Z.leb_spec tTBW limit) as [Hlim|Hlim].
    2:{ exists []. rewrite app_nil_r. split; [reflexivity|].
        split; [constructor | left; reflexivity]. }
    assert (Hnext : lo <= tTBW + minutes 15) by (unfold minutes; lia).
    destruct (tTBW >? tTBWLast st + hours 4).
    { match goal with
      | |- context [maintenance_loop fuel limit ?a ?b ?c ?s] =>
          destruct (IH limit a b c s lo Hnext) as [new [Hcmds [Hin Hlast]]]
      end.
      cbn [atCommands tTBWLast] in *.
      exists ((tTBW, acquireHealthCheckAndProcess) :: new).
      split; [rewrite Hcmds, <- app_assoc; reflexivity|].
      split.
      - change (health_checks ((tTBW, acquireHealthCheckAndProcess) :: new))
          with ((tTBW, acquireHealthCheckAndProcess) :: health_checks new).
        constructor; [cbn [fst]; lia | exact Hin].
      - right. destruct Hlast as [-> | Hlast];
          [left; reflexivity | right; exact Hlast]. }
    destruct (tDRSU >? tDRSULast st + hours 6).
    { match goal with
      | |- context [maintenance_loop fuel limit ?a ?b ?c ?s] =>
          destruct (IH limit a b c s lo Hnext) as [new [Hcmds [Hin Hlast]]]
      end.
      cbn [atCommands tTBWLast] in *.
      exists ((tDRSU, selectBestDRSU) :: (tDRSU + minutes 2, postDRSUStatus)
              :: new).
      split; [rewrite Hcmds, <- !app_assoc; reflexivity|].
      split; [exact Hin|].
      destruct Hlast as [Hlast | Hlast];
        [left; exact Hlast | right; right; right; exact Hlast]. }
    destruct (tLWADB >? tLWADBLast st + hours 4).
    { destruct (hour tLWADB >=? 8).
      - match goal with
        | |- context [maintenance_loop fuel limit ?a ?b ?c ?s] =>
            destruct (IH limit a b c s lo Hnext) as [new [Hcmds [Hin Hlast]]]
        end.
        cbn [atCommands tTBWLast] in *.
        exists ((tLWADB, scanDRSUs) :: new).
        split; [rewrite Hcmds, <- app_assoc; reflexivity|].
        split; [exact Hin|].
        destruct Hlast as [Hlast | Hlast];
          [left; exact Hlast | right; right; exact Hlast].
      - apply IH. exact Hnext. }
    apply IH. exact Hnext.
Qed.

(** The same of one free window: its health checks come after its start and
    at least 6 minutes before its end. *)
Lemma place_window_health start run n i (w : window) st st' :
  place_window start run n i w st = Ok st' ->
  exists new,
    atCommands st' = atCommands st ++ new
    /\ Forall (fun c => fst w < fst c <= snd w - minutes 6) (health_checks new)
    /\ (tTBWLast st' = tTBWLast st
        \/ In (tTBWLast st', acquireHealthCheckAndProcess) new).
Proof.
  assert (Hsame : exists new : list (datetime * Command),
             atCommands st = atCommands st ++ new
             /\ Forall (fun c => fst w < fst c <= snd w - minutes 6)
                       (health_checks new)
             /\ (tTBWLast st = tTBWLast st
                 \/ In (tTBWLast st, acquireHealthCheckAndProcess) new)).
  { exists []. rewrite app_nil_r. split; [reflexivity|].
    split; [constructor | left; reflexivity]. }
  assert (Hdrsu : forall t,
             exists new : list (datetime * Command),
               atCommands st ++ [(t, selectBestDRSU)]
               ++ [(t + minutes 2, postDRSUStatus)] = atCommands st ++ new
               /\ Forall (fun c => fst w < fst c <= snd w - minutes 6)
                         (health_checks new)
               /\ (tTBWLast st = tTBWLast st
                   \/ In (tTBWLast st, acquireHealthCheckAndProcess) new)).
  { intros t. eexists. split; [reflexivity|].
    split; [constructor | left; reflexivity]. }
  pose proof (replace_second0_bounds (fst w + minutes 4)) as Ht0.
  unfold place_window. cbv zeta. rewrite !Z.geb_leb.
  destruct (Z.leb_spec (minutes 45) (snd w - fst w)) as [H45|H45].
  { intros Hres; inversion Hres; subst st'; clear Hres.
    match goal with
    | |- context [maintenance_loop ?f ?limit ?a ?b ?c ?s] =>
        destruct (maintenance_loop_health f limit a b c s a (Z.le_refl a))
          as [new [Hcmds [Hin Hlast]]]
    end.
    destruct ((i =? 0)%nat || _); cbn [atCommands tTBWLast] in *.
    - exists ((fst w, startTBN_split) :: new).
      split; [rewrite Hcmds, <- app_assoc; reflexivity|].
      split.
      + change (health_checks ((fst w, startTBN_split) :: new))
          with (health_checks new).
        eapply Forall_impl; [|exact Hin]. cbv beta. intros c Hc.
        match type of Hc with
        | replace_second0 ?x <= _ <= _ =>
            pose proof (replace_second0_bounds x) as Hx
        end.
        unfold window, datetime, minutes in *. lia.
      + destruct Hlast as [Hlast | Hlast];
          [left; exact Hlast | right; right; exact Hlast].
    - exists new. split; [exact Hcmds|]. split; [|exact Hlast].
      eapply Forall_impl; [|exact Hin]. cbv beta. intros c Hc.
      match type of Hc with
      | replace_second0 ?x <= _ <= _ =>
          pose proof (replace_second0_bounds x) as Hx
      end.
      unfold window, datetime, minutes in *. lia. }
  destruct (Z.leb_spec (minutes 15) (snd w - fst w)) as [H15|H15].
  { destruct (_ >? tTBWLast st + hours 4).
    { intros Hres; inversion Hres; subst st'; clear Hres.
      cbn [atCommands tTBWLast]. eexists. split; [reflexivity|].
      split; [|right; left; reflexivity].
      constructor; [|constructor]. cbn [fst].
      match goal with
      | |- _ < replace_second0 ?x <= _ =>
          pose proof (replace_second0_bounds x) as Hx
      end.
      unfold window, datetime, minutes in *. lia. }
    destruct (_ >? tDRSULast st + hours 6);
      intros Hres; inversion Hres; subst st'; clear Hres;
      cbn [atCommands tTBWLast]; [|exact Hsame].
    rewrite <- app_assoc. apply Hdrsu. }
  destruct (Z.leb_spec (minutes 6) (snd w - fst w)) as [H6|H6].
  { destruct (_ >? tDRSULast st + hours 6);
      intros Hres; inversion Hres; subst st'; clear Hres;
      cbn [atCommands tTBWLast]; [|exact Hsame].
    rewrite <- app_assoc. apply Hdrsu. }
  destruct (Nat.eqb i (n - 1));
    [|intros Hres; inversion Hres; subst; exact Hsame].
  destruct (max_list _) as [last_stop|]; cbn [bind]; [|discriminate].
  match goal with
  | |- context [if ?c then _ else _] => destruct c
  end; intros Hres; inversion Hres; subst st'; clear Hres; [|exact Hsame].
  cbn [atCommands tTBWLast]. eexists. split; [reflexivity|].
  split; [constructor | left; reflexivity].
Qed.

Lemma place_windows_health start run n ws : forall i st st',
  place_windows start run n i ws st = Ok st' ->
  exists new,
    atCommands st' = atCommands st ++ new
    /\ Forall (fun c => exists w : window,
                   In w ws /\ fst w < fst c <= snd w - minutes 6)
              (health_checks new)
    /\ (tTBWLast st' = tTBWLast st
        \/ In (tTBWLast st', acquireHealthCheckAndProcess) new).
Proof.
  induction ws as [|w ws IH]; intros i st st' H; cbn [place_windows] in H.
  - inversion H; subst st'. exists []. rewrite app_nil_r.
    split; [reflexivity|]. split; [constructor | left; reflexivity].
  - destruct (place_window start run n i w st) as [st1|] eqn:Hw;
      cbn [bind] in H; [|discriminate].
    destruct (place_window_health _ _ _ _ _ _ _ Hw)
      as [new1 [Hcmds1 [Hin1 Hlast1]]].
    destruct (IH _ _ _ H) as [new2 [Hcmds2 [Hin2 Hlast2]]].
    exists (new1 ++ new2).
    split; [rewrite Hcmds2, Hcmds1, <- app_assoc; reflexivity|].
    split.
    + rewrite health_checks_app. apply Forall_app. split.
      * eapply Forall_impl; [|exact Hin1]. cbv beta. intros c Hc.
        exists w. split; [left; reflexivity | exact Hc].
      * eapply Forall_impl; [|exact Hin2]. cbv beta.
        intros c [w' [Hw' Hc]]. exists w'. split; [right; exact Hw' | exact Hc].
    + destruct Hlast2 as [Hlast2 | Hlast2].
      * rewrite Hlast2. destruct Hlast1 as [Hlast1 | Hlast1];
          [left; exact Hlast1 | right; apply in_or_app; left; exact Hlast1].
      * right; apply in_or_app; right; exact Hlast2.
Qed.

(** A window of 50 minutes reached when the last health check is more than 4
    hours before its start plus 4 minutes: the loop makes three turns, and the
    first emits the only health check. *)
Lemma fifty_minute_window_when_due start run n i (f0 f1 : datetime) st :
  f1 - f0 = minutes 50 ->
  tTBWLast st + hours 4 < replace_second0 (f0 + minutes 4) ->
  exists st' new,
    place_window start run n i (f0, f1) st = Ok st'
    /\ atCommands st' = atCommands st ++ new
    /\ health_checks new
       = [(replace_second0 (f0 + minutes 4), acquireHealthCheckAndProcess)].
Proof.
  intros Hlen Hdue. unfold place_window. cbv zeta. cbn [fst snd].
  rewrite Hlen. change (minutes 50 >=? minutes 45) with true. cbv iota.
  pose proof (replace_second0_bounds (f0 + minutes 4)) as Ht0.
  set (t0 := replace_second0 (f0 + minutes 4)) in *. clearbody t0.
  assert (Hfuel : maintenance_fuel (f1 - minutes 6) t0 = 3%nat).
  { unfold maintenance_fuel.
    assert (Hq : (f1 - minutes 6 - t0) / minutes 15 = 2).
    { change (minutes 15) with 900000000. unfold minutes in *.
      pose proof (Z.div_mod (f1 - 6 * 60000000 - t0) 900000000 ltac:(lia)).
      pose proof (Z.mod_pos_bound (f1 - 6 * 60000000 - t0) 900000000
                    ltac:(lia)).
      lia. }
    rewrite Hq. reflexivity. }
  rewrite Hfuel.
  destruct ((i =? 0)%nat || (Z.abs (f0 - start) >=? minutes 3));
    repeat (cbn [maintenance_loop atCommands tTBWLast tDRSULast tLWADBLast];
            rewrite ?Z.gtb_ltb; unfold hours, minutes in *;
            match goal with
            | |- context [if hour ?a >=? 8 then _ else _] =>
                destruct (hour a >=? 8)
            | |- context [if ?a <? ?b then _ else _] =>
                destruct (Z.ltb_spec a b);
                try (cbn [tTBWLast tDRSULast tLWADBLast] in *; lia)
            | |- context [if ?a <=? ?b then _ else _] =>
                destruct (Z.leb_spec a b);
                try (cbn [tTBWLast tDRSULast tLWADBLast] in *; lia)
            end);
    (do 2 eexists; split; [reflexivity|]);
    cbn [atCommands]; rewrite <- ?app_assoc;
    (split; [reflexivity|]); reflexivity.
Qed.

Lemma place_window_long start run n i (w : window) st :
  minutes 45 <= snd w - fst w ->
  exists st', place_window start run n i w st = Ok st'.
Proof.
  intros Hlong. unfold place_window. cbv zeta. rewrite Z.geb_leb.
  destruct (Z.leb_spec (minutes 45) (snd w - fst w)); [|lia].
  eexists. reflexivity.
Qed.

Lemma filter_swap {A : Type} (f g : A -> bool) (l : list A) :
  filter f (filter g l) = filter g (filter f l).
Proof.
  induction l as [|a l IH]; [reflexivity|]. cbn [filter].
  destruct (g a) eqn:Hg; destruct (f a) eqn:Hf; cbn [filter];
    rewrite ?Hg, ?Hf, IH; reflexivity.
Qed.

Lemma health_checks_within (w : window) cmds :
  health_checks (within w cmds) = within w (health_checks cmds).
Proof. unfold health_checks, within. apply filter_swap. Qed.

Lemma within_app (w : window) l1 l2 :
  within w (l1 ++ l2) = within w l1 ++ within w l2.
Proof. unfold within. apply filter_app. Qed.

Lemma within_after (w : window) cmds :
  Forall (fun c => snd w < fst c) cmds -> within w cmds = [].
Proof.
  unfold within. induction 1 as [|c cmds Hc _ IH]; [reflexivity|].
  cbn [filter]. destruct (Z.leb_spec (fst c) (snd w)); [lia|].
  rewrite andb_false_r. exact IH.
Qed.

(** C8: a free window of 50 minutes before which the run has placed no health
    check, the lookback starting 12 hours before the nominal start of the
    scheduling window, gets exactly one health check, at its start plus 4
    minutes floored to the minute, and no second one in that window.  The
    first free window of a run is such a window; and when the window is the
    last one the placement returns. *)
Theorem fifty_minute_window_gets_one_health_check
  (orig_start start : datetime) (run : list Scheduled)
  (busyWindows earlier later : list window) (f0 f1 : datetime) :
  f1 - f0 = minutes 50 ->
  orig_start <= f0 ->
  Forall (fun w : window => snd w <= f0) earlier ->
  Forall (fun w : window => f1 <= fst w) later ->
  (later = [] ->
   exists cmds,
     place orig_start start run busyWindows (earlier ++ (f0, f1) :: later)
     = Ok cmds)
  /\ (forall cmds,
        place orig_start start run busyWindows (earlier ++ (f0, f1) :: later)
        = Ok cmds ->
        (forall c, In c (health_checks cmds) -> f0 <= fst c) ->
        health_checks (within (f0, f1) cmds)
        = [(replace_second0 (f0 + minutes 4), acquireHealthCheckAndProcess)])
  /\ (earlier = [] ->
      forall cmds,
        place orig_start start run busyWindows ((f0, f1) :: later) = Ok cmds ->
        health_checks (within (f0, f1) cmds)
        = [(replace_second0 (f0 + minutes 4), acquireHealthCheckAndProcess)]).
Proof.
  intros Hlen Hf0 Hearlier Hlater.
  pose proof (replace_second0_bounds (f0 + minutes 4)) as Ht0.
  assert (Hini : health_checks (ini_commands busyWindows) = []).
  { unfold ini_commands. induction busyWindows as [|b bs IH];
      [reflexivity | exact IH]. }
  (* the window itself, reached with no health check placed before *)
  assert (Hwindow : forall n i st1 st3,
             health_checks (atCommands st1) = [] ->
             tTBWLast st1 = orig_start - hours 12 ->
             place_windows start run n i ((f0, f1) :: later) st1 = Ok st3 ->
             health_checks (within (f0, f1) (atCommands st3))
             = [(replace_second0 (f0 + minutes 4),
                 acquireHealthCheckAndProcess)]).
  { intros n i st1 st3 Hnone Hlast Hrest.
    cbn [place_windows] in Hrest.
    destruct (fifty_minute_window_when_due start run n i f0 f1 st1 Hlen)
      as [st2 [new2 [Hw [Hcmds2 Hhealth2]]]].
    { rewrite Hlast. unfold hours, minutes in *. lia. }
    rewrite Hw in Hrest. cbn [bind] in Hrest.
    destruct (place_windows_health _ _ _ _ _ _ _ Hrest)
      as [new3 [Hcmds3 [Hin3 _]]].
    rewrite health_checks_within, Hcmds3, Hcmds2, !health_checks_app.
    rewrite Hnone, Hhealth2. cbn [app].
    change ((replace_second0 (f0 + minutes 4), acquireHealthCheckAndProcess)
            :: health_checks new3)
      with ([(replace_second0 (f0 + minutes 4), acquireHealthCheckAndProcess)]
            ++ health_checks new3).
    rewrite within_app, (within_after _ (health_checks new3)).
    - unfold within. cbn [filter fst snd app].
      destruct (Z.leb_spec f0 (replace_second0 (f0 + minutes 4)));
        [|unfold minutes in *; lia].
      destruct (Z.leb_spec (replace_second0 (f0 + minutes 4)) f1);
        [reflexivity | unfold minutes in *; lia].
    - eapply Forall_impl; [|exact Hin3]. cbv beta.
      intros c [w' [Hw' Hc]]. cbn [snd].
      rewrite Forall_forall in Hlater. specialize (Hlater w' Hw').
      unfold window, datetime in *. lia. }
  split; [|split].
  - intros ->. unfold place. cbv zeta. rewrite place_windows_app.
    match goal with
    | |- context [place_windows ?a ?b ?c 0 earlier ?st] =>
        destruct (place_windows_not_last a b c earlier 0 st) as [st1 Hst1]
    end.
    { rewrite length_app. simpl. lia. }
    rewrite Hst1. cbn [bind place_windows].
    match goal with
    | |- context [place_window ?a ?b ?c ?d ?e ?f] =>
        destruct (place_window_long a b c d e f) as [st2 Hst2]
    end.
    { cbn [fst snd]. rewrite Hlen. unfold minutes. lia. }
    rewrite Hst2. cbn [bind]. eexists. reflexivity.
  - intros cmds Hplace Hbefore. unfold place in Hplace. cbv zeta in Hplace.
    rewrite place_windows_app in Hplace.
    destruct (place_windows start run _ 0 earlier _) as [st1|] eqn:Hst1;
      cbn [bind] in Hplace; [|discriminate].
    destruct (place_windows start run _ _ ((f0, f1) :: later) st1)
      as [st3|] eqn:Hst3; cbn [bind] in Hplace; [|discriminate].
    inversion Hplace; subst cmds; clear Hplace.
    destruct (place_windows_health _ _ _ _ _ _ _ Hst1)
      as [new1 [Hcmds1 [Hin1 Hlast1]]].
    cbn [atCommands tTBWLast] in Hcmds1, Hlast1.
    assert (Hprefix : exists rest, atCommands st3 = atCommands st1 ++ rest).
    { destruct (place_windows_health _ _ _ _ _ _ _ Hst3) as [rest [Hrest _]].
      exists rest. exact Hrest. }
    destruct Hprefix as [rest Hrest].
    assert (Hnone : health_checks new1 = []).
    { destruct (health_checks new1) as [|c l] eqn:Hnew1; [reflexivity|].
      exfalso. inversion Hin1 as [|? ? [w' [Hw' Hc]] _]; subst.
      rewrite Forall_forall in Hearlier. specialize (Hearlier w' Hw').
      assert (Hc0 : f0 <= fst c).
      { apply Hbefore. rewrite Hrest, Hcmds1, !health_checks_app, Hnew1.
        apply in_or_app. left. apply in_or_app. right. left. reflexivity. }
      unfold window, datetime, minutes in *. lia. }
    refine (Hwindow _ _ st1 st3 _ _ Hst3).
    + rewrite Hcmds1, health_checks_app, Hini, Hnone. reflexivity.
    + destruct Hlast1 as [Hlast1|Hlast1]; [exact Hlast1|]. exfalso.
      assert (Hin : In (tTBWLast st1, acquireHealthCheckAndProcess)
                       (health_checks new1)).
      { unfold health_checks. apply filter_In. split; [exact Hlast1 | reflexivity]. }
      rewrite Hnone in Hin. exact Hin.
  - intros -> cmds Hplace. unfold place in Hplace. cbv zeta in Hplace.
    cbn [app] in Hplace.
    destruct (place_windows start run _ 0 ((f0, f1) :: later) _)
      as [st3|] eqn:Hst3; cbn [bind] in Hplace; [|discriminate].
    inversion Hplace; subst cmds; clear Hplace.
    exact (Hwindow _ _
             (mkPlacement (ini_commands busyWindows) (orig_start - hours 12)
                          (orig_start - hours 12) (orig_start - hours 12))
             st3 Hini eq_refl Hst3).
Qed.

End PlacementProofs.

(** ** The placement on concrete windows *)

Lemma fifty_minute_window_gets_one_health_check_witness :
  exists cmds,
    place day0 win_start [] []
          [(win_start, win_start + minutes 50);
           (win_start + minutes 122, win_start + minutes 172)]
    = Ok cmds
    /\ health_checks (within (win_start, win_start + minutes 50) cmds)
       = [(replace_second0 (win_start + minutes 4),
           acquireHealthCheckAndProcess)].
Proof.
  assert (Hplace : exists cmds,
             place day0 win_start [] []
                   [(win_start, win_start + minutes 50);
                    (win_start + minutes 122, win_start + minutes 172)]
             = Ok cmds) by (eexists; vm_compute; reflexivity).
  destruct Hplace as [cmds Hplace]. exists cmds. split; [exact Hplace|].
  destruct (fifty_minute_window_gets_one_health_check day0 win_start [] [] []
              [(win_start + minutes 122, win_start + minutes 172)]
              win_start (win_start + minutes 50)) as [_ [_ Hfirst]].
  - vm_compute; reflexivity.
  - vm_compute; discriminate.
  - constructor.
  - constructor; [vm_compute; discriminate | constructor].
  - apply Hfirst; [reflexivity | exact Hplace].
Defined.

(** In that run the second window of 50 minutes gets no health check: the one
    of the first window is less than 4 hours back. *)
Lemma later_window_within_the_cooldown :
  exists cmds,
    place day0 win_start [] []
          [(win_start, win_start + minutes 50);
           (win_start + minutes 122, win_start + minutes 172)]
    = Ok cmds
    /\ health_checks cmds
       = [(win_start + minutes 4, acquireHealthCheckAndProcess)].
Proof. eexists. split; vm_compute; reflexivity. Qed.

Lemma short_last_window_without_targets_raises_witness :
  place day0 win_start [] (busy_windows [])
        (free_windows (free_times [] win_start (win_start + minutes 5)))
  = Raise ValueError.
Proof.
  apply (short_last_window_without_targets_raises day0 win_start
           (win_start + minutes 5) []).
  split; vm_compute; [reflexivity | discriminate].
Defined.

(** ** Free and busy windows *)

Section PartitionProofs.
Variable run : list Scheduled.

(** The fuel of the sampling loop is enough. *)
Lemma free_time_loop_fuel fuel : forall block_stop tFree extra,
  (block_stop - tFree) / minutes 2 + 1 <= Z.of_nat fuel ->
  free_time_loop (fuel + extra) run block_stop tFree
  = free_time_loop fuel run block_stop tFree.
Proof.
  induction fuel as [|fuel IH]; intros block_stop tFree extra Hfuel.
  - assert (Hge : block_stop <= tFree).
    { destruct (Z_le_gt_dec block_stop tFree) as [H|H]; [exact H|].
      assert (0 <= (block_stop - tFree) / minutes 2)
        by (apply Z.div_pos; unfold minutes; lia).
      lia. }
    simpl. destruct extra as [|extra]; simpl; [reflexivity|].
    destruct (Z.ltb_spec tFree block_stop); [lia | reflexivity].
  - cbn [Nat.add free_time_loop].
    destruct (tFree <? block_stop); [|reflexivity].
    f_equal. apply IH.
    replace (block_stop - (tFree + minutes 2))
      with ((block_stop - tFree) + (-1) * minutes 2) by lia.
    rewrite Z.div_add by (unfold minutes; lia). lia.
Qed.

Lemma free_time_fuel_enough block_start block_stop extra :
  free_time_loop (free_time_fuel block_start block_stop + extra) run block_stop
                 (block_start + seconds 0)
  = free_times run block_start block_stop.
Proof.
  unfold free_times. apply free_time_loop_fuel.
  unfold free_time_fuel. change (seconds 0) with 0. rewrite Z.add_0_r. lia.
Qed.

Lemma free_time_loop_free fuel : forall block_stop tFree t,
  In t (free_time_loop fuel run block_stop tFree) -> is_free run t = true.
Proof.
  induction fuel as [|fuel IH]; intros block_stop tFree t Ht; simpl in Ht.
  - contradiction.
  - destruct (tFree <? block_stop); [|contradiction].
    apply in_app_or in Ht. destruct Ht as [Ht|Ht]; [|eapply IH; eassumption].
    destruct (is_free run tFree) eqn:Hfree; [|contradiction].
    destruct Ht as [<-|[]]. exact Hfree.
Qed.

Lemma is_free_clear t s :
  is_free run t = true -> In s run ->
  t < fst (guarded s) \/ snd (guarded s) < t.
Proof.
  unfold is_free, guarded. cbn [fst snd]. intros Hfree Hs.
  rewrite forallb_forall in Hfree. specialize (Hfree s Hs). cbv beta in Hfree.
  rewrite Z.gtb_ltb in Hfree.
  destruct (Z.ltb_spec t (fst (final s) - minutes 20)); [left; assumption|].
  destruct (Z.ltb_spec (snd (final s) + minutes 20) t);
    [right; assumption | discriminate].
Qed.

Lemma join_free_apart s (freeTime : list datetime) :
  fst (final s) <= snd (final s) ->
  (forall t, In t freeTime -> t < fst (guarded s) \/ snd (guarded s) < t) ->
  forall st : list window * window,
    Forall (fun w => apart w (guarded s)) (fst st) ->
    apart (snd st) (guarded s) ->
    Forall (fun w => apart w (guarded s))
           (fst (fold_left join_free freeTime st))
    /\ apart (snd (fold_left join_free freeTime st)) (guarded s).
Proof.
  intros Hord. induction freeTime as [|t freeTime IH];
    intros Hclear [before cur] Hbefore Hcur; cbn [fold_left].
  - split; assumption.
  - assert (Ht := Hclear t (or_introl eq_refl)).
    apply IH; [intros; apply Hclear; right; assumption | |];
      unfold join_free;
      destruct (Z.leb_spec (t - snd cur) (seconds 120)); simpl in *.
    + assumption.
    + apply Forall_app; split; [assumption | constructor; [assumption|constructor]].
    + unfold apart, guarded, seconds, minutes in *; simpl in *. lia.
    + unfold apart in *; simpl. lia.
Qed.

Lemma free_windows_apart s (freeTime : list datetime) (fw : window) :
  fst (final s) <= snd (final s) ->
  (forall t, In t freeTime -> t < fst (guarded s) \/ snd (guarded s) < t) ->
  In fw (free_windows freeTime) -> apart fw (guarded s).
Proof.
  intros Hord Hclear Hfw. unfold free_windows in Hfw.
  destruct freeTime as [|t0 rest]; [contradiction|].
  match type of Hfw with
  | context [fold_left join_free ?l ?st0] =>
      destruct (join_free_apart s l Hord Hclear st0) as [Hbefore Hcur];
        [ | | destruct (fold_left join_free l st0) as [before cur] ]
  end.
  - constructor.
  - assert (Ht := Hclear t0 (or_introl eq_refl)).
    unfold apart, guarded in *; cbn [fst snd] in *. lia.
  - apply filter_In in Hfw. destruct Hfw as [Hfw _].
    apply in_app_or in Hfw. destruct Hfw as [Hfw|[<-|[]]]; [|exact Hcur].
    rewrite Forall_forall in Hbefore. apply Hbefore; assumption.
Qed.

Lemma join_busy_covered targets : forall st : list window * window,
  (forall b, In b targets -> In b run) ->
  busy_invariant run st -> busy_invariant run (fold_left join_busy targets st).
Proof.
  induction targets as [|b targets IH]; intros [before cur] Hin Hinv;
    cbn [fold_left]; [exact Hinv|].
  apply IH; [intros; apply Hin; right; assumption|].
  assert (Hb : In b run) by (apply Hin; left; reflexivity).
  destruct Hinv as [Hbefore [Hcur [x [Hx Hstop]]]]; cbn [fst snd] in *.
  unfold join_busy. destruct (final b) as [tSDFStart tSDFStop] eqn:Hfinal.
  match goal with
  | |- context [if ?a <=? ?c then _ else _] =>
      destruct (Z.leb_spec a c) as [Hgap|Hgap]
  end.
  - split; [exact Hbefore|]. split; cbn [fst snd].
    + intros t Ht.
      destruct (Z_le_gt_dec t (snd cur)) as [Hle|Hgt]; [apply Hcur; lia|].
      destruct (Z_le_gt_dec tSDFStart t) as [Hin'|Hout].
      * left. exists b. rewrite Hfinal; cbn [fst snd]. split; [assumption|lia].
      * right. exists x, b. rewrite Hfinal, <- Hstop; cbn [fst snd].
        repeat split; try assumption; lia.
    + destruct (Z.max_spec (snd cur) tSDFStop) as [[_ ->]|[_ ->]].
      * exists b. rewrite Hfinal. split; [assumption | reflexivity].
      * exists x. split; assumption.
  - split; [|split]; cbn [fst snd].
    + apply Forall_app; split; [assumption | constructor; [assumption|constructor]].
    + intros t Ht. left. exists b. rewrite Hfinal. split; assumption.
    + exists b. rewrite Hfinal. split; [assumption | reflexivity].
Qed.

Lemma busy_windows_covered (bw : window) t :
  In bw (busy_windows run) -> fst bw <= t <= snd bw -> covered run t.
Proof.
  unfold busy_windows. destruct run as [|b0 rest] eqn:Hrun; [contradiction|].
  rewrite <- Hrun.
  assert (Hb0 : In b0 run) by (rewrite Hrun; left; reflexivity).
  intros Hbw Ht.
  match type of Hbw with
  | context [fold_left join_busy ?l ?st0] =>
      pose proof (join_busy_covered l st0 (fun _ H => H)) as Hinv;
      destruct (fold_left join_busy l st0) as [before cur]
  end.
  destruct Hinv as [Hbefore [Hcur _]].
  - split; [constructor|]. split; cbn [fst snd].
    + intros u Hu. left. exists b0. split; assumption.
    + exists b0. split; [assumption | reflexivity].
  - cbn [fst snd] in *. apply in_app_or in Hbw.
    destruct Hbw as [Hbw|[<-|[]]]; [|apply Hcur; assumption].
    rewrite Forall_forall in Hbefore. eapply Hbefore; eassumption.
Qed.

(** C5, as the code has it: when no finalized interval is reversed, every free
    window stays clear of every admitted target's finalized interval widened
    by 20 minutes on each side; and a free window that shares an instant with a
    busy window lies in a gap of more than 40 and at most 45 minutes that the
    busy merge has bridged, between the guards of two targets, and is shorter
    than 5 minutes. *)
Theorem free_windows_stay_clear_of_targets (start stop : datetime) :
  (forall s, In s run -> fst (final s) <= snd (final s)) ->
  (forall fw s,
      In fw (free_windows (free_times run start stop)) -> In s run ->
      apart fw (guarded s))
  /\ (forall fw bw t,
        In fw (free_windows (free_times run start stop)) ->
        In bw (busy_windows run) ->
        fst fw <= t <= snd fw -> fst bw <= t <= snd bw ->
        snd fw - fst fw < minutes 5
        /\ exists x y,
             In x run /\ In y run
             /\ snd (guarded x) < fst fw /\ snd fw < fst (guarded y)
             /\ minutes 40 < fst (final y) - snd (final x) <= minutes 45).
Proof.
  intros Hord.
  assert (Hclear : forall fw s,
             In fw (free_windows (free_times run start stop)) -> In s run ->
             apart fw (guarded s)).
  { intros fw s Hfw Hs. eapply free_windows_apart; [apply Hord; exact Hs| |exact Hfw].
    intros t Ht. apply is_free_clear; [|exact Hs].
    eapply free_time_loop_free. exact Ht. }
  split; [exact Hclear|].
  intros fw bw t Hfw Hbw Htf Htb.
  destruct (busy_windows_covered bw t Hbw Htb)
    as [[x [Hx Hin]]|[x [y [Hx [Hy [Hgap Hlen]]]]]].
  - pose proof (Hclear fw x Hfw Hx) as Hap. pose proof (Hord x Hx).
    unfold apart, guarded, minutes in Hap; simpl in Hap. lia.
  - pose proof (Hclear fw x Hfw Hx) as Hax. pose proof (Hclear fw y Hfw Hy) as Hay.
    pose proof (Hord x Hx). pose proof (Hord y Hy).
    unfold apart, guarded, minutes in *; simpl in *.
    split; [lia|]. exists x, y. simpl. repeat split; try assumption; lia.
Qed.

End PartitionProofs.

(** ** The partition on the two-target catalog *)

Lemma gap_run_scheduled :
  @admit_targets gap_ephem win_start win_stop (hours 10) [psr_A; psr_B]
  = Ok (mkAdmission [sched_A; sched_B] (hours 8) (hours 2))
  /\ snd (assign_beams (sort_run [sched_A; sched_B])) = gap_run.
Proof. split; vm_compute; reflexivity. Qed.

Lemma gap_windows :
  In gap_free (free_windows (free_times gap_run win_start win_stop))
  /\ In gap_busy (busy_windows gap_run).
Proof.
  split.
  - vm_compute. right; left; reflexivity.
  - vm_compute. left; reflexivity.
Qed.

(** C5 as it is written fails: with 45 minutes between the two targets the
    busy merge makes one busy window of both, and the two samples between
    their guards make a free window inside it. *)
Lemma free_window_inside_busy_window :
  ~ free_busy_disjoint gap_run win_start win_stop.
Proof.
  intros Hdisjoint.
  apply (Hdisjoint gap_free gap_busy (day0 + minutes 171)).
  - exact (proj1 gap_windows).
  - exact (proj2 gap_windows).
  - unfold inside, gap_free, gap_busy, day0, days, minutes; simpl. lia.
Qed.

Lemma free_windows_stay_clear_of_targets_witness :
  snd gap_free - fst gap_free < minutes 5.
Proof.
  destruct (free_windows_stay_clear_of_targets gap_run win_start win_stop)
    as [_ Hshort].
  - intros s [<-|[<-|[]]]; unfold day0, days, minutes; simpl; lia.
  - destruct (Hshort gap_free gap_busy (day0 + minutes 171)) as [Hlen _].
    + exact (proj1 gap_windows).
    + exact (proj2 gap_windows).
    + unfold gap_free, day0, days, minutes; simpl; lia.
    + unfold gap_busy, day0, days, minutes; simpl; lia.
    + exact Hlen.
Defined.

(** ** The submission phase *)

Section SubmissionProofs.
Context {E : Ephem} {F : Facility}.

Lemma untouched_refl w : untouched w w.
Proof. repeat split. Qed.

Lemma untouched_trans w1 w2 w3 :
  untouched w1 w2 -> untouched w2 w3 -> untouched w1 w3.
Proof.
  unfold untouched. intros [A1 [A2 [A3 [A4 A5]]]] [B1 [B2 [B3 [B4 B5]]]].
  repeat split; congruence.
Qed.

Lemma frames_ret {A} (a : A) : frames (ret a).
Proof. intros w. apply untouched_refl. Qed.

Lemma frames_lift {A} (r : result A) : frames (lift r).
Proof. intros w. unfold lift. destruct r; apply untouched_refl. Qed.

Lemma frames_bind {A B} (m : M A) (k : A -> M B) :
  frames m -> (forall a, frames (k a)) -> frames (mbind m k).
Proof.
  intros Hm Hk w. unfold mbind. specialize (Hm w).
  destruct (m w) as [[a|status|e] w']; simpl in *; try assumption.
  eapply untouched_trans; [exact Hm | apply Hk].
Qed.

Lemma frames_when c (m : M unit) : frames m -> frames (when c m).
Proof. intros Hm. unfold when. destruct c; [exact Hm | apply frames_ret]. Qed.

Lemma frames_read_catalog : frames read_catalog.
Proof. intros w. apply untouched_refl. Qed.

Lemma frames_read_state : frames read_state.
Proof. intros w. apply untouched_refl. Qed.

Lemma frames_make_sdf_dir d : frames (make_sdf_dir d).
Proof.
  intros w. unfold make_sdf_dir; simpl.
  destruct (existsb (Z.eqb d) (sdf_dirs w)); repeat split.
Qed.

Lemma frames_write_sdf filename sdf : frames (write_sdf filename sdf).
Proof. intros w. repeat split. Qed.

Lemma frames_build_beams args s bs : forall b acc,
  frames (build_beams args s b bs acc).
Proof.
  induction bs as [|beam bs IH]; intros b [[session_id fileids] filenames];
    cbn [build_beams].
  - apply frames_ret.
  - apply frames_bind; [|intros acc'; apply IH].
    destruct (negb (dry_run args)); [|apply frames_ret].
    apply frames_bind; [apply frames_write_sdf | intros _; apply frames_ret].
Qed.

Lemma frames_build_observations args run : forall acc,
  frames (build_observations args run acc).
Proof.
  induction run as [|s run IH]; intros acc; cbn [build_observations].
  - apply frames_ret.
  - apply frames_bind; [apply frames_build_beams | intros acc'; apply IH].
Qed.

(** Scheduling and writing the SDFs touches the SDF directory and files only. *)
Lemma frames_plan_and_build args : frames (plan_and_build args).
Proof.
  unfold plan_and_build.
  apply frames_bind; [apply frames_read_catalog | intros bdys].
  apply frames_bind; [apply frames_lift | intros adm].
  apply frames_bind; [apply frames_read_state | intros session_id].
  apply frames_bind; [apply frames_when, frames_make_sdf_dir | intros _].
  apply frames_bind; [apply frames_build_observations|].
  intros [[session_id' fileids] filenames]. apply frames_ret.
Qed.

Lemma ids_from_app sid n m :
  ids_from sid (n + m) = ids_from sid n ++ ids_from (sid + Z.of_nat n) m.
Proof.
  revert sid. induction n as [|n IH]; intros sid.
  - simpl. rewrite Z.add_0_r. reflexivity.
  - cbn [Nat.add ids_from app]. rewrite IH. f_equal. f_equal. f_equal. lia.
Qed.

Lemma build_beams_names args s bs :
  dry_run args = false ->
  forall b session_id fileids filenames w,
  exists names w',
    build_beams args s b bs (session_id, fileids, filenames) w
    = (Ret (session_id + Z.of_nat (List.length bs),
            fileids ++ ids_from session_id (List.length bs),
            filenames ++ names), w')
    /\ map sdf_session names = ids_from session_id (List.length bs)
    /\ map sdf_beam names = bs
    /\ map fst (sdf_files w') = map fst (sdf_files w) ++ names.
Proof.
  intros Hdry. induction bs as [|beam bs IH];
    intros b session_id fileids filenames w; cbn [build_beams].
  - exists [], w. cbn [List.length ids_from map]. rewrite !app_nil_r, Z.add_0_r.
    repeat split.
  - rewrite Hdry. cbn [negb].
    unfold mbind at 1. unfold mbind at 1. unfold write_sdf at 1. unfold ret at 1.
    cbn [fst snd].
    match goal with
    | |- context [build_beams args s (S b) bs (?sid', ?fids', ?fns') ?w1] =>
        destruct (IH (S b) sid' fids' fns' w1)
          as [names [w' [Hrun [Hids [Hbeams Hfiles]]]]]
    end.
    exists (mkSdfName (fst (final s)) session_id beam :: names), w'.
    rewrite Hrun. cbn [List.length ids_from map sdf_session sdf_beam].
    rewrite Hids, Hbeams, Hfiles. cbn [sdf_files].
    rewrite map_app, <- !app_assoc. cbn [map fst app].
    replace (session_id + Z.of_nat (S (List.length bs)))
      with (session_id + 1 + Z.of_nat (List.length bs)) by lia.
    repeat split.
Qed.

Lemma build_observations_names args run :
  dry_run args = false ->
  forall session_id fileids filenames w,
  exists names w',
    build_observations args run (session_id, fileids, filenames) w
    = (Ret (session_id + Z.of_nat (List.length (flat_map beams run)),
            fileids ++ ids_from session_id (List.length (flat_map beams run)),
            filenames ++ names), w')
    /\ map sdf_session names
       = ids_from session_id (List.length (flat_map beams run))
    /\ map sdf_beam names = flat_map beams run
    /\ map fst (sdf_files w') = map fst (sdf_files w) ++ names.
Proof.
  intros Hdry. induction run as [|s run IH];
    intros session_id fileids filenames w; cbn [build_observations flat_map].
  - exists [], w. cbn [List.length ids_from map]. rewrite !app_nil_r, Z.add_0_r.
    repeat split.
  - unfold mbind at 1.
    destruct (build_beams_names args s (beams s) Hdry 0%nat session_id fileids
                                filenames w)
      as [names1 [w1 [Hrun1 [Hids1 [Hbeams1 Hfiles1]]]]].
    rewrite Hrun1.
    destruct (IH (session_id + Z.of_nat (List.length (beams s)))
                 (fileids ++ ids_from session_id (List.length (beams s)))
                 (filenames ++ names1) w1)
      as [names2 [w2 [Hrun2 [Hids2 [Hbeams2 Hfiles2]]]]].
    exists (names1 ++ names2), w2.
    rewrite Hrun2, length_app, ids_from_app, !map_app.
    rewrite Hids1, Hids2, Hbeams1, Hbeams2, Hfiles2, Hfiles1.
    rewrite Nat2Z.inj_add, <- !app_assoc.
    replace (session_id + (Z.of_nat (List.length (beams s))
                           + Z.of_nat (List.length (flat_map beams run))))
      with (session_id + Z.of_nat (List.length (beams s))
            + Z.of_nat (List.length (flat_map beams run))) by lia.
    repeat split.
Qed.

(** The SDF files of a run that is not dry are those the plan names, added
    after the files already there. *)
Lemma plan_and_build_files args w p w1 :
  plan_and_build args w = (Ret p, w1) ->
  dry_run args = false ->
  map fst (sdf_files w1) = map fst (sdf_files w) ++ plan_filenames p.
Proof.
  intros Hplan Hdry. unfold plan_and_build in Hplan.
  unfold mbind at 1 in Hplan. unfold read_catalog at 1 in Hplan.
  unfold mbind at 1 in Hplan.
  destruct (admit_loop _ _ _ _) as [adm|e]; unfold lift at 1 in Hplan;
    [|discriminate].
  unfold mbind at 1 in Hplan. unfold read_state at 1 in Hplan.
  unfold mbind at 1 in Hplan. rewrite Hdry in Hplan.
  unfold when, make_sdf_dir in Hplan. cbn [negb] in Hplan.
  unfold mbind at 1 in Hplan.
  match type of Hplan with
  | context [build_observations args ?run (?sid, [], []) ?w0] =>
      destruct (build_observations_names args run Hdry sid [] [] w0)
        as [names [w' [Hrun [_ [_ Hfiles]]]]]
  end.
  rewrite Hrun in Hplan. unfold ret in Hplan.
  inversion Hplan; subst p w1; clear Hplan.
  cbn [plan_filenames app]. rewrite Hfiles.
  destruct (existsb _ (sdf_dirs w)); reflexivity.
Qed.

(** C9: when the SDFs have been written and the submission reports failure,
    the run ends at once with exit status 1, and the session-id state, the
    catalog with the last-observed days of its targets, its backup, the queue
    of at-commands and the log are as they were before the run; the SDF files
    written for the submission stay on disk, after those that were there. *)
Theorem failed_submission_exits_and_commits_nothing
  (args : Args) (w : World) (p : Plan) (w1 : World) :
  plan_and_build args w = (Ret p, w1) ->
  dry_run args = false ->
  plan_filenames p <> [] ->
  schedule_sdfs (plan_filenames p) = false ->
  main args w = (Exit 1, w1)
  /\ state_file w1 = state_file w
  /\ catalog_file w1 = catalog_file w
  /\ catalog_old w1 = catalog_old w
  /\ at_queue w1 = at_queue w
  /\ runtime_log w1 = runtime_log w
  /\ map fst (sdf_files w1) = map fst (sdf_files w) ++ plan_filenames p.
Proof.
  intros Hplan Hdry Hnames Hfail. split.
  - unfold main, mbind at 1. rewrite Hplan.
    unfold submit_and_commit, mbind at 1, when. rewrite Hdry, Hfail.
    destruct (plan_filenames p) as [|f fs]; [contradiction|]. reflexivity.
  - pose proof (frames_plan_and_build args w) as Hframe.
    rewrite Hplan in Hframe.
    destruct Hframe as [Hstate [Hcat [Hold [Hqueue Hlog]]]].
    cbn [snd] in *. repeat (split; [assumption|]).
    exact (plan_and_build_files args w p w1 Hplan Hdry).
Qed.

End SubmissionProofs.

(** ** The submission on the two-target catalog *)

Lemma failed_submission_exits_and_commits_nothing_witness :
  fst (@main gap_ephem (test_facility (hours 10) false) args0 world0) = Exit 1
  /\ state_file
       (snd (@main gap_ephem (test_facility (hours 10) false) args0 world0))
     = None
  /\ at_queue
       (snd (@main gap_ephem (test_facility (hours 10) false) args0 world0))
     = [].
Proof.
  assert (Hplan : exists p w1,
             @plan_and_build gap_ephem (test_facility (hours 10) false)
                             args0 world0 = (Ret p, w1)
             /\ plan_filenames p <> []).
  { vm_compute. do 2 eexists. split; [reflexivity | discriminate]. }
  destruct Hplan as [p [w1 [Hplan Hnames]]].
  destruct (@failed_submission_exits_and_commits_nothing gap_ephem
              (test_facility (hours 10) false) args0 world0 p w1
              Hplan eq_refl Hnames eq_refl)
    as [Hmain [Hstate [_ [_ [Hqueue _]]]]].
  rewrite Hmain. simpl. rewrite Hstate, Hqueue. repeat split.
Defined.

(** The failed submission of the two-target catalog leaves behind what it
    wrote before submitting, the directory of the day and the four SDF files:
    the world is not as the run found it. *)
Lemma failed_submission_leaves_the_sdf_files :
  let out := @main gap_ephem (test_facility (hours 10) false) args0 world0 in
  fst out = Exit 1
  /\ sdf_dirs world0 = [] /\ sdf_files world0 = []
  /\ sdf_dirs (snd out) = [60000]
  /\ map (fun f => (sdf_session (fst f), sdf_beam (fst f))) (sdf_files (snd out))
     = [(1, 2); (2, 3); (3, 2); (4, 4)]
  /\ snd out <> world0.
Proof.
  vm_compute. repeat split. discriminate.
Qed.

(** * Further properties of the run *)

(** ** [Pulsar.get_start_stop] and [Pulsar.can_run] *)

Section ObservationInterval.
Context {E : Ephem}.
Variables start stop : datetime.

(** X4: the transit is truncated to the whole second, never rounded up, since
    the microsecond of a datetime stays below the 5000000 of the rounding
    test; the interval is centred on that second, half the duration on each
    side, and the padding adds 5 seconds on each side. *)
Theorem transit_is_truncated_to_the_second p T :
  next_transit start p = Some T ->
  get_start_stop p start stop false
  = Ok (replace_microsecond0 T - half_seconds (duration p),
        replace_microsecond0 T + half_seconds (duration p))
  /\ get_start_stop p start stop true
     = Ok (replace_microsecond0 T - half_seconds (duration p) - seconds 5,
           replace_microsecond0 T + half_seconds (duration p) + seconds 5)
  /\ replace_microsecond0 T <= T < replace_microsecond0 T + seconds 1.
Proof.
  intros HT. unfold get_start_stop. rewrite HT, half_seconds_padding.
  assert (Hus : 0 <= microsecond T < 1000000)
    by (unfold microsecond; apply Z.mod_pos_bound; lia).
  rewrite Z.geb_leb. destruct (Z.leb_spec 5000000 (microsecond T)); [lia|].
  repeat split; unfold replace_microsecond0, seconds, microsecond in *; lia.
Qed.

(** X5: a target can run exactly when it transits and its padded interval
    lies in the window; a target that is never up cannot run, nor one whose
    duration with the 10 seconds of padding is longer than the window. *)
Theorem can_run_iff_padded_interval_fits p :
  (can_run p start stop = true
   <-> exists T,
         next_transit start p = Some T
         /\ start <= replace_microsecond0 T - half_seconds (duration p)
                     - seconds 5
         /\ replace_microsecond0 T + half_seconds (duration p) + seconds 5
            <= stop)
  /\ (next_transit start p = None -> can_run p start stop = false)
  /\ (stop - start < 2 * half_seconds (duration p) + seconds 10 ->
      can_run p start stop = false).
Proof.
  assert (Hiff : can_run p start stop = true
     <-> exists T,
         next_transit start p = Some T
         /\ start <= replace_microsecond0 T - half_seconds (duration p)
                     - seconds 5
         /\ replace_microsecond0 T + half_seconds (duration p) + seconds 5
            <= stop).
  { unfold can_run. destruct (next_transit start p) as [T|] eqn:HT.
    - destruct (transit_is_truncated_to_the_second p T HT) as [_ [Hpad _]].
      rewrite Hpad. split.
      + intros H. exists T. split; [reflexivity|].
        rewrite Z.geb_leb in H. zbool; try discriminate; lia.
      + intros [T' [HT' [H1 H2]]]. inversion HT'; subst T'.
        rewrite Z.geb_leb. zbool; try reflexivity; lia.
    - unfold get_start_stop. rewrite HT. split; [discriminate|].
      intros [T [HT' _]]. discriminate. }
  split; [exact Hiff|]. split.
  - intros HT. destruct (can_run p start stop) eqn:Hc; [|reflexivity].
    destruct (proj1 Hiff eq_refl) as [T [HT' _]]. congruence.
  - intros Hlen. destruct (can_run p start stop) eqn:Hc; [|reflexivity].
    destruct (proj1 Hiff eq_refl) as [T [_ [H1 H2]]].
    unfold seconds in *. lia.
Qed.

End ObservationInterval.

Lemma transit_is_truncated_to_the_second_witness :
  @get_start_stop late_ephem psr_A win_start win_stop false
  = Ok (day0 + minutes 90, day0 + minutes 150).
Proof.
  destruct (@transit_is_truncated_to_the_second late_ephem win_start win_stop
              psr_A (day0 + hours 2 + 900000) eq_refl) as [Hfinal _].
  rewrite Hfinal. vm_compute. reflexivity.
Defined.

Lemma can_run_iff_padded_interval_fits_witness :
  @can_run gap_ephem psr_A win_start (win_start + minutes 30) = false.
Proof.
  destruct (@can_run_iff_padded_interval_fits gap_ephem win_start
              (win_start + minutes 30) psr_A) as [_ [_ Hshort]].
  apply Hshort. vm_compute. reflexivity.
Defined.

(** ** More on the admission loop *)

Section AdmissionAccounts.
Context {E : Ephem}.
Variables start stop : datetime.

(** X2: every admitted target lies in the window with its padding: the window
    start is at most 5 seconds before its finalized start, and its finalized
    stop at least 5 seconds before the window stop. *)
Theorem admitted_targets_lie_in_the_window rec_secs bdys :
  exists adm,
    admit_targets start stop rec_secs bdys = Ok adm
    /\ forall s, In s (bdys_run adm) ->
         start + seconds 5 <= fst (final s)
         /\ snd (final s) + seconds 5 <= stop.
Proof.
  unfold admit_targets.
  destruct (admit_loop_invariant start stop
              (fun st => forall s, In s (bdys_run st) ->
                                   start + seconds 5 <= fst (final s)
                                   /\ snd (final s) + seconds 5 <= stop)
              (sort_bdys start bdys)) with (st := mkAdmission [] rec_secs 0)
    as [adm [Hadm [_ Hin]]].
  - intros st b fin _ _ HP Hfin _ _ Hcan _ s Hs; simpl in Hs.
    apply in_app_or in Hs. destruct Hs as [Hs|[<-|[]]]; [apply HP; exact Hs|].
    simpl. destruct (can_run_ok start stop b Hcan) as [css [Hcss [H1 H2]]].
    rewrite (get_start_stop_padded start stop b fin Hfin) in Hcss.
    inversion Hcss; subst css. unfold padded in *; simpl in *. lia.
  - apply consistent_nil.
  - intros s [].
  - exists adm; split; assumption.
Qed.

Lemma admit_loop_subseq bdys : forall st st',
  admit_loop start stop st bdys = Ok st' ->
  exists added,
    bdys_run st' = bdys_run st ++ added /\ subseq (map bdy added) bdys.
Proof.
  induction bdys as [|b bdys IH]; intros st st' Hloop; simpl in Hloop.
  - inversion Hloop; subst. exists []. rewrite app_nil_r.
    split; [reflexivity | constructor].
  - destruct (admit_step start stop st b) as [st1|] eqn:Hstep; simpl in Hloop;
      [|discriminate].
    destruct (IH st1 st' Hloop) as [added [Hrun Hsub]].
    destruct (admit_step_result start stop st b st1 Hstep)
      as [->|[_ [_ [fin ->]]]].
    + exists added. split; [exact Hrun | constructor; exact Hsub].
    + simpl in Hrun. rewrite <- app_assoc in Hrun.
      exists (mkScheduled b fin [] :: added). split; [exact Hrun|].
      simpl. apply subseq_take. exact Hsub.
Qed.

(** X3: the loop takes the catalog oldest last-observed day first, and admits
    in that order: the list it walks is the catalog sorted on the
    last-observed day, and the admitted targets are that list with the
    rejected ones left out. *)
Theorem admission_follows_the_observability_rank rec_secs bdys :
  Permutation bdys (sort_bdys start bdys)
  /\ StronglySorted (fun a b => last_mjd a <= last_mjd b) (sort_bdys start bdys)
  /\ exists adm,
       admit_targets start stop rec_secs bdys = Ok adm
       /\ subseq (map bdy (bdys_run adm)) (sort_bdys start bdys).
Proof.
  split; [apply sorted_perm|]. split.
  - unfold sort_bdys.
    pose proof (sort_key_sorted (fun x => last_mjd x - fst (dt2mjd start)) bdys)
      as Hsorted.
    induction Hsorted as [|a l Hl IH Ha]; constructor; [exact IH|].
    rewrite Forall_forall in *. intros x Hx. specialize (Ha x Hx). lia.
  - destruct (admit_total start stop rec_secs bdys) as [adm [Hadm _]].
    exists adm. split; [exact Hadm|]. unfold admit_targets in Hadm.
    destruct (admit_loop_subseq _ _ _ Hadm) as [added [Hrun Hsub]].
    simpl in Hrun. rewrite Hrun. exact Hsub.
Qed.

End AdmissionAccounts.

Lemma admitted_targets_lie_in_the_window_witness :
  win_start + seconds 5 <= fst (final sched_B)
  /\ snd (final sched_B) + seconds 5 <= win_stop.
Proof.
  destruct (@admitted_targets_lie_in_the_window gap_ephem win_start win_stop
              (hours 10) [psr_A; psr_B]) as [adm [Hadm Hin]].
  rewrite (proj1 gap_run_scheduled) in Hadm. inversion Hadm as [Heq].
  apply Hin. rewrite <- Heq. right; left; reflexivity.
Defined.

(** ** More on the free and busy windows *)

Section ListOrder.
Context {A : Type} (R : A -> A -> Prop).

Lemma StronglySorted_snoc l x :
  StronglySorted R l -> Forall (fun a => R a x) l ->
  StronglySorted R (l ++ [x]).
Proof.
  induction 1 as [|a l Hl IH Ha]; intros Hx; simpl.
  - constructor; constructor.
  - inversion Hx; subst. constructor; [apply IH; assumption|].
    apply Forall_app; split; [assumption | constructor; [assumption|constructor]].
Qed.

Lemma StronglySorted_filter f l :
  StronglySorted R l -> StronglySorted R (filter f l).
Proof.
  induction 1 as [|a l Hl IH Ha]; simpl; [constructor|].
  destruct (f a); [|exact IH].
  constructor; [exact IH|].
  rewrite Forall_forall in *. intros x Hx. apply filter_In in Hx.
  apply Ha. tauto.
Qed.

End ListOrder.

Section WindowOrder.
Variable run : list Scheduled.

Lemma free_time_loop_sorted fuel : forall block_stop tFree,
  StronglySorted Z.lt (free_time_loop fuel run block_stop tFree)
  /\ Forall (fun t => tFree <= t < block_stop /\ is_free run t = true)
            (free_time_loop fuel run block_stop tFree).
Proof.
  induction fuel as [|fuel IH]; intros block_stop tFree;
    cbn [free_time_loop].
  - split; constructor.
  - destruct (Z.ltb_spec tFree block_stop) as [Hlt|Hge]; [|split; constructor].
    destruct (IH block_stop (tFree + minutes 2)) as [Hsorted Hall].
    assert (Hall' : forall t,
               In t (free_time_loop fuel run block_stop (tFree + minutes 2)) ->
               tFree < t /\ (tFree <= t < block_stop /\ is_free run t = true)).
    { rewrite Forall_forall in Hall. intros t Ht.
      destruct (Hall t Ht) as [Hb Hf]. unfold minutes in Hb.
      repeat split; try assumption; lia. }
    destruct (is_free run tFree) eqn:Hfree; cbn [app].
    + split; constructor.
      * exact Hsorted.
      * rewrite Forall_forall. intros t Ht. apply Hall'; exact Ht.
      * repeat split; try assumption; lia.
      * rewrite Forall_forall. intros t Ht. apply Hall'; exact Ht.
    + split; [exact Hsorted|].
      rewrite Forall_forall. intros t Ht. apply Hall'; exact Ht.
Qed.

(** What the joining of samples keeps true, for a property [P] of the
    samples. *)
Lemma join_free_ordered (P : datetime -> Prop) (freeTime : list datetime) :
  forall st : list window * window,
    StronglySorted Z.lt freeTime ->
    Forall (fun t => snd (snd st) <= t /\ P t) freeTime ->
    StronglySorted (separated (seconds 120)) (fst st) ->
    Forall (fun w : window => separated (seconds 120) w (snd st)) (fst st) ->
    Forall (fun w : window => fst w <= snd w /\ P (fst w) /\ P (snd w))
           (snd st :: fst st) ->
    let st' := fold_left join_free freeTime st in
    StronglySorted (separated (seconds 120)) (fst st' ++ [snd st'])
    /\ Forall (fun w : window => fst w <= snd w /\ P (fst w) /\ P (snd w))
              (fst st' ++ [snd st']).
Proof.
  induction freeTime as [|t freeTime IH];
    intros [before cur] Hsorted Hge Hbefore Hsep Hwf; cbn [fold_left].
  - cbn [fst snd] in *. split.
    + apply StronglySorted_snoc; assumption.
    + inversion Hwf; subst. apply Forall_app; split;
        [assumption | constructor; [assumption | constructor]].
  - inversion Hsorted as [|? ? Hrest Hlt]; subst.
    inversion Hge as [|? ? [Hcur Pt] Hge']; subst.
    inversion Hwf as [|? ? [Hc [Pc0 Pc1]] Hwfb]; subst.
    cbn [fst snd] in *.
    apply IH; clear IH; try assumption; unfold join_free;
      destruct (Z.leb_spec (t - snd cur) (seconds 120)) as [Hnear|Hfar];
      cbn [fst snd].
    + rewrite Forall_forall in *. intros u Hu.
      split; [specialize (Hlt u Hu); lia | apply Hge'; exact Hu].
    + rewrite Forall_forall in *. intros u Hu.
      split; [specialize (Hlt u Hu); lia | apply Hge'; exact Hu].
    + assumption.
    + apply StronglySorted_snoc; assumption.
    + exact Hsep.
    + apply Forall_app; split.
      * rewrite Forall_forall in *. intros w Hw. specialize (Hsep w Hw).
        unfold separated, seconds, minutes in *; cbn [fst snd] in *. lia.
      * constructor; [|constructor]. unfold separated, seconds, minutes in *; cbn [fst snd]. lia.
    + constructor; [|assumption]. cbn [fst snd]. repeat split; try assumption.
      lia.
    + constructor; [cbn [fst snd]; repeat split; try assumption; lia|].
      apply Forall_app; split;
        [assumption | constructor; [repeat split; assumption | constructor]].
Qed.

(** X7: the free windows come in chronological order with more than 120
    seconds between one and the next; each has a positive length, starts at
    or after the window start, ends before the window stop, and starts and
    ends on a free sample. *)
Theorem free_windows_are_ordered_and_apart (start stop : datetime) :
  StronglySorted (separated (seconds 120))
                 (free_windows (free_times run start stop))
  /\ Forall (fun w : window => start <= fst w /\ fst w < snd w /\ snd w < stop
                      /\ is_free run (fst w) = true
                      /\ is_free run (snd w) = true)
            (free_windows (free_times run start stop)).
Proof.
  unfold free_times.
  destruct (free_time_loop_sorted (free_time_fuel start stop) stop
                                  (start + seconds 0)) as [Hsorted Hall].
  set (P := fun t => start <= t < stop /\ is_free run t = true).
  assert (HP : Forall P (free_time_loop (free_time_fuel start stop) run stop
                                        (start + seconds 0))).
  { rewrite Forall_forall in *. intros t Ht. specialize (Hall t Ht).
    unfold P, seconds in *. split; [lia | tauto]. }
  clear Hall.
  destruct (free_time_loop (free_time_fuel start stop) run stop
                           (start + seconds 0)) as [|t0 rest] eqn:Hloop.
  - split; constructor.
  - unfold free_windows.
    match goal with
    | |- context [fold_left join_free ?l ?st0] =>
        pose proof (join_free_ordered P l st0 Hsorted) as Hjoin;
        destruct (fold_left join_free l st0) as [before cur]
    end.
    cbn [fst snd] in Hjoin.
    destruct Hjoin as [Hsep Hwf].
    + inversion Hsorted as [|? ? _ Hlt]; subst.
      inversion HP as [|? ? Pt0 Prest]; subst.
      constructor; [split; [cbn [fst snd]; lia | exact Pt0]|].
      rewrite Forall_forall in *. intros t Ht. cbn [fst snd].
      split; [specialize (Hlt t Ht); lia | apply Prest; exact Ht].
    + constructor.
    + constructor.
    + pose proof (Forall_inv HP) as Pt0. constructor; [|constructor].
      cbn [fst snd]. split; [lia | split; exact Pt0].
    + split; [apply StronglySorted_filter; exact Hsep|].
      rewrite Forall_forall in *. intros w Hw. apply filter_In in Hw.
      destruct Hw as [Hw Hpos]. destruct (Hwf w Hw) as [_ [[H0 F0] [H1 F1]]].
      rewrite Z.gtb_ltb in Hpos. apply Z.ltb_lt in Hpos.
      unfold datetime in *.
      split; [lia|]. split; [lia|]. split; [lia|]. split; assumption.
Qed.

Lemma join_busy_ordered (targets : list Scheduled) :
  forall st : list window * window,
    (forall s, In s targets -> fst (final s) <= snd (final s)) ->
    StronglySorted (separated (minutes 45)) (fst st) ->
    Forall (fun w : window => separated (minutes 45) w (snd st)) (fst st) ->
    Forall (fun w : window => fst w <= snd w) (snd st :: fst st) ->
    let st' := fold_left join_busy targets st in
    StronglySorted (separated (minutes 45)) (fst st' ++ [snd st'])
    /\ Forall (fun w : window => fst w <= snd w) (fst st' ++ [snd st']).
Proof.
  induction targets as [|b targets IH];
    intros [before cur] Hord Hbefore Hsep Hwf; cbn [fold_left].
  - cbn [fst snd] in *. split.
    + apply StronglySorted_snoc; assumption.
    + inversion Hwf; subst. apply Forall_app; split;
        [assumption | constructor; [assumption | constructor]].
  - assert (Hb := Hord b (or_introl eq_refl)).
    inversion Hwf as [|? ? Hc Hwfb]; subst. cbn [fst snd] in *.
    apply IH; clear IH; [intros; apply Hord; right; assumption | | |];
      unfold join_busy; destruct (final b) as [tSDFStart tSDFStop];
      cbn [fst snd] in *;
      match goal with
      | |- context [if ?x <=? ?y then _ else _] =>
          destruct (Z.leb_spec x y) as [Hnear|Hfar]
      end; cbn [fst snd].
    + assumption.
    + apply StronglySorted_snoc; assumption.
    + exact Hsep.
    + apply Forall_app; split.
      * rewrite Forall_forall in *. intros w Hw. specialize (Hsep w Hw).
        unfold separated, seconds, minutes in *; cbn [fst snd] in *. lia.
      * constructor; [|constructor]. unfold separated, seconds, minutes in *; cbn [fst snd]. lia.
    + constructor; [cbn [fst snd]; lia | assumption].
    + constructor; [cbn [fst snd]; lia|].
      apply Forall_app; split;
        [assumption | constructor; [assumption | constructor]].
Qed.

(** X8: when no finalized interval is reversed, the busy windows come in
    chronological order with more than 45 minutes between one and the next,
    and none of them is reversed. *)
Theorem busy_windows_are_ordered_and_apart :
  (forall s, In s run -> fst (final s) <= snd (final s)) ->
  StronglySorted (separated (minutes 45)) (busy_windows run)
  /\ Forall (fun w : window => fst w <= snd w) (busy_windows run).
Proof.
  intros Hord. unfold busy_windows.
  destruct run as [|b0 rest] eqn:Hrun; [split; constructor|].
  match goal with
  | |- context [fold_left join_busy ?l ?st0] =>
      pose proof (join_busy_ordered l st0 Hord) as Hjoin;
      destruct (fold_left join_busy l st0) as [before cur]
  end.
  cbn [fst snd] in Hjoin. apply Hjoin.
  - constructor.
  - constructor.
  - constructor; [|constructor]. apply Hord. left; reflexivity.
Qed.

End WindowOrder.

Lemma busy_windows_are_ordered_and_apart_witness :
  StronglySorted (separated (minutes 45)) (busy_windows gap_run).
Proof.
  apply (busy_windows_are_ordered_and_apart gap_run).
  intros s [<-|[<-|[]]]; unfold day0, days, minutes; simpl; lia.
Defined.

Section BusyCover.

Lemma assign_beams_finals run :
  map final (snd (assign_beams run)) = map final run.
Proof.
  induction run as [|s run IH] using rev_ind; [reflexivity|].
  destruct (assign_beams_shape run) as [a [b [c [done [Heq _]]]]].
  rewrite assign_beams_snoc. rewrite Heq in *.
  destruct (assign_step_three a b c done s)
    as [b0 [b1 [a' [b' [c' [Hstep _]]]]]].
  rewrite Hstep. cbn [snd] in *. rewrite !map_app, IH. reflexivity.
Qed.

Lemma sorted_on_starts (l : list Scheduled) :
  StronglySorted (fun a b => fst (final a) <= fst (final b)) l
  <-> StronglySorted (fun x y : window => fst x <= fst y) (map final l).
Proof.
  induction l as [|s l IH]; simpl.
  - split; constructor.
  - split; intros H; inversion H as [|? ? Hl Hs]; subst;
      (constructor; [apply IH; exact Hl|]).
    + rewrite Forall_forall in *. intros x Hx. apply in_map_iff in Hx.
      destruct Hx as [y [<- Hy]]. apply Hs; exact Hy.
    + rewrite Forall_forall in *. intros y Hy. apply Hs.
      apply in_map. exact Hy.
Qed.

Lemma join_busy_holds (targets : list Scheduled) :
  forall st : list window * window,
    StronglySorted (fun a b => fst (final a) <= fst (final b)) targets ->
    (forall b, In b targets -> fst (snd st) <= fst (final b)) ->
    forall s, In s targets \/ held_by st s ->
              held_by (fold_left join_busy targets st) s.
Proof.
  induction targets as [|b targets IH];
    intros [before cur] Hsorted Hfirst s Hs; cbn [fold_left].
  - destruct Hs as [[]|Hs]; exact Hs.
  - inversion Hsorted as [|? ? Hrest Hb]; subst.
    assert (Hcur := Hfirst b (or_introl eq_refl)). cbn [fst snd] in *.
    assert (Hstep : (forall x, In x targets ->
                       fst (snd (join_busy (before, cur) b)) <= fst (final x))
                    /\ held_by (join_busy (before, cur) b) b
                    /\ (held_by (before, cur) s ->
                        held_by (join_busy (before, cur) b) s)).
    { unfold join_busy, held_by, holds.
      destruct (final b) as [tSDFStart tSDFStop] eqn:Hfinal.
      rewrite ?Hfinal in Hcur. cbn [fst snd] in *.
      match goal with
      | |- context [if ?x <=? ?y then _ else _] =>
          destruct (Z.leb_spec x y) as [Hnear|Hfar]
      end; cbn [fst snd].
      - split; [intros x Hx; apply Hfirst; right; exact Hx|]. split.
        + exists (fst cur, Z.max (snd cur) tSDFStop). split.
          * apply in_or_app. right. left. reflexivity.
          * cbn [fst snd]. unfold datetime in *. lia.
        + intros [w [Hw [H1 H2]]]. apply in_app_or in Hw.
          destruct Hw as [Hw|[<-|[]]].
          * exists w. split; [apply in_or_app; left; exact Hw | split; assumption].
          * exists (fst cur, Z.max (snd cur) tSDFStop). split.
            -- apply in_or_app. right. left. reflexivity.
            -- cbn [fst snd]. unfold datetime in *. lia.
      - split.
        { intros x Hx. rewrite Forall_forall in Hb. specialize (Hb x Hx).
          rewrite ?Hfinal in Hb. exact Hb. }
        split.
        + exists (tSDFStart, tSDFStop). split.
          * apply in_or_app. right. left. reflexivity.
          * cbn [fst snd]. unfold datetime in *. lia.
        + intros [w [Hw [H1 H2]]]. exists w. split; [|split; assumption].
          apply in_or_app. left. exact Hw. }
    destruct Hstep as [Hfirst' [Hheld Hkeep]].
    apply IH; [exact Hrest | exact Hfirst' |].
    destruct Hs as [[<-|Hs]|Hs].
    + right. exact Hheld.
    + left. exact Hs.
    + right. apply Hkeep. exact Hs.
Qed.

(** X9: the finalized interval of every target of the run, sorted on its
    start and with its beams, lies within one of the busy windows. *)
Theorem every_target_lies_in_a_busy_window (admitted : list Scheduled) :
  forall s, In s (snd (assign_beams (sort_run admitted))) ->
    exists bw,
      In bw (busy_windows (snd (assign_beams (sort_run admitted))))
      /\ holds bw s.
Proof.
  set (run := snd (assign_beams (sort_run admitted))).
  assert (Hsorted : StronglySorted
                      (fun a b => fst (final a) <= fst (final b)) run).
  { apply sorted_on_starts. unfold run. rewrite assign_beams_finals.
    apply sorted_on_starts. apply sort_key_sorted. }
  clearbody run. intros s Hs. unfold busy_windows.
  destruct run as [|b0 rest] eqn:Hrun; [contradiction|].
  match goal with
  | |- context [fold_left join_busy ?l ?st0] =>
      pose proof (join_busy_holds l st0 Hsorted) as Hjoin;
      destruct (fold_left join_busy l st0) as [before cur]
  end.
  apply Hjoin; [|left; exact Hs].
  cbn [fst snd]. intros b [<-|Hb]; [lia|].
  inversion Hsorted as [|? ? _ Hall]; subst.
  rewrite Forall_forall in Hall. apply Hall. exact Hb.
Qed.

End BusyCover.

Lemma every_target_lies_in_a_busy_window_witness :
  exists bw,
    In bw (busy_windows (snd (assign_beams (sort_run [sched_B; sched_A]))))
    /\ holds bw (mkScheduled psr_B (day0 + minutes 195, day0 + minutes 255)
                             [2; 4]).
Proof.
  apply (every_target_lies_in_a_busy_window [sched_B; sched_A]).
  vm_compute. right; left; reflexivity.
Defined.

(** ** More on the maintenance placement *)

Section PlacementRaises.

Lemma place_window_raises start run n i (w : window) st e :
  place_window start run n i w st = Raise e ->
  e = ValueError /\ run = [] /\ snd w - fst w < minutes 6 /\ i = (n - 1)%nat.
Proof.
  unfold place_window. cbv zeta. rewrite !Z.geb_leb.
  repeat match goal with
         | |- context [if minutes ?k <=? ?x then _ else _] =>
             destruct (Z.leb_spec (minutes k) x)
         | |- context [if Nat.eqb ?a ?b then _ else _] =>
             destruct (Nat.eqb_spec a b)
         | |- context [if ?c then _ else _] => destruct c
         end; try (intros; discriminate).
  destruct run as [|s run]; simpl.
  - intros Hraise; inversion Hraise. repeat split; assumption.
  - destruct (_ >? _); intros; discriminate.
Qed.

Lemma place_windows_raises start run n ws : forall i st e,
  place_windows start run n i ws st = Raise e ->
  e = ValueError /\ run = []
  /\ exists earlier fw rest,
       ws = earlier ++ fw :: rest
       /\ (i + List.length earlier = n - 1)%nat
       /\ snd fw - fst fw < minutes 6.
Proof.
  induction ws as [|w ws IH]; intros i st e H; simpl in H; [discriminate|].
  destruct (place_window start run n i w st) as [st'|e'] eqn:Hw; simpl in H.
  - destruct (IH (S i) st' e H) as [He [Hrun [earlier [fw [rest [Hws [Hi Hfw]]]]]]].
    repeat split; try assumption.
    exists (w :: earlier), fw, rest. rewrite Hws. simpl.
    repeat split; [lia | assumption].
  - inversion H; subst e'.
    destruct (place_window_raises _ _ _ _ _ _ _ Hw) as [He [Hrun [Hshort Hi]]].
    repeat split; try assumption.
    exists [], w, ws. simpl. repeat split; [lia | assumption].
Qed.

(** X10: the placement raises nothing but the ValueError of the empty maximum,
    and raises it exactly when no target is admitted and the last free window
    is shorter than 6 minutes; with a target admitted it always returns its
    list of commands. *)
Theorem placement_raises_only_without_targets
  (orig_start start : datetime) (run : list Scheduled)
  (busyWindows freeWindows : list window) (e : exn) :
  place orig_start start run busyWindows freeWindows = Raise e
  <-> e = ValueError /\ run = []
      /\ exists earlier fw,
           freeWindows = earlier ++ [fw] /\ snd fw - fst fw < minutes 6.
Proof.
  split.
  - unfold place. intros H.
    destruct (place_windows start run (List.length freeWindows) 0 freeWindows
                            _) as [st'|e'] eqn:Hws; simpl in H; [discriminate|].
    inversion H; subst e'.
    destruct (place_windows_raises _ _ _ _ _ _ _ Hws)
      as [He [Hrun [earlier [fw [rest [Hfree [Hi Hshort]]]]]]].
    repeat split; try assumption.
    exists earlier, fw. split; [|assumption].
    rewrite Hfree in Hi. rewrite length_app in Hi. simpl in Hi.
    destruct rest; [assumption | simpl in Hi; lia].
  - intros [-> [-> [earlier [fw [-> Hshort]]]]]. unfold place.
    rewrite place_windows_short_last; [reflexivity | | assumption].
    rewrite length_app. cbn [List.length]. unfold window, datetime in *. lia.
Qed.

End PlacementRaises.

Lemma placement_raises_only_without_targets_witness :
  exists cmds,
    place day0 win_start gap_run (busy_windows gap_run)
          [(win_start, win_start + minutes 4)] = Ok cmds.
Proof.
  destruct (place day0 win_start gap_run (busy_windows gap_run)
                  [(win_start, win_start + minutes 4)]) as [cmds|e] eqn:Hplace.
  - exists cmds. reflexivity.
  - destruct (proj1 (placement_raises_only_without_targets day0 win_start
                       gap_run (busy_windows gap_run)
                       [(win_start, win_start + minutes 4)] e) Hplace)
      as [_ [Hrun _]].
    discriminate Hrun.
Defined.

Section Cooldowns.

Lemma commands_of_snoc k cmds t k' :
  commands_of k (cmds ++ [(t, k')])
  = commands_of k cmds ++ (if Command_eqb k' k then [(t, k')] else []).
Proof.
  unfold commands_of. rewrite filter_app. cbn [filter snd].
  destruct (Command_eqb k' k); reflexivity.
Qed.

Lemma commands_of_ini k busyWindows :
  Command_eqb INIdp k = false ->
  commands_of k (ini_commands busyWindows) = [].
Proof.
  intros Hk. unfold commands_of, ini_commands.
  induction busyWindows as [|w ws IH]; [reflexivity|].
  cbn [map filter snd]. rewrite Hk. exact IH.
Qed.

Lemma spaced_snoc gap bound cmds t k :
  spaced gap cmds ->
  Forall (fun c => fst c <= bound) cmds ->
  bound + gap < t ->
  spaced gap (cmds ++ [(t, k)]).
Proof.
  intros Hsp Hlast Hlt. apply StronglySorted_snoc; [exact Hsp|].
  rewrite Forall_forall in *. intros c Hc. specialize (Hlast c Hc).
  cbn [fst]. lia.
Qed.

Ltac other_command :=
  rewrite ?commands_of_snoc; cbn [Command_eqb]; rewrite ?app_nil_r.

Lemma cooldowns_other st t k :
  Command_eqb k acquireHealthCheckAndProcess = false ->
  Command_eqb k selectBestDRSU = false ->
  Command_eqb k postDRSUStatus = false ->
  Command_eqb k scanDRSUs = false ->
  cooldowns st ->
  cooldowns (mkPlacement (atCommands st ++ [(t, k)])
                         (tTBWLast st) (tDRSULast st) (tLWADBLast st)).
Proof.
  intros H1 H2 H3 H4 [A1 A2 B1 B2 B3 C1 C2 C3].
  constructor; cbn [atCommands tTBWLast tDRSULast tLWADBLast];
    rewrite ?commands_of_snoc, ?H1, ?H2, ?H3, ?H4, ?app_nil_r; assumption.
Qed.

Lemma cooldowns_health st t :
  tTBWLast st + hours 4 < t ->
  cooldowns st ->
  cooldowns (mkPlacement
               (atCommands st ++ [(t, acquireHealthCheckAndProcess)])
               t (tDRSULast st) (tLWADBLast st)).
Proof.
  intros Hdue [A1 A2 B1 B2 B3 C1 C2 C3].
  constructor; cbn [atCommands tTBWLast tDRSULast tLWADBLast];
    other_command; try assumption.
  - eapply spaced_snoc; eassumption.
  - apply Forall_app; split.
    + rewrite Forall_forall in *. intros c Hc. specialize (A2 c Hc).
      unfold hours in *. lia.
    + constructor; [cbn [fst]; lia | constructor].
Qed.

Lemma cooldowns_drsu st t :
  tDRSULast st + hours 6 < t ->
  cooldowns st ->
  cooldowns (mkPlacement
               ((atCommands st ++ [(t, selectBestDRSU)])
                ++ [(t + minutes 2, postDRSUStatus)])
               (tTBWLast st) (t + minutes 2) (tLWADBLast st)).
Proof.
  intros Hdue [A1 A2 B1 B2 B3 C1 C2 C3].
  constructor; cbn [atCommands tTBWLast tDRSULast tLWADBLast];
    other_command; try assumption.
  - apply StronglySorted_snoc; [exact B1|].
    rewrite Forall_forall in *. intros c Hc. specialize (B2 c Hc).
    cbn [fst]. unfold hours, minutes in *. lia.
  - apply Forall_app; split.
    + rewrite Forall_forall in *. intros c Hc. specialize (B2 c Hc).
      unfold hours, minutes in *. lia.
    + constructor; [cbn [fst]; lia | constructor].
  - rewrite !map_app. f_equal. exact B3.
Qed.

Lemma cooldowns_scan st t :
  tLWADBLast st + hours 4 < t ->
  8 <= hour t ->
  cooldowns st ->
  cooldowns (mkPlacement (atCommands st ++ [(t, scanDRSUs)])
                         (tTBWLast st) (tDRSULast st) (t + hours 24)).
Proof.
  intros Hdue Hhour [A1 A2 B1 B2 B3 C1 C2 C3].
  constructor; cbn [atCommands tTBWLast tDRSULast tLWADBLast];
    other_command; try assumption.
  - apply StronglySorted_snoc; [exact C1|].
    rewrite Forall_forall in *. intros c Hc. specialize (C2 c Hc).
    cbn [fst]. unfold hours in *. lia.
  - apply Forall_app; split.
    + rewrite Forall_forall in *. intros c Hc. specialize (C2 c Hc).
      unfold hours in *. lia.
    + constructor; [cbn [fst]; lia | constructor].
  - apply Forall_app; split; [assumption|].
    constructor; [exact Hhour | constructor].
Qed.

Lemma maintenance_loop_cooldowns fuel : forall limit tTBW tDRSU tLWADB st,
  cooldowns st ->
  cooldowns (maintenance_loop fuel limit tTBW tDRSU tLWADB st).
Proof.
  induction fuel as [|fuel IH]; intros limit tTBW tDRSU tLWADB st Hst;
    cbn [maintenance_loop]; [exact Hst|].
  destruct (tTBW <=? limit); [|exact Hst].
  rewrite !Z.gtb_ltb.
  destruct (Z.ltb_spec (tTBWLast st + hours 4) tTBW) as [HA|HA].
  { apply IH. apply cooldowns_health; assumption. }
  destruct (Z.ltb_spec (tDRSULast st + hours 6) tDRSU) as [HB|HB].
  { apply IH. apply cooldowns_drsu; assumption. }
  destruct (Z.ltb_spec (tLWADBLast st + hours 4) tLWADB) as [HC|HC];
    [|apply IH; exact Hst].
  apply IH. rewrite Z.geb_leb.
  destruct (Z.leb_spec 8 (hour tLWADB)) as [Hh|Hh]; [|exact Hst].
  apply cooldowns_scan; assumption.
Qed.

Lemma place_window_cooldowns start run n i (w : window) st st' :
  cooldowns st ->
  place_window start run n i w st = Ok st' ->
  cooldowns st'.
Proof.
  intros Hst. unfold place_window. cbv zeta.
  assert (Htbn : forall t,
             cooldowns (mkPlacement (atCommands st ++ [(t, startTBN_split)])
                                    (tTBWLast st) (tDRSULast st)
                                    (tLWADBLast st)))
    by (intros t; apply cooldowns_other; [reflexivity .. | exact Hst]).
  destruct (snd w - fst w >=? minutes 45).
  { intros Hres; inversion Hres; subst st'. apply maintenance_loop_cooldowns.
    destruct ((i =? 0)%nat || _); [apply Htbn | exact Hst]. }
  rewrite !Z.gtb_ltb.
  destruct (snd w - fst w >=? minutes 15).
  { destruct (Z.ltb_spec (tTBWLast st + hours 4)
                         (replace_second0 (fst w + minutes 4))).
    { intros Hres; inversion Hres; subst st'. apply cooldowns_health; assumption. }
    destruct (Z.ltb_spec (tDRSULast st + hours 6)
                         (replace_second0 (fst w + minutes 4)));
      intros Hres; inversion Hres; subst st';
      [apply cooldowns_drsu; assumption | exact Hst]. }
  destruct (snd w - fst w >=? minutes 6).
  { destruct (Z.ltb_spec (tDRSULast st + hours 6)
                         (replace_second0 (fst w + minutes 2)));
      intros Hres; inversion Hres; subst st';
      [apply cooldowns_drsu; assumption | exact Hst]. }
  destruct (Nat.eqb i (n - 1)); [|intros Hres; inversion Hres; subst; exact Hst].
  destruct (max_list _) as [last_stop|]; simpl; [|discriminate].
  match goal with
  | |- context [if ?c then _ else _] => destruct c
  end; intros Hres; inversion Hres; subst st'; [apply Htbn | exact Hst].
Qed.

Lemma place_windows_cooldowns start run n ws : forall i st st',
  cooldowns st ->
  place_windows start run n i ws st = Ok st' ->
  cooldowns st'.
Proof.
  induction ws as [|w ws IH]; intros i st st' Hst H; simpl in H.
  - inversion H; subst; exact Hst.
  - destruct (place_window start run n i w st) as [st1|] eqn:Hw; simpl in H;
      [|discriminate].
    eapply IH; [|exact H]. eapply place_window_cooldowns; eassumption.
Qed.

Lemma place_keeps_cooldowns orig_start start run busyWindows freeWindows cmds :
  place orig_start start run busyWindows freeWindows = Ok cmds ->
  exists st, atCommands st = cmds /\ cooldowns st.
Proof.
  unfold place. intros H.
  destruct (place_windows start run (List.length freeWindows) 0 freeWindows _)
    as [st|] eqn:Hws; simpl in H; [|discriminate].
  inversion H; subst cmds. exists st. split; [reflexivity|].
  eapply place_windows_cooldowns; [|exact Hws].
  constructor; cbn [atCommands tTBWLast tDRSULast tLWADBLast];
    rewrite ?commands_of_ini by reflexivity; try constructor; reflexivity.
Qed.

(** X11: the health checks of one run are emitted in order of time with more
    than 4 hours between one and the next, across all the free windows. *)
Theorem health_checks_are_four_hours_apart
  (orig_start start : datetime) (run : list Scheduled)
  (busyWindows freeWindows : list window) (cmds : list (datetime * Command)) :
  place orig_start start run busyWindows freeWindows = Ok cmds ->
  spaced (hours 4) (commands_of acquireHealthCheckAndProcess cmds).
Proof.
  intros H. destruct (place_keeps_cooldowns _ _ _ _ _ _ H) as [st [<- Hst]].
  apply Hst.
Qed.

(** X12: the DRSU selections of one run come more than 6 hours and 2 minutes
    apart, and each one is followed 2 minutes later by the posting of the DRSU
    status, which is emitted at no other time. *)
Theorem drsu_selections_are_spaced_and_posted
  (orig_start start : datetime) (run : list Scheduled)
  (busyWindows freeWindows : list window) (cmds : list (datetime * Command)) :
  place orig_start start run busyWindows freeWindows = Ok cmds ->
  spaced (hours 6 + minutes 2) (commands_of selectBestDRSU cmds)
  /\ map (fun c => fst c + minutes 2) (commands_of selectBestDRSU cmds)
     = map fst (commands_of postDRSUStatus cmds).
Proof.
  intros H. destruct (place_keeps_cooldowns _ _ _ _ _ _ H) as [st [<- Hst]].
  split; apply Hst.
Qed.

(** X13: the DRSU scans of one run are emitted only at an hour of the day from
    8 on, and more than 28 hours apart. *)
Theorem drsu_scans_are_daily_and_after_eight
  (orig_start start : datetime) (run : list Scheduled)
  (busyWindows freeWindows : list window) (cmds : list (datetime * Command)) :
  place orig_start start run busyWindows freeWindows = Ok cmds ->
  spaced (hours 28) (commands_of scanDRSUs cmds)
  /\ Forall (fun c => 8 <= hour (fst c)) (commands_of scanDRSUs cmds).
Proof.
  intros H. destruct (place_keeps_cooldowns _ _ _ _ _ _ H) as [st [<- Hst]].
  split; apply Hst.
Qed.

End Cooldowns.

(** ** The placement on the two-target catalog *)

Lemma health_checks_are_four_hours_apart_witness :
  exists cmds,
    place day0 win_start gap_run (busy_windows gap_run)
          (free_windows (free_times gap_run win_start win_stop)) = Ok cmds
    /\ List.length (commands_of acquireHealthCheckAndProcess cmds) = 3%nat
    /\ spaced (hours 4) (commands_of acquireHealthCheckAndProcess cmds).
Proof.
  eexists. split; [vm_compute; reflexivity|]. split; [reflexivity|].
  apply (health_checks_are_four_hours_apart day0 win_start gap_run
           (busy_windows gap_run)
           (free_windows (free_times gap_run win_start win_stop))).
  vm_compute. reflexivity.
Defined.

Lemma drsu_selections_are_spaced_and_posted_witness :
  exists cmds,
    place day0 win_start gap_run (busy_windows gap_run)
          (free_windows (free_times gap_run win_start win_stop)) = Ok cmds
    /\ map (fun c => fst c + minutes 2) (commands_of selectBestDRSU cmds)
       = map fst (commands_of postDRSUStatus cmds).
Proof.
  eexists. split; [vm_compute; reflexivity|].
  apply (drsu_selections_are_spaced_and_posted day0 win_start gap_run
           (busy_windows gap_run)
           (free_windows (free_times gap_run win_start win_stop))).
  vm_compute. reflexivity.
Defined.

Lemma drsu_scans_are_daily_and_after_eight_witness :
  exists cmds,
    place day0 win_start gap_run (busy_windows gap_run)
          (free_windows (free_times gap_run win_start win_stop)) = Ok cmds
    /\ List.length (commands_of scanDRSUs cmds) = 1%nat
    /\ Forall (fun c => 8 <= hour (fst c)) (commands_of scanDRSUs cmds).
Proof.
  eexists. split; [vm_compute; reflexivity|]. split; [reflexivity|].
  apply (drsu_scans_are_daily_and_after_eight day0 win_start gap_run
           (busy_windows gap_run)
           (free_windows (free_times gap_run win_start win_stop))).
  vm_compute. reflexivity.
Defined.

(** ** The dry run *)

Section DryRun.
Context {E : Ephem} {F : Facility}.

Lemma quiet_ret {A} (a : A) : quiet (ret a).
Proof. intros w. split; [reflexivity | discriminate]. Qed.

Lemma quiet_lift {A} (r : result A) : quiet (lift r).
Proof.
  intros w. unfold lift. destruct r; split; try reflexivity; discriminate.
Qed.

Lemma quiet_bind {A B} (m : M A) (k : A -> M B) :
  quiet m -> (forall a, quiet (k a)) -> quiet (mbind m k).
Proof.
  intros Hm Hk w. unfold mbind. destruct (Hm w) as [Hw Hexit].
  destruct (m w) as [[a|status|e] w']; simpl in *; subst w'.
  - apply Hk.
  - exfalso. eapply Hexit. reflexivity.
  - split; [reflexivity | discriminate].
Qed.

Lemma quiet_read_catalog : quiet read_catalog.
Proof. intros w. split; [reflexivity | discriminate]. Qed.

Lemma quiet_read_state : quiet read_state.
Proof. intros w. split; [reflexivity | discriminate]. Qed.

Lemma quiet_build_beams args s bs :
  dry_run args = true -> forall b acc, quiet (build_beams args s b bs acc).
Proof.
  intros Hdry. induction bs as [|beam bs IH];
    intros b [[session_id fileids] filenames]; cbn [build_beams].
  - apply quiet_ret.
  - rewrite Hdry. cbn [negb].
    apply quiet_bind; [apply quiet_ret | intros acc'; apply IH].
Qed.

Lemma quiet_build_observations args run :
  dry_run args = true -> forall acc, quiet (build_observations args run acc).
Proof.
  intros Hdry. induction run as [|s run IH]; intros acc;
    cbn [build_observations].
  - apply quiet_ret.
  - apply quiet_bind; [apply quiet_build_beams; exact Hdry | intros; apply IH].
Qed.

Lemma quiet_implement args cmds :
  dry_run args = true -> quiet (implement args cmds).
Proof.
  intros Hdry. induction cmds as [|cmd cmds IH]; cbn [implement].
  - apply quiet_ret.
  - rewrite Hdry. cbn [negb].
    apply quiet_bind; [apply quiet_ret | intros atID].
    apply quiet_bind; [exact IH | intros atIDs; apply quiet_ret].
Qed.

(** X14: a dry run leaves everything outside the script as it found it (the
    state file, the catalog and its backup, the SDF directory and files, the
    at queue and the log) and never calls [sys.exit], whether it returns or
    raises. *)
Theorem dry_run_touches_nothing (args : Args) (w : World) :
  dry_run args = true ->
  snd (main args w) = w /\ forall status, fst (main args w) <> Exit status.
Proof.
  intros Hdry. revert w. change (quiet (main args)).
  unfold main, plan_and_build, submit_and_commit. rewrite Hdry.
  cbn [negb andb when].
  apply quiet_bind.
  - apply quiet_bind; [apply quiet_read_catalog | intros bdys].
    apply quiet_bind; [apply quiet_lift | intros adm].
    apply quiet_bind; [apply quiet_read_state | intros session_id].
    apply quiet_bind; [apply quiet_ret | intros _].
    apply quiet_bind; [apply quiet_build_observations; exact Hdry|].
    intros [[session_id' fileids] filenames]. apply quiet_ret.
  - intros p.
    apply quiet_bind; [apply quiet_ret | intros _].
    apply quiet_bind; [apply quiet_ret | intros _].
    apply quiet_bind; [apply quiet_lift | intros cmds].
    apply quiet_bind; [apply quiet_implement; exact Hdry | intros atIDs].
    apply quiet_ret.
Qed.

End DryRun.

Lemma dry_run_touches_nothing_witness :
  snd (@main gap_ephem (test_facility (hours 10) false) args_dry world0)
  = world0.
Proof.
  exact (proj1 (@dry_run_touches_nothing gap_ephem
                  (test_facility (hours 10) false) args_dry world0 eq_refl)).
Defined.

(** ** The commit *)

Section Commit.
Context {E : Ephem} {F : Facility}.

Lemma to_file_each_raises bdys w :
  bdys <> [] -> to_file_each bdys w = (Exc NameError, w).
Proof. destruct bdys as [|b bdys]; [contradiction | reflexivity]. Qed.







End Commit.


(** ** The catalog update *)

Section CatalogUpdate.
Context {E : Ephem}.
Variables start stop : datetime.

Lemma same_entry_refl o : same_entry o o.
Proof. repeat split. Qed.

Lemma same_entry_trans o1 o2 o3 :
  same_entry o1 o2 -> same_entry o2 o3 -> same_entry o1 o3.
Proof.
  unfold same_entry. intros [A1 [A2 [A3 [A4 [A5 A6]]]]] [B1 [B2 [B3 [B4 [B5 B6]]]]].
  repeat split; congruence.
Qed.

Lemma same_entry_set o mjd : same_entry o (set_last_mjd o mjd).
Proof. repeat split. Qed.

(** One target marked: what becomes of one entry. *)
Lemma mark_observed_entry bdys s bdys' :
  mark_observed start stop bdys s = Ok bdys' ->
  exists mjd,
    observed_mjd start stop s mjd
    /\ Forall2 (fun o o1 =>
                  same_entry o o1
                  /\ (last_mjd o1 = last_mjd o \/ last_mjd o1 = mjd)
                  /\ (0 < cadence o -> oid (bdy s) <> oid o ->
                      last_mjd o1 = last_mjd o)
                  /\ (oid (bdy s) = oid o -> last_mjd o1 = mjd))
               bdys bdys'.
Proof.
  unfold mark_observed.
  destruct (get_start_stop (bdy s) start stop true) as [css|] eqn:Hcss;
    simpl; [|discriminate].
  intros H; inversion H; subst bdys'; clear H.
  exists (fst (dt2mjd (fst css))).
  split; [exists css; split; [exact Hcss | reflexivity]|].
  induction bdys as [|o bdys IH]; simpl; constructor; [|exact IH].
  destruct (Nat.eqb_spec (oid o) (oid (bdy s))) as [Heq|Hne].
  - assert (Hlast : forall x, same_entry o x -> last_mjd x = fst (dt2mjd (fst css)) ->
              forall y, (y = x \/ y = set_last_mjd x (fst (dt2mjd (fst css)))) ->
              same_entry o y /\ last_mjd y = fst (dt2mjd (fst css))).
    { intros x Hx Hl y [->| ->]; [split; assumption|].
      split; [|reflexivity].
      eapply same_entry_trans; [exact Hx | apply same_entry_set]. }
    destruct (Hlast (set_last_mjd o (fst (dt2mjd (fst css))))
                    (same_entry_set _ _) eq_refl
                    (if (cadence (set_last_mjd o (fst (dt2mjd (fst css)))) <=? 0)
                        && within_beam (bdy s)
                             (set_last_mjd o (fst (dt2mjd (fst css))))
                     then set_last_mjd (set_last_mjd o (fst (dt2mjd (fst css))))
                                       (fst (dt2mjd (fst css)))
                     else set_last_mjd o (fst (dt2mjd (fst css)))))
      as [Hsame Hmjd].
    { destruct (_ && _); [right | left]; reflexivity. }
    repeat split; try apply Hsame; try (right; exact Hmjd);
      try (intros; exact Hmjd).
    intros _ Hno. congruence.
  - destruct (Z.leb_spec (cadence o) 0) as [Hopp|Hcad]; cbn [andb].
    + destruct (within_beam (bdy s) o).
      * repeat split; try (right; reflexivity); intros; try lia; congruence.
      * repeat split; try (left; reflexivity); intros; try lia; congruence.
    + repeat split; try (left; reflexivity); intros; congruence.
Qed.

Lemma Forall2_compose {A : Type} (R1 R2 R3 : A -> A -> Prop) l1 l2 l3 :
  (forall a b c, R1 a b -> R2 b c -> R3 a c) ->
  Forall2 R1 l1 l2 -> Forall2 R2 l2 l3 -> Forall2 R3 l1 l3.
Proof.
  intros Hcomp H12. revert l3.
  induction H12 as [|a b l1 l2 Hab H12 IH]; intros l3 H23;
    inversion H23; subst; constructor.
  - eapply Hcomp; eassumption.
  - apply IH; assumption.
Qed.

Lemma oid_in_run_dec (run : list Scheduled) (o : Pulsar) :
  (exists s, In s run /\ oid (bdy s) = oid o)
  \/ (forall s, In s run -> oid (bdy s) <> oid o).
Proof.
  induction run as [|s run IH].
  - right. intros s [].
  - destruct (Nat.eq_dec (oid (bdy s)) (oid o)) as [Heq|Hne].
    + left. exists s. split; [left; reflexivity | exact Heq].
    + destruct IH as [[s' [Hin Heq]]|Hnone].
      * left. exists s'. split; [right; exact Hin | exact Heq].
      * right. intros s' [<-|Hin]; [exact Hne | apply Hnone; exact Hin].
Qed.

(** X17: the update after a submission keeps the entries of the catalog in
    place and changes nothing of them but the last-observed day; that day
    stays as it was or becomes the MJD of the padded start of an observed
    target; an entry with a positive cadence keeps its day when it was not
    observed, and gets the day of its own observation when it was. *)
Theorem catalog_update_moves_only_the_last_observed_day run :
  forall bdys bdys',
    mark_all start stop bdys run = Ok bdys' ->
    Forall2 (marked start stop run) bdys bdys'.
Proof.
  induction run as [|s run IH]; intros bdys bdys' H; simpl in H.
  - inversion H; subst bdys'. clear H.
    induction bdys as [|o bdys IHb]; constructor; [|exact IHb].
    split; [apply same_entry_refl|]. split; [left; reflexivity|].
    split; [reflexivity|]. intros _ [s [[] _]].
  - destruct (mark_observed start stop bdys s) as [bdys1|] eqn:Hs; simpl in H;
      [|discriminate].
    destruct (mark_observed_entry _ _ _ Hs) as [mjd [Hmjd Hstep]].
    specialize (IH bdys1 bdys' H).
    eapply Forall2_compose; [|exact Hstep|exact IH].
    intros o o1 o' [Hsame1 [Hlast1 [Hkeep1 Hown1]]]
           [Hsame [Hlast [Hkeep Hown]]].
    assert (Hoid : oid o1 = oid o) by apply Hsame1.
    assert (Hcad : cadence o1 = cadence o) by apply Hsame1.
    split; [eapply same_entry_trans; eassumption|].
    split; [|split].
    + destruct Hlast as [Hlast|[s' [Hin Hobs]]].
      * destruct Hlast1 as [Hl|Hl]; [left; congruence|].
        right. exists s. split; [left; reflexivity|]. rewrite Hlast, Hl.
        exact Hmjd.
      * right. exists s'. split; [right; exact Hin | exact Hobs].
    + intros Hpos Hnone.
      rewrite Hkeep.
      * apply Hkeep1; [exact Hpos|]. apply Hnone. left; reflexivity.
      * lia.
      * intros s' Hin. rewrite Hoid. apply Hnone. right; exact Hin.
    + intros Hpos [s0 [Hin0 Heq0]].
      destruct (oid_in_run_dec run o) as [[s' [Hin Heq]]|Hnone].
      * destruct Hown as [s2 [Hin2 [Heq2 Hobs2]]];
          [lia | exists s'; split; [exact Hin | congruence] |].
        exists s2. split; [right; exact Hin2|]. split; [congruence | exact Hobs2].
      * destruct Hin0 as [<-|Hin0]; [|exfalso; eapply Hnone; eassumption].
        exists s. split; [left; reflexivity|]. split; [exact Heq0|].
        rewrite Hkeep; [|lia|intros s' Hin'; rewrite Hoid; apply Hnone; exact Hin'].
        rewrite (Hown1 Heq0). exact Hmjd.
Qed.

End CatalogUpdate.

Lemma catalog_update_moves_only_the_last_observed_day_witness :
  exists bdys',
    @mark_all gap_ephem win_start win_stop [psr_A; psr_C; psr_B] gap_run
    = Ok bdys'
    /\ map last_mjd bdys' = [60000; 59990; 60000]
    /\ Forall2 (@marked gap_ephem win_start win_stop gap_run)
               [psr_A; psr_C; psr_B] bdys'.
Proof.
  eexists. split; [vm_compute; reflexivity|]. split; [reflexivity|].
  apply (@catalog_update_moves_only_the_last_observed_day gap_ephem win_start
           win_stop gap_run [psr_A; psr_C; psr_B]).
  vm_compute. reflexivity.
Defined.

(** ** The session ids and the SDF files *)

Section SessionIds.
Context {E : Ephem} {F : Facility}.

Lemma two_beams_each (run : list Scheduled) :
  Forall (fun s' => exists b0 b1, beams s' = [b0; b1] /\ b0 <> b1) run ->
  List.length (flat_map beams run) = (2 * List.length run)%nat.
Proof.
  induction 1 as [|s run [b0 [b1 [Hs _]]] Hrun IH]; [reflexivity|].
  cbn [flat_map List.length]. rewrite length_app, Hs, IH. simpl. lia.
Qed.

(** X18: in a run that is not dry the SDF files take consecutive session ids
    from the one read from the state file (1 when there is none), two per
    target, one for each of its beams in the order of the run; the files are
    added after those on disk, and the id kept for the state file is the
    first one not used. *)
Theorem session_ids_are_consecutive_two_per_target
  (args : Args) (w : World) (p : Plan) (w1 : World) :
  plan_and_build args w = (Ret p, w1) ->
  dry_run args = false ->
  plan_session_id p
  = match state_file w with Some n => n | None => 1 end
    + 2 * Z.of_nat (List.length (plan_run p))
  /\ map sdf_session (plan_filenames p)
     = ids_from (match state_file w with Some n => n | None => 1 end)
                (2 * List.length (plan_run p))
  /\ map sdf_beam (plan_filenames p) = flat_map beams (plan_run p)
  /\ map fst (sdf_files w1) = map fst (sdf_files w) ++ plan_filenames p.
Proof.
  intros Hplan Hdry. unfold plan_and_build in Hplan.
  unfold mbind at 1 in Hplan. unfold read_catalog at 1 in Hplan.
  unfold mbind at 1 in Hplan.
  destruct (admit_loop _ _ _ _) as [adm|e]; unfold lift at 1 in Hplan;
    [|discriminate].
  unfold mbind at 1 in Hplan. unfold read_state at 1 in Hplan.
  unfold mbind at 1 in Hplan. rewrite Hdry in Hplan.
  unfold when, make_sdf_dir in Hplan. cbn [negb] in Hplan.
  unfold mbind at 1 in Hplan.
  match type of Hplan with
  | context [build_observations args ?run (?sid, [], []) ?w0] =>
      destruct (build_observations_names args run Hdry sid [] [] w0)
        as [names [w' [Hrun [Hids [Hbeams Hfiles]]]]];
      pose proof (two_beams_each run (assign_beams_pairs _)) as Htwo
  end.
  rewrite Hrun in Hplan. unfold ret in Hplan.
  inversion Hplan; subst p w1; clear Hplan.
  cbn [plan_session_id plan_filenames plan_run app].
  rewrite Htwo in *. rewrite Hids, Hbeams, Hfiles.
  repeat split; try reflexivity.
  - rewrite Nat2Z.inj_mul. reflexivity.
  - destruct (existsb _ (sdf_dirs w)); reflexivity.
Qed.

End SessionIds.

Lemma session_ids_are_consecutive_two_per_target_witness :
  exists p w1,
    @plan_and_build gap_ephem (test_facility (hours 10) true) args0 world0
    = (Ret p, w1)
    /\ plan_session_id p = 1 + 2 * Z.of_nat (List.length (plan_run p)).
Proof.
  assert (Hplan : exists p w1,
             @plan_and_build gap_ephem (test_facility (hours 10) true)
                             args0 world0 = (Ret p, w1))
    by (do 2 eexists; vm_compute; reflexivity).
  destruct Hplan as [p [w1 Hplan]].
  destruct (@session_ids_are_consecutive_two_per_target gap_ephem
              (test_facility (hours 10) true) args0 world0 p w1 Hplan eq_refl)
    as [Hid _].
  exists p, w1. split; [exact Hplan | exact Hid].
Defined.

(** ** The INI and TBN commands *)

Section IniAndTbn.
Variables busyWindows freeWindows : list window.

Lemma placed_snoc cmds t k :
  k <> INIdp ->
  (k = startTBN_split -> exists w, In w freeWindows /\ t = fst w) ->
  placed_after_ini busyWindows freeWindows cmds ->
  placed_after_ini busyWindows freeWindows (cmds ++ [(t, k)]).
Proof.
  intros Hk Htbn [rest [-> Hrest]]. exists (rest ++ [(t, k)]).
  split; [rewrite app_assoc; reflexivity|].
  apply Forall_app; split; [exact Hrest|].
  constructor; [split; assumption | constructor].
Qed.

Ltac no_tbn := first [discriminate | intros; discriminate].

Lemma maintenance_loop_placed fuel : forall limit tTBW tDRSU tLWADB st,
  placed_after_ini busyWindows freeWindows (atCommands st) ->
  placed_after_ini busyWindows freeWindows
    (atCommands (maintenance_loop fuel limit tTBW tDRSU tLWADB st)).
Proof.
  induction fuel as [|fuel IH]; intros limit tTBW tDRSU tLWADB st Hst;
    cbn [maintenance_loop]; [exact Hst|].
  destruct (tTBW <=? limit); [|exact Hst].
  destruct (tTBW >? tTBWLast st + hours 4).
  { apply IH. cbn [atCommands]. apply placed_snoc; [no_tbn | no_tbn | exact Hst]. }
  destruct (tDRSU >? tDRSULast st + hours 6).
  { apply IH. cbn [atCommands].
    apply placed_snoc; [no_tbn | no_tbn |].
    apply placed_snoc; [no_tbn | no_tbn | exact Hst]. }
  destruct (tLWADB >? tLWADBLast st + hours 4); [|apply IH; exact Hst].
  apply IH. destruct (hour tLWADB >=? 8); [|exact Hst].
  cbn [atCommands]. apply placed_snoc; [no_tbn | no_tbn | exact Hst].
Qed.

Lemma place_window_placed start run n i (w : window) st st' :
  In w freeWindows ->
  placed_after_ini busyWindows freeWindows (atCommands st) ->
  place_window start run n i w st = Ok st' ->
  placed_after_ini busyWindows freeWindows (atCommands st').
Proof.
  intros Hw Hst. unfold place_window. cbv zeta.
  assert (Htbn : placed_after_ini busyWindows freeWindows
                   (atCommands st ++ [(fst w, startTBN_split)])).
  { apply placed_snoc; [discriminate | | exact Hst].
    intros _. exists w. split; [exact Hw | reflexivity]. }
  destruct (snd w - fst w >=? minutes 45).
  { intros Hres; inversion Hres; subst st'. apply maintenance_loop_placed.
    destruct ((i =? 0)%nat || _); [exact Htbn | exact Hst]. }
  destruct (snd w - fst w >=? minutes 15).
  { destruct (_ >? tTBWLast st + hours 4).
    { intros Hres; inversion Hres; subst st'. cbn [atCommands].
      apply placed_snoc; [no_tbn | no_tbn | exact Hst]. }
    destruct (_ >? tDRSULast st + hours 6);
      intros Hres; inversion Hres; subst st'; [|exact Hst].
    cbn [atCommands]. apply placed_snoc; [no_tbn | no_tbn |].
    apply placed_snoc; [no_tbn | no_tbn | exact Hst]. }
  destruct (snd w - fst w >=? minutes 6).
  { destruct (_ >? tDRSULast st + hours 6);
      intros Hres; inversion Hres; subst st'; [|exact Hst].
    cbn [atCommands]. apply placed_snoc; [no_tbn | no_tbn |].
    apply placed_snoc; [no_tbn | no_tbn | exact Hst]. }
  destruct (Nat.eqb i (n - 1)); [|intros Hres; inversion Hres; subst; exact Hst].
  destruct (max_list _) as [last_stop|]; simpl; [|discriminate].
  match goal with
  | |- context [if ?c then _ else _] => destruct c
  end; intros Hres; inversion Hres; subst st'; [exact Htbn | exact Hst].
Qed.

Lemma place_windows_placed start run n ws : forall i st st',
  (forall w, In w ws -> In w freeWindows) ->
  placed_after_ini busyWindows freeWindows (atCommands st) ->
  place_windows start run n i ws st = Ok st' ->
  placed_after_ini busyWindows freeWindows (atCommands st').
Proof.
  induction ws as [|w ws IH]; intros i st st' Hin Hst H; simpl in H.
  - inversion H; subst; exact Hst.
  - destruct (place_window start run n i w st) as [st1|] eqn:Hw; simpl in H;
      [|discriminate].
    eapply IH; [intros; apply Hin; right; assumption | | exact H].
    eapply place_window_placed; [apply Hin; left; reflexivity | exact Hst | exact Hw].
Qed.

(** X19: the command list starts with one INI per busy window, in their
    order, each 20 minutes before the window starts, floored to the minute;
    no INI is emitted after them, and every TBN start is emitted at the start
    of a free window. *)
Theorem ini_commands_come_first_one_per_busy_window
  (orig_start start : datetime) (run : list Scheduled)
  (cmds : list (datetime * Command)) :
  place orig_start start run busyWindows freeWindows = Ok cmds ->
  exists rest,
    cmds = map (fun w : window => (replace_second0 (fst w - minutes 20), INIdp))
               busyWindows ++ rest
    /\ Forall (fun c => snd c <> INIdp
                        /\ (snd c = startTBN_split ->
                            exists w, In w freeWindows /\ fst c = fst w))
              rest.
Proof.
  unfold place. intros H.
  destruct (place_windows start run (List.length freeWindows) 0 freeWindows _)
    as [st|] eqn:Hws; simpl in H; [|discriminate].
  inversion H; subst cmds.
  eapply place_windows_placed; [|
    |exact Hws].
  - intros w Hw; exact Hw.
  - cbn [atCommands]. exists []. rewrite app_nil_r. split; [reflexivity|constructor].
Qed.

End IniAndTbn.

Lemma ini_commands_come_first_one_per_busy_window_witness :
  exists cmds rest,
    place day0 win_start gap_run (busy_windows gap_run)
          (free_windows (free_times gap_run win_start win_stop)) = Ok cmds
    /\ cmds = map (fun w : window =>
                     (replace_second0 (fst w - minutes 20), INIdp))
                  (busy_windows gap_run) ++ rest.
Proof.
  assert (Hplace : exists cmds,
             place day0 win_start gap_run (busy_windows gap_run)
                   (free_windows (free_times gap_run win_start win_stop))
             = Ok cmds) by (eexists; vm_compute; reflexivity).
  destruct Hplace as [cmds Hplace].
  destruct (ini_commands_come_first_one_per_busy_window (busy_windows gap_run)
              (free_windows (free_times gap_run win_start win_stop))
              day0 win_start gap_run cmds Hplace) as [rest [Hcmds _]].
  exists cmds, rest. split; [exact Hplace | exact Hcmds].
Defined.

(** ** The log *)

Section Timeline.
Context {F : Facility}.

Lemma insert_timeline x l :
  StronglySorted (fun a b : datetime * LogInfo => fst a <= fst b) l ->
  StronglySorted (fun a b : datetime * LogInfo => fst a <= fst b)
                 (insert_sorted timeline_le x l).
Proof.
  induction 1 as [|y l Hl IH Hy]; simpl.
  - constructor; constructor.
  - unfold timeline_le at 1.
    destruct (Z.ltb_spec (fst x) (fst y)) as [Hlt|Hge]; cbn [orb].
    + constructor; [constructor; assumption|].
      constructor; [lia|].
      rewrite Forall_forall in *. intros z Hz. specialize (Hy z Hz). lia.
    + destruct (Z.eqb_spec (fst x) (fst y)) as [Heq|Hne]; cbn [andb].
      * destruct (info_le (snd x) (snd y)).
        -- constructor; [constructor; assumption|].
           constructor; [lia|].
           rewrite Forall_forall in *. intros z Hz. specialize (Hy z Hz). lia.
        -- constructor; [exact IH|].
           rewrite Forall_forall in *. intros z Hz.
           apply (Permutation_in z (Permutation_sym (insert_sorted_perm _ x l)))
             in Hz.
           destruct Hz as [<-|Hz]; [lia | apply Hy; exact Hz].
      * constructor; [exact IH|].
        rewrite Forall_forall in *. intros z Hz.
        apply (Permutation_in z (Permutation_sym (insert_sorted_perm _ x l)))
          in Hz.
        destruct Hz as [<-|Hz]; [lia | apply Hy; exact Hz].
Qed.

(** X20: the timeline written to the log is in order of time, whatever the
    order of the texts at equal times, and has one line for each command with
    its job id and two lines for each target. *)
Theorem timeline_is_chronological
  (cmds : list (datetime * Command)) (atIDs : list Z) (run : list Scheduled) :
  List.length atIDs = List.length cmds ->
  StronglySorted (fun a b : datetime * LogInfo => fst a <= fst b)
                 (report cmds atIDs run)
  /\ List.length (report cmds atIDs run)
     = (List.length cmds + 2 * List.length run)%nat.
Proof.
  intros Hlen. unfold report. split.
  - generalize (map (fun ci : datetime * Command * Z =>
                       (fst (fst ci), CommandInfo (snd (fst ci)) (snd ci)))
                    (combine cmds atIDs)
                ++ flat_map (fun s =>
                     [(fst (final s),
                       StartsInfo (name (bdy s)) (nth 0 (beams s) 0)
                                  (nth 1 (beams s) 0));
                      (snd (final s),
                       StopsInfo (name (bdy s)) (nth 0 (beams s) 0)
                                 (nth 1 (beams s) 0))]) run).
    intros l. unfold sorted. induction l as [|x l IH]; simpl.
    + constructor.
    + apply insert_timeline. exact IH.
  - rewrite <- (Permutation_length (sorted_perm timeline_le _)).
    rewrite length_app, length_map, length_combine, Hlen, Nat.min_id.
    f_equal. induction run as [|s run IH]; simpl; lia.
Qed.

End Timeline.

Lemma timeline_is_chronological_witness :
  List.length
    (@report (test_facility 0 true)
       [(day0 + minutes 70, INIdp); (day0 + minutes 29, startTBN_split)]
       [7; 7] gap_run) = 6%nat.
Proof.
  destruct (@timeline_is_chronological (test_facility 0 true)
              [(day0 + minutes 70, INIdp); (day0 + minutes 29, startTBN_split)]
              [7; 7] gap_run eq_refl) as [_ Hlen].
  exact Hlen.
Defined.

(** ** The catalog scripts *)

Section CatalogScripts.

Lemma find_name_none nm bdys :
  find_name nm bdys = None <-> forall b, In b bdys -> name b <> nm.
Proof.
  induction bdys as [|b bdys IH]; simpl.
  - split; [intros _ x [] | reflexivity].
  - destruct (String.eqb_spec (name b) nm) as [Heq|Hne].
    + split; [discriminate|]. intros H. exfalso.
      apply (H b); [left; reflexivity | exact Heq].
    + destruct (find_name nm bdys) as [[i b']|].
      * split; [discriminate|]. intros H.
        assert (Hnone : Some (i, b') = None); [|discriminate].
        apply (proj2 IH). intros x Hx. apply H. right; exact Hx.
      * split; [|reflexivity]. intros _ x [<-|Hx]; [exact Hne|].
        apply (proj1 IH); [reflexivity | exact Hx].
Qed.

Lemma find_name_some nm bdys :
  (exists b, In b bdys /\ name b = nm) ->
  exists i b', find_name nm bdys = Some (i, b').
Proof.
  intros [b [Hb Hnm]].
  destruct (find_name nm bdys) as [[i b']|] eqn:Hfind;
    [exists i, b'; reflexivity|].
  exfalso. exact (proj1 (find_name_none nm bdys) Hfind b Hb Hnm).
Qed.

Lemma find_name_first nm before o after :
  (forall b, In b before -> name b <> nm) ->
  name o = nm ->
  find_name nm (before ++ o :: after) = Some (List.length before, o).
Proof.
  intros Hbefore Ho. induction before as [|b before IH]; simpl.
  - rewrite <- Ho, String.eqb_refl. reflexivity.
  - destruct (String.eqb_spec (name b) nm) as [Heq|Hne].
    + exfalso. apply (Hbefore b); [left; reflexivity | exact Heq].
    + rewrite IH; [reflexivity|]. intros x Hx. apply Hbefore. right; exact Hx.
Qed.

Lemma delete_at_first {A : Type} (before : list A) o after :
  delete_at (List.length before) (before ++ o :: after) = before ++ after.
Proof. induction before as [|b before IH]; simpl; [|rewrite IH]; reflexivity. Qed.

Lemma to_file_each_spec bdys w :
  to_file_each bdys w
  = (match bdys with [] => Ret tt | _ :: _ => Exc NameError end, w).
Proof. destruct bdys; reflexivity. Qed.

(** X21: under Python 3, removePulsar raises RuntimeError and changes nothing
    when no catalog entry has the name; for a name it finds it raises the
    NameError of [raw_input] and changes nothing unless it is forced; forced,
    it copies the catalog to the backup and leaves the catalog cut to its
    header, with no entry at all: [to_file] raises NameError on the first
    entry to write back, and the script completes only if the entry removed
    was the only one. *)
Theorem forced_removal_cuts_the_catalog
  (nm : string) (force : bool) (now : datetime) (w : World) :
  ((forall b, In b (entries (catalog_file w)) -> name b <> nm) ->
   remove_main nm force now w = (Exc RuntimeError, w))
  /\ (forall before o after,
        entries (catalog_file w) = before ++ o :: after ->
        name o = nm ->
        (forall b, In b before -> name b <> nm) ->
        remove_main nm force now w
        = if force
          then (match before ++ after with
                | [] => Ret tt
                | _ :: _ => Exc NameError
                end, cut_catalog now true w)
          else (Exc NameError, w)).
Proof.
  split.
  - intros Hnone. unfold remove_main, mbind at 1, read_catalog.
    apply find_name_none in Hnone. rewrite Hnone. reflexivity.
  - intros before o after Hcat Ho Hbefore.
    unfold remove_main, mbind at 1, read_catalog.
    rewrite Hcat, (find_name_first nm before o after Hbefore Ho).
    destruct force; [|reflexivity].
    unfold mbind at 1, ret at 1. change (says_yes "y") with true.
    unfold when, mbind at 1, backup_catalog at 1, write_catalog, mbind,
      open_catalog.
    cbn [updated entries]. rewrite to_file_each_spec, delete_at_first.
    unfold cut_catalog.
    cbn [state_file catalog_file catalog_old sdf_dirs sdf_files at_queue
         runtime_log].
    destruct (before ++ after); reflexivity.
Qed.

Lemma or_prompt_given {A : Type} (falsy : A -> bool) (a : A) (w : World) :
  falsy a = false -> or_prompt falsy (Some a) w = (Ret a, w).
Proof. intros Hf. unfold or_prompt. rewrite Hf. reflexivity. Qed.

Lemma sort_key_not_nil {A : Type} (key : A -> Z) (l : list A) (x : A) :
  sort_key key (l ++ [x]) <> [].
Proof.
  intros Hnil.
  pose proof (Permutation_length (sorted_perm (fun a b => key a <=? key b)
                                              (l ++ [x]))) as Hlen.
  unfold sort_key in Hnil. rewrite Hnil, length_app in Hlen. simpl in Hlen. lia.
Qed.

(** X22: under Python 3, addPulsar never adds an entry.  It raises the
    NameError of [raw_input] and changes nothing when an option is left out,
    empty or zero, and when it is not forced; with all options given it raises
    RuntimeError and changes nothing when an entry has the name already; and
    forced, with a new name, it leaves the catalog cut to its header, with no
    entry and no backup made, and raises the NameError of [to_file]. *)
Theorem forced_addition_cuts_the_catalog
  (ra_key : Pulsar -> Z) (new_oid : nat) (args : AddArgs) (now : datetime)
  (w : World) :
  (asks args = true ->
   add_main ra_key new_oid args now w = (Exc NameError, w))
  /\ (forall nm ra dec dur cad,
        given args nm ra dec dur cad ->
        ((exists b, In b (entries (catalog_file w)) /\ name b = nm) ->
         add_main ra_key new_oid args now w = (Exc RuntimeError, w))
        /\ ((forall b, In b (entries (catalog_file w)) -> name b <> nm) ->
            add_main ra_key new_oid args now w
            = (Exc NameError,
               if add_force args then cut_catalog now false w else w))).
Proof.
  split.
  - unfold asks. intros Hasks. unfold add_main, mbind at 1, read_catalog.
    destruct (add_name args) as [nm|]; [|reflexivity].
    unfold mbind at 1. cbn [or_prompt].
    destruct (empty_string nm); [reflexivity|]. unfold ret at 1.
    destruct (add_ra args) as [ra|]; [|reflexivity].
    unfold mbind at 1. cbn [or_prompt].
    destruct (empty_string ra); [reflexivity|]. unfold ret at 1.
    destruct (add_dec args) as [dec|]; [|reflexivity].
    unfold mbind at 1. cbn [or_prompt].
    destruct (empty_string dec); [reflexivity|]. unfold ret at 1.
    destruct (add_duration args) as [dur|]; [|reflexivity].
    unfold mbind at 1. cbn [or_prompt].
    destruct (0 =? dur); [reflexivity|]. unfold ret at 1.
    destruct (add_cadence args) as [cad|]; [|reflexivity].
    unfold mbind at 1. cbn [or_prompt].
    destruct (0 =? cad); [reflexivity|]. discriminate.
  - intros nm ra dec dur cad [Hnm [Hra [Hdec [Hdur [Hcad Hasks]]]]].
    unfold asks in Hasks. rewrite Hnm, Hra, Hdec, Hdur, Hcad in Hasks.
    apply orb_false_elim in Hasks. destruct Hasks as [Hasks Hc].
    apply orb_false_elim in Hasks. destruct Hasks as [Hasks Hd].
    apply orb_false_elim in Hasks. destruct Hasks as [Hasks He].
    apply orb_false_elim in Hasks. destruct Hasks as [Hn Hr].
    assert (Hprompts :
              add_main ra_key new_oid args now w
              = match find_name nm (entries (catalog_file w)) with
                | Some _ => raise RuntimeError
                | None =>
                    yn <~ (if add_force args then ret "y"%string
                           else raw_input) ;;
                    when (says_yes yn)
                         (write_catalog
                            (mkCatalog now
                               (sort_key ra_key
                                  (entries (catalog_file w)
                                   ++ [mkPulsar new_oid nm ra dec dur cad 0]))))
                end w).
    { unfold add_main, mbind at 1, read_catalog.
      rewrite Hnm, Hra, Hdec, Hdur, Hcad.
      unfold mbind at 1. rewrite (or_prompt_given _ _ _ Hn).
      unfold mbind at 1. rewrite (or_prompt_given _ _ _ Hr).
      unfold mbind at 1. rewrite (or_prompt_given _ _ _ He).
      unfold mbind at 1. rewrite (or_prompt_given _ _ _ Hd).
      unfold mbind at 1. rewrite (or_prompt_given _ _ _ Hc).
      reflexivity. }
    rewrite Hprompts. split.
    + intros Hdup. destruct (find_name_some _ _ Hdup) as [i [b' Hfind]].
      rewrite Hfind. reflexivity.
    + intros Hnew. rewrite (proj2 (find_name_none _ _) Hnew).
      destruct (add_force args); [|reflexivity].
      unfold mbind at 1, ret at 1. change (says_yes "y") with true.
      unfold when, write_catalog, mbind, open_catalog. cbn [updated entries].
      rewrite to_file_each_raises by apply sort_key_not_nil.
      reflexivity.
Qed.

(** X23: under Python 3, resetLastRun changes nothing, whatever its options
    and the catalog and its backup: it raises RuntimeError when no catalog
    entry has the name and the NameError of [raw_input] otherwise, at the
    latest at the prompt that asks to confirm. *)
Theorem reset_changes_nothing
  (nm : string) (mjd : option Z) (now : datetime) (w : World) :
  ((forall b, In b (entries (catalog_file w)) -> name b <> nm) ->
   reset_main nm mjd now w = (Exc RuntimeError, w))
  /\ ((exists b, In b (entries (catalog_file w)) /\ name b = nm) ->
      reset_main nm mjd now w = (Exc NameError, w)).
Proof.
  split.
  - intros Hnone. unfold reset_main, mbind at 1, read_catalog.
    unfold mbind at 1, read_backup.
    apply find_name_none in Hnone. rewrite Hnone. reflexivity.
  - intros Hsome. destruct (find_name_some _ _ Hsome) as [i [cur Hfind]].
    unfold reset_main, mbind at 1, read_catalog.
    unfold mbind at 1, read_backup.
    rewrite Hfind. clear Hfind. unfold mbind at 1.
    match goal with
    | |- context [find_name nm ?l] => destruct (find_name nm l) as [[j old]|]
    end.
    + destruct mjd as [m|]; [reflexivity|].
      destruct (last_mjd old <? last_mjd cur); reflexivity.
    + destruct mjd as [m|]; reflexivity.
Qed.

End CatalogScripts.

Lemma forced_removal_cuts_the_catalog_witness :
  remove_main "B0329+54" true 9 world_named
  = (Exc NameError, cut_catalog 9 true world_named).
Proof.
  destruct (forced_removal_cuts_the_catalog "B0329+54" true 9 world_named)
    as [_ Hfirst].
  exact (Hfirst [] (named 0 "B0329+54" 60000)
                [named 1 "B0823+26" 60001; named 2 "B0329+54" 60002]
                eq_refl eq_refl (fun b (H : In b []) => match H with end)).
Defined.

Lemma forced_addition_cuts_the_catalog_witness :
  add_main (fun b => Z.of_nat (oid b)) 3
           (mkAddArgs (Some "B1133+16"%string) (Some "11:36:03.2"%string)
                      (Some "+15:51:04"%string) (Some (hours 1)) (Some 1) true)
           9 world_named
  = (Exc NameError, cut_catalog 9 false world_named).
Proof.
  destruct (forced_addition_cuts_the_catalog (fun b => Z.of_nat (oid b)) 3
              (mkAddArgs (Some "B1133+16"%string) (Some "11:36:03.2"%string)
                         (Some "+15:51:04"%string) (Some (hours 1)) (Some 1)
                         true)
              9 world_named) as [_ Hadd].
  destruct (Hadd "B1133+16"%string "11:36:03.2"%string "+15:51:04"%string
                 (hours 1) 1) as [_ Hnew].
  - repeat split.
  - apply Hnew. intros b [<-|[<-|[<-|[]]]]; discriminate.
Defined.

Lemma reset_changes_nothing_witness :
  reset_main "B0329+54" None 9 world_named = (Exc NameError, world_named).
Proof.
  destruct (reset_changes_nothing "B0329+54" None 9 world_named) as [_ Hfound].
  apply Hfound. exists (named 0 "B0329+54" 60000).
  split; [left; reflexivity | reflexivity].
Defined.
